(** * Desktop mirror pipeline: capture, cursor, compositing, pacing

    Shallow embedding of the four programs of the repository
    - [DXGI_version/main_dxgi.cpp]  (desktop duplication + D3D11 shader),
    - [GDI_version/main_gdi.cpp]    (StretchBlt + DrawIconEx),
    - [GDI_version/main.cpp]        (desktop duplication + region copy),
    - the pacing code shared by the [WinMain] loops,
    followed by the properties of the specification stated over them.

    Conventions.  A [BYTE], [int], [UINT] or [DWORD] is a [Z]; where the C++
    arithmetic is done in [unsigned] the wrap-around is written with [wrap32],
    and where an [int] result can leave its range it wraps as in the
    compiled program ([to_int]).  A finite [double] is the rational it
    denotes and every operation on [double]s is rounded ([Pacer.RN]).
    A [BYTE*] obtained from [new BYTE[n]] or handed in by the OS is a
    [list Z] whose reads and writes are bounds-checked: a result [None] stands
    for an access outside the array (undefined behaviour in the source).
    Texture and bitmap memory is a function from offsets to values. *)

From Stdlib Require Import ZArith Lia List Bool QArith Qround Qreduction.
From Stdlib Require Qcanon.
From stdpp Require Import base option list.

Local Open Scope Z_scope.

(** ** Machine arithmetic *)

Definition wrap32 (z : Z) : Z := z mod 2 ^ 32.

(** Conversion of an [unsigned] value to [int]. *)
Definition to_int (z : Z) : Z :=
  let w := wrap32 z in if w <? 2 ^ 31 then w else w - 2 ^ 32.

Definition int_ok (z : Z) : bool := (- 2 ^ 31 <=? z) && (z <? 2 ^ 31).

(** Store of an [int] expression into a [BYTE]. *)
Definition to_byte (z : Z) : Z := z mod 256.

Definition is_byte (b : Z) : Prop := 0 <= b < 256.

(** ** Arrays *)

(** [p[i]] on an array of known extent. *)
Definition rd (p : list Z) (i : Z) : option Z :=
  if i <? 0 then None else p !! Z.to_nat i.

(** [p[i] = v]. *)
Definition wr (p : list Z) (i v : Z) : option (list Z) :=
  if (0 <=? i) && (i <? Z.of_nat (length p))
  then Some (<[Z.to_nat i := v]> p) else None.

(** Observation of an array cell, total: what a later read returns. *)
Definition cell (p : list Z) (i : Z) : Z := default 0 (rd p i).

(** Function memory with a single-cell update. *)
Definition upd (m : Z -> Z) (i v : Z) : Z -> Z :=
  fun j => if j =? i then v else m j.

(** ** Loops

    [for (int i = lo; i < lo + n; i++) body] threaded through the error
    monad. *)

Fixpoint for_loop {S : Type} (n : nat) (i : Z)
    (body : Z -> S -> option S) (s : S) : option S :=
  match n with
  | O => Some s
  | Datatypes.S n' => s' ← body i s; for_loop n' (i + 1) body s'
  end.

(** [for (int i = 0; i < hi; i++) body]; no iteration when [hi <= 0]. *)
Definition for_to {S : Type} (hi : Z) (body : Z -> S -> option S) (s : S)
  : option S := for_loop (Z.to_nat hi) 0 body s.

(** ** Cursor reconstruction ([main_dxgi.cpp], [UpdateCursorShape]) *)

(** [DXGI_OUTDUPL_POINTER_SHAPE_TYPE] values of [dxgi1_2.h]. *)
Definition DXGI_OUTDUPL_POINTER_SHAPE_TYPE_MONOCHROME : Z := 1.
Definition DXGI_OUTDUPL_POINTER_SHAPE_TYPE_COLOR : Z := 2.
Definition DXGI_OUTDUPL_POINTER_SHAPE_TYPE_MASKED_COLOR : Z := 4.

(** [DXGI_OUTDUPL_POINTER_SHAPE_INFO]: four [UINT]s and a [POINT]. *)
Record ShapeInfo := {
  Type_ : Z;
  Width : Z;
  Height : Z;
  Pitch : Z;
  HotSpot_x : Z;
  HotSpot_y : Z
}.

(** The cursor globals. [g_CursorBuffer = None] is the null pointer. *)
Record Cursor := {
  g_CursorBuffer : option (list Z);
  g_CursorWidth : Z;
  g_CursorHeight : Z;
  g_CursorHotspotX : Z;
  g_CursorHotspotY : Z
}.

(** Initial values of the globals. *)
Definition cursor_init : Cursor :=
  {| g_CursorBuffer := None; g_CursorWidth := 0; g_CursorHeight := 0;
     g_CursorHotspotX := 0; g_CursorHotspotY := 0 |}.

(** [new BYTE[w * h * 4]] with [int] operands.  The two products are
    formed in 32-bit two's complement, as the compiled program forms them: a
    size that leaves the [int] range wraps around and the array has the
    wrapped extent.  A negative size yields no array ([new] throws and the
    program ends).  The fresh cells are indeterminate in the source; they
    are zero here. *)
Definition new_BYTE (w h : Z) : option (list Z) :=
  let n := to_int (to_int (w * h) * 4) in
  if 0 <=? n then Some (replicate (Z.to_nat n) 0) else None.

(** Four consecutive byte stores [buf[i+0..3] = b0, b1, b2, b3]. *)
Definition wr4 (buf : list Z) (i b0 b1 b2 b3 : Z) : option (list Z) :=
  buf ← wr buf (i + 0) b0;
  buf ← wr buf (i + 1) b1;
  buf ← wr buf (i + 2) b2;
  wr buf (i + 3) b3.

(** Body of the monochrome loops at [(x, y)]. *)
Definition mono_body (shapeBuffer : list Z) (pitch w h : Z) (y x : Z)
    (buf : list Z) : option (list Z) :=
  let byteIdx := to_int (y * pitch + Z.quot x 8) in
  let bitIdx := 7 - Z.rem x 8 in
  a ← rd shapeBuffer byteIdx;
  let andBit := Z.land (Z.shiftr a bitIdx) 1 in
  b ← rd shapeBuffer (wrap32 (byteIdx + h * pitch));
  let xorBit := Z.land (Z.shiftr b bitIdx) 1 in
  let destIdx := (y * w + x) * 4 in
  if (andBit =? 0) && (xorBit =? 0) then wr4 buf destIdx 0 0 0 255
  else if (andBit =? 0) && (xorBit =? 1) then wr4 buf destIdx 255 255 255 255
  else if (andBit =? 1) && (xorBit =? 0) then wr4 buf destIdx 0 0 0 0
  else wr4 buf destIdx 255 255 255 128.

(** The inner monochrome loop, over the pixels of row [y]. *)
Definition mono_row (shapeBuffer : list Z) (pitch w h : Z) (y : Z)
    (buf : list Z) : option (list Z) :=
  for_to w (mono_body shapeBuffer pitch w h y) buf.

(** [memcpy(dst + doff, src + soff, n)]. *)
Definition memcpy (dst : list Z) (doff : Z) (src : list Z) (soff n : Z)
  : option (list Z) :=
  for_to n (fun k d => v ← rd src (soff + k); wr d (doff + k) v) dst.

(** An [int] converted to [size_t] (64 bits): sign extension. *)
Definition to_size_t (z : Z) : Z := z mod 2 ^ 64.

(** Row of the colour branch:
    [memcpy(g_CursorBuffer + y * g_CursorWidth * 4,
            shapeBuffer + y * shapeInfo->Pitch, g_CursorWidth * 4)],
    the first and the last product in [int], the second in [UINT]. *)
Definition color_row (shapeBuffer : list Z) (pitch w : Z) (y : Z)
    (buf : list Z) : option (list Z) :=
  memcpy buf (to_int (to_int (y * w) * 4)) shapeBuffer (wrap32 (y * pitch))
    (to_size_t (to_int (w * 4))).

(** Body of the masked-colour loops at [(x, y)]. *)
Definition masked_body (shapeBuffer : list Z) (pitch w : Z) (y x : Z)
    (buf : list Z) : option (list Z) :=
  let srcIdx := to_int (y * pitch + x * 4) in
  let destIdx := (y * w + x) * 4 in
  mask ← rd shapeBuffer (srcIdx + 3);
  c0 ← rd shapeBuffer (srcIdx + 0);
  c1 ← rd shapeBuffer (srcIdx + 1);
  c2 ← rd shapeBuffer (srcIdx + 2);
  if mask =? 0 then wr4 buf destIdx c0 c1 c2 255
  else wr4 buf destIdx c0 c1 c2 128.

(** The inner masked-colour loop, over the pixels of row [y]. *)
Definition masked_row (shapeBuffer : list Z) (pitch w : Z) (y : Z)
    (buf : list Z) : option (list Z) :=
  for_to w (masked_body shapeBuffer pitch w y) buf.

(** [UpdateCursorShape(shapeInfo, shapeBuffer)].  The old buffer is freed and
    the four scalars are overwritten before the shape type is looked at. *)
Definition UpdateCursorShape (shapeInfo : ShapeInfo) (shapeBuffer : list Z)
    (c : Cursor) : option Cursor :=
  let w := to_int (Width shapeInfo) in
  let h := to_int (Height shapeInfo) in
  let hx := HotSpot_x shapeInfo in
  let hy := HotSpot_y shapeInfo in
  let pitch := Pitch shapeInfo in
  let mk buf h' :=
    {| g_CursorBuffer := buf; g_CursorWidth := w; g_CursorHeight := h';
       g_CursorHotspotX := hx; g_CursorHotspotY := hy |} in
  if Type_ shapeInfo =? DXGI_OUTDUPL_POINTER_SHAPE_TYPE_MONOCHROME then
    let h := to_int (wrap32 (Height shapeInfo) / 2) in
    buf ← new_BYTE w h;
    buf ← for_to h (mono_row shapeBuffer pitch w h) buf;
    Some (mk (Some buf) h)
  else if Type_ shapeInfo =? DXGI_OUTDUPL_POINTER_SHAPE_TYPE_COLOR then
    buf ← new_BYTE w h;
    buf ← for_to h (color_row shapeBuffer pitch w) buf;
    Some (mk (Some buf) h)
  else if Type_ shapeInfo =? DXGI_OUTDUPL_POINTER_SHAPE_TYPE_MASKED_COLOR then
    buf ← new_BYTE w h;
    buf ← for_to h (masked_row shapeBuffer pitch w) buf;
    Some (mk (Some buf) h)
  else
    Some (mk None h).

(** ** Textures

    A mapped [ID3D11Texture2D] of format [B8G8R8A8_UNORM]: channel [c] of
    texel [(x, y)] is the byte at offset [y * RowPitch + 4 * x + c].
    [CopyResource] between two textures of one description copies [texels]. *)

Record Texture := {
  desc_Width : Z;
  desc_Height : Z;
  RowPitch : Z;
  texels : Z -> Z
}.

Definition with_texels (t : Texture) (d : Z -> Z) : Texture :=
  {| desc_Width := desc_Width t; desc_Height := desc_Height t;
     RowPitch := RowPitch t; texels := d |}.

(** Texel and channel stored at a byte offset, if any. *)
Definition locate (t : Texture) (i : Z) : option (Z * Z * Z) :=
  let y := i / RowPitch t in
  let r := i mod RowPitch t in
  if (0 <=? i) && (0 <? RowPitch t) && (y <? desc_Height t)
     && (r <? 4 * desc_Width t)
  then Some (r / 4, y, r mod 4) else None.

Definition upd4 (m : Z -> Z) (i b0 b1 b2 b3 : Z) : Z -> Z :=
  upd (upd (upd (upd m (i + 0) b0) (i + 1) b1) (i + 2) b2) (i + 3) b3.

(** ** Cursor compositing ([main_dxgi.cpp], [DrawCursorOnTexture]) *)

(** Body of the inner loop at cursor pixel [(x, y)], row [destY] already
    accepted. *)
Definition blend_body (cur : list Z) (cw : Z) (width pitch drawX : Z)
    (destY y x : Z) (destData : Z -> Z) : option (Z -> Z) :=
  let destX := drawX + x in
  if (destX <? 0) || (to_int width <=? destX) then Some destData
  else
    let srcIdx := (y * cw + x) * 4 in
    let destIdx := to_int (destY * pitch + destX * 4) in
    srcA ← rd cur (srcIdx + 3);
    if 0 <? srcA then
      srcB ← rd cur (srcIdx + 0);
      srcG ← rd cur (srcIdx + 1);
      srcR ← rd cur (srcIdx + 2);
      if srcA =? 255 then Some (upd4 destData destIdx srcB srcG srcR 255)
      else
        let destB := destData (destIdx + 0) in
        let destG := destData (destIdx + 1) in
        let destR := destData (destIdx + 2) in
        Some (upd4 destData destIdx
                (to_byte (Z.quot (srcB * srcA + destB * (255 - srcA)) 255))
                (to_byte (Z.quot (srcG * srcA + destG * (255 - srcA)) 255))
                (to_byte (Z.quot (srcR * srcA + destR * (255 - srcA)) 255))
                255)
    else Some destData.

(** Body of the outer loop at cursor row [y]. *)
Definition blend_row (cur : list Z) (cw : Z) (width height pitch : Z)
    (drawX drawY : Z) (y : Z) (destData : Z -> Z) : option (Z -> Z) :=
  let destY := drawY + y in
  if (destY <? 0) || (to_int height <=? destY) then Some destData
  else for_to cw (blend_body cur cw width pitch drawX destY y) destData.

(** [DrawCursorOnTexture(destTexture, cursorX, cursorY)].  [create_ok] and
    [map_ok] are the outcomes of [CreateTexture2D] and [Map] on the staging
    copy. *)
Definition DrawCursorOnTexture (create_ok map_ok : bool) (c : Cursor)
    (destTexture : Texture) (cursorX cursorY : Z) : option Texture :=
  match g_CursorBuffer c with
  | None => Some destTexture
  | Some cur =>
    if (g_CursorWidth c =? 0) || (g_CursorHeight c =? 0) then Some destTexture
    else
      let drawX := cursorX - g_CursorHotspotX c in
      let drawY := cursorY - g_CursorHotspotY c in
      if negb create_ok then Some destTexture
      else if negb map_ok then Some destTexture
      else
        destData ←
          for_to (g_CursorHeight c)
            (blend_row cur (g_CursorWidth c) (desc_Width destTexture)
               (desc_Height destTexture) (RowPitch destTexture) drawX drawY)
            (texels destTexture);
        Some (with_texels destTexture destData)
  end.

(** ** Desktop duplication with a scaling shader ([main_dxgi.cpp]) *)

Module DXGI.

Definition SOURCE_WIDTH : Z := 1920.
Definition SOURCE_HEIGHT : Z := 1080.
Definition RENDER_WIDTH : Z := 1440.
Definition RENDER_HEIGHT : Z := 1080.
Definition OUTPUT_WIDTH : Z := 1920.
Definition OUTPUT_HEIGHT : Z := 1080.
Definition FIRST_MONITOR_X : Z := 0.
Definition FIRST_MONITOR_Y : Z := 0.

(** What the program does to the outside world, in order. *)
Inductive Event :=
| DuplRelease                      (* g_DeskDupl->Release() *)
| DuplInit (ok : bool)             (* InitDesktopDuplication() and its result *)
| FrameRelease                     (* g_DeskDupl->ReleaseFrame() *)
| Present (frame : Z -> Z)         (* g_SwapChain->Present(1, 0) *)
| MessageBox                       (* MessageBoxA(..., "Error", ...) *)
| CleanupAll.                      (* Cleanup() *)

(** Result of [GetFramePointerShape] when [PointerShapeBufferSize > 0]. *)
Inductive Shape :=
| NoShape                                   (* PointerShapeBufferSize == 0 *)
| ShapeFailed                               (* FAILED(hr) *)
| ShapeOk (shapeInfo : ShapeInfo) (shapeBuffer : list Z).

(** Result of [AcquireNextFrame(0, ...)].  [desktop] is the image behind the
    acquired resource when [QueryInterface] succeeds. *)
Inductive Acquire :=
| WAIT_TIMEOUT
| Acquired (desktop : option (Z -> Z)) (shape : Shape)
| ACCESS_LOST
| OtherFailure.

(** Where [InitDesktopDuplication] stops.  [fresh] is the content of the
    newly created staging texture. *)
Inductive InitResult :=
| DuplicateFailed                  (* a step up to DuplicateOutput fails *)
| ResourceFailed (fresh : Z -> Z)  (* a later resource creation fails *)
| InitOk (fresh : Z -> Z).

(** Inputs of one call of [CaptureAndRender]. *)
Record Tick := {
  acquire : Acquire;
  init_dupl : InitResult;
  cursor_pos : option (Z * Z);     (* GetCursorPos *)
  create_ok : bool;                (* CreateTexture2D in DrawCursorOnTexture *)
  map_ok : bool                    (* Map in DrawCursorOnTexture *)
}.

(** Whether the call decodes a pointer shape. *)
Definition decodes_shape (e : Tick) : bool :=
  match acquire e with
  | Acquired _ (ShapeOk _ _) => true
  | _ => false
  end.

Record State := {
  g_Running : bool;
  g_DeskDupl : option unit;
  g_StagingTexture : Z -> Z;
  g_BackBuffer : Texture;
  cursor : Cursor;
  events : list Event
}.

Definition set_dupl (d : option unit) (s : State) : State :=
  {| g_Running := g_Running s; g_DeskDupl := d;
     g_StagingTexture := g_StagingTexture s; g_BackBuffer := g_BackBuffer s;
     cursor := cursor s; events := events s |}.

Definition set_staging (t : Z -> Z) (s : State) : State :=
  {| g_Running := g_Running s; g_DeskDupl := g_DeskDupl s;
     g_StagingTexture := t; g_BackBuffer := g_BackBuffer s;
     cursor := cursor s; events := events s |}.

Definition set_back (b : Texture) (s : State) : State :=
  {| g_Running := g_Running s; g_DeskDupl := g_DeskDupl s;
     g_StagingTexture := g_StagingTexture s; g_BackBuffer := b;
     cursor := cursor s; events := events s |}.

Definition set_cursor (c : Cursor) (s : State) : State :=
  {| g_Running := g_Running s; g_DeskDupl := g_DeskDupl s;
     g_StagingTexture := g_StagingTexture s; g_BackBuffer := g_BackBuffer s;
     cursor := c; events := events s |}.

Definition set_running (r : bool) (s : State) : State :=
  {| g_Running := r; g_DeskDupl := g_DeskDupl s;
     g_StagingTexture := g_StagingTexture s; g_BackBuffer := g_BackBuffer s;
     cursor := cursor s; events := events s |}.

Definition emit (e : Event) (s : State) : State :=
  {| g_Running := g_Running s; g_DeskDupl := g_DeskDupl s;
     g_StagingTexture := g_StagingTexture s; g_BackBuffer := g_BackBuffer s;
     cursor := cursor s; events := events s ++ [e] |}.

(** [InitDesktopDuplication()]: the new state and the returned [bool]. *)
Definition InitDesktopDuplication (r : InitResult) (s : State) : State * bool :=
  match r with
  | DuplicateFailed => (emit (DuplInit false) s, false)
  | ResourceFailed fresh =>
      (emit (DuplInit false) (set_staging fresh (set_dupl (Some tt) s)), false)
  | InitOk fresh =>
      (emit (DuplInit true) (set_staging fresh (set_dupl (Some tt) s)), true)
  end.

Section Pipeline.

(** [sample src x y c]: channel [c] of [desktopTex.Sample(samplerState,
    scaledUV)] at the centre of output pixel [(x, y)], as stored in the
    render target.  The filter ([D3D11_FILTER_MIN_MAG_MIP_LINEAR]) runs on the
    GPU. *)
Variable sample : (Z -> Z) -> Z -> Z -> Z -> Z.

(** The pixel shader [PS] at output pixel [(x, y)]: the interpolated
    [tex.x] is [(x + 0.5) / OUTPUT_WIDTH], compared with [0.75]. *)
Definition PS (src : Z -> Z) (x y c : Z) : Z :=
  if 4 * (2 * x + 1) <=? 3 * (2 * OUTPUT_WIDTH)
  then sample src x y c
  else if c =? 3 then 255 else 0.

(** [ClearRenderTargetView(g_RenderTargetView, {0, 0, 0, 1})]. *)
Definition ClearRenderTargetView (t : Texture) : Texture :=
  with_texels t (fun i =>
    match locate t i with
    | Some (_, _, c) => if c =? 3 then 255 else 0
    | None => texels t i
    end).

(** [Draw(4, 0)] of the full-screen quad with [PS] bound. *)
Definition Draw (src : Z -> Z) (t : Texture) : Texture :=
  with_texels t (fun i =>
    match locate t i with
    | Some (x, y, c) => PS src x y c
    | None => texels t i
    end).

(** The render target after the clear and the quad, before the cursor. *)
Definition rendered (src : Z -> Z) (bb : Texture) : Texture :=
  Draw src (ClearRenderTargetView bb).

(** The part of [CaptureAndRender] after the acquisition: clear, draw the
    quad, draw the cursor at the live position, present. *)
Definition render_and_present (e : Tick) (s : State) : option State :=
  let bb := rendered (g_StagingTexture s) (g_BackBuffer s) in
  bb ←
    match cursor_pos e with
    | Some (px, py) =>
        let cursorX := px - FIRST_MONITOR_X in
        let cursorY := py - FIRST_MONITOR_Y in
        if (0 <=? cursorX) && (cursorX <? SOURCE_WIDTH)
           && (0 <=? cursorY) && (cursorY <? SOURCE_HEIGHT)
        then
          match g_CursorBuffer (cursor s) with
          | Some _ =>
              let scaledCursorX :=
                Z.quot (cursorX * RENDER_WIDTH) SOURCE_WIDTH in
              let scaledCursorY := cursorY in
              DrawCursorOnTexture (create_ok e) (map_ok e) (cursor s) bb
                scaledCursorX scaledCursorY
          | None => Some bb
          end
        else Some bb
    | None => Some bb
    end;
  Some (emit (Present (texels bb)) (set_back bb s)).

(** [CaptureAndRender()].  [None]: the call dereferences a null
    [g_DeskDupl] or reads outside the shape buffer. *)
Definition CaptureAndRender (e : Tick) (s : State) : option State :=
  _ ← g_DeskDupl s;
  match acquire e with
  | WAIT_TIMEOUT => render_and_present e s
  | Acquired desktop shape =>
      let s := match desktop with
               | Some d => set_staging d s
               | None => s
               end in
      s ← match shape with
          | ShapeOk shapeInfo shapeBuffer =>
              c ← UpdateCursorShape shapeInfo shapeBuffer (cursor s);
              Some (set_cursor c s)
          | _ => Some s
          end;
      render_and_present e (emit FrameRelease s)
  | ACCESS_LOST =>
      let s := set_dupl None (emit DuplRelease s) in
      Some (fst (InitDesktopDuplication (init_dupl e) s))
  | OtherFailure => render_and_present e s
  end.

(** Messages drained by [PeekMessageA] at the top of an iteration. *)
Inductive Msg := WM_QUIT | WM_HOTKEY (wParam : Z) | OtherMsg.

(** The inner [while (PeekMessageA(...))] loop. *)
Fixpoint pump (msgs : list Msg) (s : State) : State :=
  match msgs with
  | [] => s
  | WM_QUIT :: _ => set_running false s
  | WM_HOTKEY w :: rest =>
      if w =? 1 then set_running false s else pump rest s
  | OtherMsg :: rest => pump rest s
  end.

(** One iteration of [while (g_Running)] in [WinMain], without the pacing. *)
Definition iteration (msgs : list Msg) (e : Tick) (s : State) : option State :=
  let s := pump msgs s in
  if g_Running s then CaptureAndRender e s else Some s.

(** Iterations of the loop over a list of inputs; the loop is left when
    [g_Running] is cleared. *)
Fixpoint run (inputs : list (list Msg * Tick)) (s : State) : option State :=
  match inputs with
  | [] => Some s
  | (msgs, e) :: rest =>
      if g_Running s then s' ← iteration msgs e s; run rest s' else Some s
  end.

End Pipeline.

(** Start-up in [WinMain], from [InitDesktopDuplication] on: a failure is
    reported with a message box and the program returns 1 without entering
    the loop. *)
Definition startup (r : InitResult) (shaders_ok : bool) (s : State)
  : State + State :=
  let (s, ok) := InitDesktopDuplication r s in
  if negb ok then inr (emit CleanupAll (emit MessageBox s))
  else if negb shaders_ok then inr (emit CleanupAll (emit MessageBox s))
  else inl s.

End DXGI.

(** ** Synchronous blit with GDI ([main_gdi.cpp]) *)

Module GDI.

Definition SOURCE_WIDTH : Z := 1920.
Definition SOURCE_HEIGHT : Z := 1080.
Definition RENDER_WIDTH : Z := 1440.
Definition RENDER_HEIGHT : Z := 1080.
Definition OUTPUT_WIDTH : Z := 1920.
Definition OUTPUT_HEIGHT : Z := 1080.
Definition FIRST_MONITOR_X : Z := 0.
Definition FIRST_MONITOR_Y : Z := 0.
Definition CURSOR_SHOWING : Z := 1.

(** Opaque black as written by [InitGDI]: [0xFF000000]. *)
Definition OPAQUE_BLACK : Z := 4278190080.

Inductive Event :=
| HideWindow                       (* SetWindowPos(..., SWP_HIDEWINDOW ...) *)
| ShowWindow                       (* SetWindowPos(..., SWP_SHOWWINDOW ...) *)
| Present (bits : Z -> Z).         (* BitBlt(g_hdcWindow, ...) *)

(** [CURSORINFO] as filled by [GetCursorInfo]. *)
Record CURSORINFO := {
  flags : Z;
  hCursor : Z;
  ptScreenPos_x : Z;
  ptScreenPos_y : Z
}.

(** Inputs of one call of [CaptureAndRender]. *)
Record Tick := {
  screen : Z -> Z -> Z;              (* the desktop behind g_hdcScreen *)
  cursor_info : option CURSORINFO;   (* GetCursorInfo *)
  icon_info : option (Z * Z);        (* GetIconInfo: xHotspot, yHotspot *)
  frame_info : option (Z * Z);       (* GetCursorFrameInfo(.., 0, ..): rate, steps *)
  anim_frame : Z                     (* GetCursorFrameInfo(.., animStep, ..) *)
}.

(** The DIB section is an array of [DWORD]s; pixel [(x, y)] is
    [pixels[y * OUTPUT_WIDTH + x]]. *)
Record State := {
  g_pBitmapBits : Z -> Z;
  g_UseExcludeFromCapture : bool;
  g_lastCursor : Z;
  g_cachedHotspotX : Z;
  g_cachedHotspotY : Z;
  g_cursorFrameCount : Z;
  g_cursorFrameRate : Z;
  events : list Event
}.

Definition set_bits (b : Z -> Z) (s : State) : State :=
  {| g_pBitmapBits := b;
     g_UseExcludeFromCapture := g_UseExcludeFromCapture s;
     g_lastCursor := g_lastCursor s;
     g_cachedHotspotX := g_cachedHotspotX s;
     g_cachedHotspotY := g_cachedHotspotY s;
     g_cursorFrameCount := g_cursorFrameCount s;
     g_cursorFrameRate := g_cursorFrameRate s; events := events s |}.

Definition emit (e : Event) (s : State) : State :=
  {| g_pBitmapBits := g_pBitmapBits s;
     g_UseExcludeFromCapture := g_UseExcludeFromCapture s;
     g_lastCursor := g_lastCursor s;
     g_cachedHotspotX := g_cachedHotspotX s;
     g_cachedHotspotY := g_cachedHotspotY s;
     g_cursorFrameCount := g_cursorFrameCount s;
     g_cursorFrameRate := g_cursorFrameRate s; events := events s ++ [e] |}.

(** The cursor cache refreshed when [ci.hCursor != g_lastCursor]. *)
Definition cache_cursor (e : Tick) (ci : CURSORINFO) (s : State) : State :=
  if hCursor ci =? g_lastCursor s then s
  else
    let (hx, hy) := match icon_info e with
                    | Some (x, y) => (x, y)
                    | None => (g_cachedHotspotX s, g_cachedHotspotY s)
                    end in
    let (rate, steps) := match frame_info e with
                         | Some (r, n) => (r, n)
                         | None => (g_cursorFrameRate s, g_cursorFrameCount s)
                         end in
    {| g_pBitmapBits := g_pBitmapBits s;
       g_UseExcludeFromCapture := g_UseExcludeFromCapture s;
       g_lastCursor := hCursor ci;
       g_cachedHotspotX := hx; g_cachedHotspotY := hy;
       g_cursorFrameCount := steps; g_cursorFrameRate := rate;
       events := events s |}.

(** [(int)d] for a [double] whose integer part is [z]: the conversion
    truncates, and a value outside the [int] range converts to [INT_MIN]
    (the result of the x86 conversion instruction [cvttsd2si]). *)
Definition cast_int (z : Z) : Z := if int_ok z then z else - 2 ^ 31.

(** [(int)(v * scale)] for [scale = (double)num / den] and a 32-bit [v]
    ([LONG] or [DWORD]).  With the constants of this program the scales are
    0.75 and 1.0; both and their products with 32-bit integers are exact in
    [double], so the cast sees the exact quotient and truncates it towards
    zero. *)
Definition scaled (v num den : Z) : Z := cast_int (Z.quot (v * num) den).

(** The pre-fill loop of [InitGDI]:
    [for (int i = 0; i < totalPixels; i++) pixels[i] = 0xFF000000]. *)
Fixpoint fill_loop (n : nat) (i : Z) (pixels : Z -> Z) : Z -> Z :=
  match n with
  | O => pixels
  | S n' => fill_loop n' (i + 1) (upd pixels i OPAQUE_BLACK)
  end.

(** [InitGDI()] on its successful path; [bits] is the memory returned by
    [CreateDIBSection]. *)
Definition InitGDI (exclude : bool) (bits : Z -> Z) : State :=
  {| g_pBitmapBits :=
       fill_loop (Z.to_nat (OUTPUT_WIDTH * OUTPUT_HEIGHT)) 0 bits;
     g_UseExcludeFromCapture := exclude;
     g_lastCursor := 0; g_cachedHotspotX := 0; g_cachedHotspotY := 0;
     g_cursorFrameCount := 0; g_cursorFrameRate := 0; events := [] |}.

(** Pixels of the DIB inside the rectangle [0, 0, w, h]. *)
Definition in_rect (w h : Z) (i : Z) : bool :=
  (0 <=? i) && (i mod OUTPUT_WIDTH <? w) && (i / OUTPUT_WIDTH <? h).

(** The frame of an animated cursor chosen in [CaptureAndRender], in
    [DWORD] arithmetic: [frameTime = (g_cursorFrameRate * 1000) / 60], replaced
    by 60 when that is 0. *)
Definition frameTime (rate : Z) : Z :=
  let t := wrap32 (rate * 1000) / 60 in
  if t =? 0 then 60 else t.

(** [animStep = (GetTickCount() / frameTime) % g_cursorFrameCount]. *)
Definition animStep (tickCount rate count : Z) : Z :=
  (tickCount / frameTime rate) mod count.

Section Pipeline.

(** [stretched scr x y]: the pixel GDI computes for destination [(x, y)]
    when it stretches the source rectangle of [scr] in [HALFTONE] mode. *)
Variable stretched : (Z -> Z -> Z) -> Z -> Z -> Z.

(** [icon h bits cx cy x y]: the pixel at [(x, y)] after the cursor [h] is
    drawn at [(cx, cy)] over [bits]. *)
Variable icon : Z -> (Z -> Z) -> Z -> Z -> Z -> Z -> Z.

(** [StretchBlt(g_hdcMemory, 0, 0, RENDER_WIDTH, RENDER_HEIGHT, g_hdcScreen,
    ...)]: GDI writes the destination rectangle only. *)
Definition StretchBlt (scr : Z -> Z -> Z) (bits : Z -> Z) : Z -> Z :=
  fun i =>
    if in_rect RENDER_WIDTH RENDER_HEIGHT i
    then stretched scr (i mod OUTPUT_WIDTH) (i / OUTPUT_WIDTH)
    else bits i.

(** [DrawIconEx(g_hdcMemory, cursorX, cursorY, hCursorToDraw, ...)] with
    [g_hClipRgn = CreateRectRgn(0, 0, RENDER_WIDTH, RENDER_HEIGHT)] selected:
    GDI writes inside the clipping region only. *)
Definition DrawIconEx (h cursorX cursorY : Z) (bits : Z -> Z) : Z -> Z :=
  fun i =>
    if in_rect RENDER_WIDTH RENDER_HEIGHT i
    then icon h bits cursorX cursorY (i mod OUTPUT_WIDTH) (i / OUTPUT_WIDTH)
    else bits i.

(** Destination of the cursor in [CaptureAndRender]: the difference of the
    two casts, in [int]. *)
Definition cursorX (ci : CURSORINFO) (s : State) : Z :=
  to_int
    (scaled (ptScreenPos_x ci - FIRST_MONITOR_X) RENDER_WIDTH SOURCE_WIDTH
     - scaled (g_cachedHotspotX s) RENDER_WIDTH SOURCE_WIDTH).

Definition cursorY (ci : CURSORINFO) (s : State) : Z :=
  to_int
    (scaled (ptScreenPos_y ci - FIRST_MONITOR_Y) RENDER_HEIGHT SOURCE_HEIGHT
     - scaled (g_cachedHotspotY s) RENDER_HEIGHT SOURCE_HEIGHT).

(** The cursor part of [CaptureAndRender]. *)
Definition draw_cursor (e : Tick) (s : State) : State :=
  match cursor_info e with
  | Some ci =>
      if Z.land (flags ci) CURSOR_SHOWING =? 0 then s
      else
        let s := cache_cursor e ci s in
        let hotspotX := ptScreenPos_x ci - FIRST_MONITOR_X in
        let hotspotY := ptScreenPos_y ci - FIRST_MONITOR_Y in
        if (0 <=? hotspotX) && (hotspotX <? SOURCE_WIDTH)
           && (0 <=? hotspotY) && (hotspotY <? SOURCE_HEIGHT)
        then
          let hCursorToDraw :=
            match frame_info e with
            | Some _ =>
                if (1 <? g_cursorFrameCount s) && (0 <? g_cursorFrameRate s)
                then if anim_frame e =? 0 then hCursor ci else anim_frame e
                else hCursor ci
            | None => hCursor ci
            end in
          set_bits (DrawIconEx hCursorToDraw (cursorX ci s) (cursorY ci s)
                      (g_pBitmapBits s)) s
        else s
  | None => s
  end.

(** [CaptureAndRender()]. *)
Definition CaptureAndRender (e : Tick) (s : State) : State :=
  let s := if g_UseExcludeFromCapture s then s else emit HideWindow s in
  let s := set_bits (StretchBlt (screen e) (g_pBitmapBits s)) s in
  let s := draw_cursor e s in
  let s := if g_UseExcludeFromCapture s then s else emit ShowWindow s in
  emit (Present (g_pBitmapBits s)) s.

(** [n] ticks, one input each. *)
Fixpoint ticks (inputs : list Tick) (s : State) : State :=
  match inputs with
  | [] => s
  | e :: rest => ticks rest (CaptureAndRender e s)
  end.

End Pipeline.

End GDI.

(** ** Desktop duplication with a region copy ([main.cpp]) *)

Module Dupl.

Definition SOURCE_WIDTH : Z := 1920.
Definition SOURCE_HEIGHT : Z := 1080.
Definition RENDER_WIDTH : Z := 1440.
Definition RENDER_HEIGHT : Z := 1080.
Definition OUTPUT_WIDTH : Z := 1920.
Definition OUTPUT_HEIGHT : Z := 1080.

Inductive Event :=
| FrameRelease                     (* g_DeskDupl->ReleaseFrame() *)
| Present (frame : Texture).       (* g_SwapChain->Present(1, 0) *)

(** Result of [AcquireNextFrame(16, ...)]; [desktop] is the acquired image
    when [QueryInterface] succeeds. *)
Inductive Acquire :=
| WAIT_TIMEOUT
| Failed
| Acquired (desktop : option Texture).

Record State := {
  g_CompositeTexture : Texture;
  g_BackBuffer : Texture;
  events : list Event
}.

Definition texel (t : Texture) (x y c : Z) : Z :=
  texels t (y * RowPitch t + 4 * x + c).

(** [CopyResource(dst, src)]. *)
Definition CopyResource (dst src : Texture) : Texture :=
  with_texels dst (fun i =>
    match locate dst i with
    | Some (x, y, c) => texel src x y c
    | None => texels dst i
    end).

(** [CopySubresourceRegion(dst, 0, 0, 0, 0, src, 0, &box)] with
    [box = {0, 0, 0, right, bottom, 1}]: a 1:1 copy of the box. *)
Definition CopySubresourceRegion (dst src : Texture) (right bottom : Z)
  : Texture :=
  with_texels dst (fun i =>
    match locate dst i with
    | Some (x, y, c) =>
        if (x <? right) && (y <? bottom) then texel src x y c
        else texels dst i
    | None => texels dst i
    end).

Definition present (s : State) : State :=
  let bb := CopyResource (g_BackBuffer s) (g_CompositeTexture s) in
  {| g_CompositeTexture := g_CompositeTexture s; g_BackBuffer := bb;
     events := events s ++ [Present bb] |}.

(** [RenderFrame()]. *)
Definition RenderFrame (a : Acquire) (s : State) : State :=
  match a with
  | WAIT_TIMEOUT => present s
  | Failed => present s
  | Acquired desktop =>
      let comp :=
        match desktop with
        | Some d =>
            CopySubresourceRegion (g_CompositeTexture s) d
              RENDER_WIDTH RENDER_HEIGHT
        | None => g_CompositeTexture s
        end in
      present {| g_CompositeTexture := comp; g_BackBuffer := g_BackBuffer s;
                 events := events s ++ [FrameRelease] |}
  end.

(** The initial data of the composite texture in [InitD3D]:
    [new BYTE[imageSize]], [memset] to 0, then the alpha byte of every pixel
    set to 255 at [offset + 3] with [offset = y * rowPitch + x * 4] in
    [UINT]. *)
Definition black_pixel (rowPitch : Z) (y x : Z) (blackPixels : list Z)
  : option (list Z) :=
  let offset := wrap32 (y * rowPitch + x * 4) in
  wr blackPixels (wrap32 (offset + 3)) 255.

Definition blackPixels (width height : Z) : option (list Z) :=
  let rowPitch := wrap32 (width * 4) in
  let imageSize := wrap32 (rowPitch * height) in
  for_to height (fun y => for_to width (black_pixel rowPitch y))
    (replicate (Z.to_nat imageSize) 0).

(** [g_CompositeTexture] as [InitD3D] creates it from that data
    ([SysMemPitch = rowPitch]). *)
Definition initial_composite : option Texture :=
  pixels ← blackPixels OUTPUT_WIDTH OUTPUT_HEIGHT;
  Some {| desc_Width := OUTPUT_WIDTH; desc_Height := OUTPUT_HEIGHT;
          RowPitch := wrap32 (OUTPUT_WIDTH * 4); texels := cell pixels |}.

(** Calls of [RenderFrame], one acquisition result each. *)
Fixpoint frames (inputs : list Acquire) (s : State) : State :=
  match inputs with
  | [] => s
  | a :: rest => frames rest (RenderFrame a s)
  end.

End Dupl.

(** ** Frame pacing (the [WinMain] loops of [main_gdi.cpp], [main_dxgi.cpp]
    and [main_magnifier.cpp]) *)

Module Pacer.

Definition TARGET_FPS : Z := 60.
Definition FRAME_TIME_MS : Z := Z.quot 1000 TARGET_FPS.

(** *** Binary64 arithmetic

    A finite [double] is the rational it denotes.  Every operation of the
    source on [double]s is the exact operation followed by [RN], the
    rounding of IEEE 754 to the nearest binary64 number, ties to even: 53
    significant bits, least exponent [-1074].  The values met here stay far
    below [2 ^ 1024], so overflow to an infinity is not part of [RN]. *)

(** [2 ^ k] for an integer [k]. *)
Definition pow2 (k : Z) : Q :=
  if 0 <=? k then inject_Z (2 ^ k) else 1 # Z.to_pos (2 ^ (- k)).

(** The nearest integer, ties to even. *)
Definition round_even (x : Q) : Z :=
  let f := Qfloor x in
  match Qcompare (x - inject_Z f) (1 # 2) with
  | Lt => f
  | Gt => f + 1
  | Eq => if Z.even f then f else f + 1
  end.

(** The binary exponent [e] of [x <> 0]: [2 ^ e <= |x| < 2 ^ (e + 1)]. *)
Definition ilog2 (x : Q) : Z :=
  let n := Z.abs (Qnum x) in
  let e := Z.log2 n - Z.log2 (Zpos (Qden x)) in
  if Qle_bool (pow2 e) (n # Qden x) then e else e - 1.

(** Rounding to the nearest binary64 number: a multiple of [2 ^ k] with
    [k = max (ilog2 x - 52) (-1074)]. *)
Definition RN (x : Q) : Q :=
  let x := Qred x in
  if Qeq_bool x 0 then 0
  else
    let k := Z.max (ilog2 x - 52) (- 1074) in
    Qred (inject_Z (round_even (x / pow2 k)) * pow2 k).

(** A [double]: finite, an infinity or not a number. *)
Inductive double := Finite (q : Q) | Infinity (negative : bool) | NaN.

(** The difference of two [LONGLONG]s. *)
Definition to_int64 (z : Z) : Z :=
  let w := z mod 2 ^ 64 in if w <? 2 ^ 63 then w else w - 2 ^ 64.

(** [(double)z] for a [LONGLONG]. *)
Definition of_int64 (z : Z) : Q := RN (inject_Z z).

(** [elapsedMs = (double)(currentTime.QuadPart - lastTime.QuadPart) * 1000.0
    / frequency.QuadPart]: the conversion, the product and the quotient are
    rounded one after the other; a frequency of 0 gives an infinity or, for
    0 / 0, no number. *)
Definition elapsedMs (frequency lastTime currentTime : Z) : double :=
  let ticks := of_int64 (to_int64 (currentTime - lastTime)) in
  let ms := RN (ticks * 1000) in
  let f := of_int64 frequency in
  if Qeq_bool f 0 then
    match Qcompare ms 0 with
    | Gt => Infinity false
    | Lt => Infinity true
    | Eq => NaN
    end
  else Finite (RN (ms / f)).

(** [(DWORD)d]: the 64-bit conversion of x86-64 ([cvttsd2si]) truncates
    towards zero and the result is its low 32 bits; outside the 64-bit
    range, and for an infinity or no number, the instruction yields
    [0x8000000000000000], whose low 32 bits are 0. *)
Definition to_DWORD (d : double) : Z :=
  match d with
  | Finite q =>
      let t := Z.quot (Qnum q) (Zpos (Qden q)) in
      if (- 2 ^ 63 <=? t) && (t <? 2 ^ 63) then wrap32 t else 0
  | _ => 0
  end.

(** The pacing step,
    [if (elapsedMs < FRAME_TIME_MS) Sleep((DWORD)(FRAME_TIME_MS - elapsedMs))]:
    [Some ms] for [Sleep(ms)], [None] when [Sleep] is not called.  The
    [int] 16 converts exactly; the difference is rounded. *)
Definition pace (elapsed : double) : option Z :=
  match elapsed with
  | Finite e =>
      if Qlt_le_dec e (inject_Z FRAME_TIME_MS)
      then Some (to_DWORD (Finite (RN (inject_Z FRAME_TIME_MS - e))))
      else None
  | Infinity true => Some (to_DWORD (Infinity false))
  | Infinity false => None
  | NaN => None
  end.

End Pacer.

(** ** Hiding and restoring the shell ([main_dxgi.cpp],
    [HideWindowsShell], [ShowWindowsShell]) *)

Module Shell.

Definition SW_HIDE : Z := 0.
Definition SW_SHOW : Z := 5.

(** [ShowWindow(hWnd, nCmdShow)]. *)
Inductive Event := ShowWindow (hWnd nCmdShow : Z).

(** Window handles are integers, 0 for [nullptr]. *)
Record State := {
  g_hTaskbar : Z;
  g_hStartButton : Z;
  g_ShellHidden : bool;
  events : list Event
}.

(** What the three window searches of [HideWindowsShell] return. *)
Record Found := {
  tray : Z;        (* FindWindowA("Shell_TrayWnd", nullptr) *)
  start : Z;       (* FindWindowA("Button", "Start") *)
  start_ex : Z     (* FindWindowExA(nullptr, nullptr, "Button", "Start") *)
}.

Definition show (h cmd : Z) (evs : list Event) : list Event :=
  if h =? 0 then evs else evs ++ [ShowWindow h cmd].

(** [HideWindowsShell()]. *)
Definition HideWindowsShell (f : Found) (s : State) : State :=
  let hTaskbar := tray f in
  let evs := show hTaskbar SW_HIDE (events s) in
  let hStart := if start f =? 0 then start_ex f else start f in
  let evs := show hStart SW_HIDE evs in
  {| g_hTaskbar := hTaskbar; g_hStartButton := hStart;
     g_ShellHidden := true; events := evs |}.

(** [ShowWindowsShell()]. *)
Definition ShowWindowsShell (s : State) : State :=
  let evs := show (g_hTaskbar s) SW_SHOW (events s) in
  let evs := show (g_hStartButton s) SW_SHOW evs in
  {| g_hTaskbar := 0; g_hStartButton := 0;
     g_ShellHidden := false; events := evs |}.

End Shell.

(** ** DPI awareness bootstrap ([EnableDPIAwareness]) *)

Module DPI.

(** What the process finds.  A function pointer is [None] when
    [GetProcAddress] returns null and [Some r] when the function exists and
    its call succeeds ([r = true]) or not. *)
Record Env := {
  hUser32 : bool;                                 (* GetModuleHandleA("user32.dll") *)
  pSetProcessDpiAwarenessContext : option bool;
  hShcore : bool;                                 (* LoadLibraryA("shcore.dll") *)
  pSetProcessDpiAwareness : option bool;
  pSetProcessDPIAware : bool                      (* the pointer is not null *)
}.

Inductive Event :=
| SetContext (ok : bool)      (* SetProcessDpiAwarenessContext(...) *)
| LoadShcore                  (* LoadLibraryA returned a module *)
| SetAwareness (ok : bool)    (* SetProcessDpiAwareness(...) *)
| FreeShcore                  (* FreeLibrary(hShcore) *)
| SetAware.                   (* SetProcessDPIAware() *)

(** The last fallback. *)
Definition legacy (env : Env) : list Event :=
  if hUser32 env && pSetProcessDPIAware env then [SetAware] else [].

(** From [LoadLibraryA("shcore.dll")] on. *)
Definition from_shcore (env : Env) : list Event :=
  if hShcore env then
    match pSetProcessDpiAwareness env with
    | Some true => [LoadShcore; SetAwareness true; FreeShcore]
    | Some false => [LoadShcore; SetAwareness false; FreeShcore] ++ legacy env
    | None => [LoadShcore; FreeShcore] ++ legacy env
    end
  else legacy env.

(** [EnableDPIAwareness()]: the calls it makes, in order. *)
Definition EnableDPIAwareness (env : Env) : list Event :=
  if hUser32 env then
    match pSetProcessDpiAwarenessContext env with
    | Some true => [SetContext true]
    | Some false => SetContext false :: from_shcore env
    | None => from_shcore env
    end
  else from_shcore env.

End DPI.

(** ** Reference definitions of the specification

    These follow the wording of the specification; the theorems below
    compare them with the code. *)

(** The four pixels of the monochrome table, as four channel bytes. *)
Definition spec_mono_pixel (andBit xorBit : bool) : Z * Z * Z * Z :=
  match andBit, xorBit with
  | false, false => (0, 0, 0, 255)
  | false, true => (255, 255, 255, 255)
  | true, false => (0, 0, 0, 0)
  | true, true => (255, 255, 255, 128)
  end.

(** Bit [x] of row [y] of a 1-bpp mask starting at row [row0] of the
    payload, most significant bit first. *)
Definition mask_bit (shapeBuffer : list Z) (pitch row0 x y : Z) : bool :=
  Z.testbit (cell shapeBuffer ((row0 + y) * pitch + x / 8)) (7 - x mod 8).

(** The blend of the specification for one channel. *)
Definition spec_blend (src alpha dst : Z) : Z :=
  (src * alpha + dst * (255 - alpha)) / 255.

(** The destination pixel after a cursor pixel [src] is composited over
    [dst]: untouched for alpha 0, copied for alpha 255, blended otherwise,
    destination alpha forced to 255 whenever something is drawn. *)
Definition spec_blend_pixel (src dst : Z * Z * Z * Z) : Z * Z * Z * Z :=
  let '(s0, s1, s2, sa) := src in
  let '(d0, d1, d2, da) := dst in
  if sa =? 0 then dst
  else if sa =? 255 then (s0, s1, s2, 255)
  else (spec_blend s0 sa d0, spec_blend s1 sa d1, spec_blend s2 sa d2, 255).

(** The destination of the specification: translate, scale by
    [render / source], subtract the hotspot. *)
Definition spec_cursor_dest (pos origin render source hotspot : Z) : Z :=
  Z.quot ((pos - origin) * render) source - hotspot.

(** ** Observations and side conditions used in the statements *)

(** The four bytes of pixel [(x, y)] in a bitmap of width [w]. *)
Definition pixel_at (buf : list Z) (w x y : Z) : Z * Z * Z * Z :=
  let i := (y * w + x) * 4 in
  (cell buf i, cell buf (i + 1), cell buf (i + 2), cell buf (i + 3)).

(** What the masked-colour branch stores for pixel [(x, y)]: the three
    colour bytes of the payload pixel, and 255 or 128 as its mask byte is
    zero or not. *)
Definition masked_pixel (shapeBuffer : list Z) (pitch x y : Z)
  : Z * Z * Z * Z :=
  let i := y * pitch + 4 * x in
  (cell shapeBuffer i, cell shapeBuffer (i + 1), cell shapeBuffer (i + 2),
   if cell shapeBuffer (i + 3) =? 0 then 255 else 128).

(** The four bytes of texel [(X, Y)] in mapped texture memory. *)
Definition texel4 (m : Z -> Z) (pitch X Y : Z) : Z * Z * Z * Z :=
  let i := Y * pitch + 4 * X in (m i, m (i + 1), m (i + 2), m (i + 3)).

(** Offsets of the bytes of texel [(X, Y)]. *)
Definition texel_bytes (pitch X Y j : Z) : Prop :=
  Y * pitch + 4 * X <= j < Y * pitch + 4 * X + 4.

(** Offsets that the iteration of [DrawCursorOnTexture] for cursor pixel
    [(x, y)] may write: the bytes of its destination texel, if that lies
    inside the texture. *)
Definition blend_footprint (W H pitch drawX drawY y x j : Z) : Prop :=
  0 <= drawY + y < H /\ 0 <= drawX + x < W /\
  texel_bytes pitch (drawX + x) (drawY + y) j.

(** A texture whose extents and offsets fit the [int] arithmetic of
    [DrawCursorOnTexture] and whose rows do not overlap. *)
Definition canvas_wf (t : Texture) : Prop :=
  0 <= desc_Width t < 2 ^ 31 /\ 0 <= desc_Height t < 2 ^ 31 /\
  4 * desc_Width t <= RowPitch t /\ RowPitch t * desc_Height t < 2 ^ 31.

(** The render target has the output size. *)
Definition output_sized (t : Texture) : Prop :=
  desc_Width t = DXGI.OUTPUT_WIDTH /\ desc_Height t = DXGI.OUTPUT_HEIGHT.

(** Two textures of one description that hold the same bytes. *)
Definition same_image (t1 t2 : Texture) : Prop :=
  desc_Width t1 = desc_Width t2 /\ desc_Height t1 = desc_Height t2 /\
  RowPitch t1 = RowPitch t2 /\ forall j, texels t1 j = texels t2 j.

(** An array of [n] bytes. *)
Definition bytes_of_extent (n : Z) (p : list Z) : Prop :=
  Z.of_nat (length p) = n /\ Forall is_byte p.

(** The decoded buffer has the extent its width and height announce and
    holds bytes. *)
Definition cursor_wf (c : Cursor) : Prop :=
  match g_CursorBuffer c with
  | Some cur =>
      bytes_of_extent (g_CursorWidth c * g_CursorHeight c * 4) cur
  | None => True
  end.

(** The pad region of the 1920x1080 render target is opaque black. *)
Definition pad_black (pitch : Z) (m : Z -> Z) : Prop :=
  forall X Y,
    DXGI.RENDER_WIDTH <= X < DXGI.OUTPUT_WIDTH ->
    0 <= Y < DXGI.OUTPUT_HEIGHT ->
    texel4 m pitch X Y = (0, 0, 0, 255).

(** Every presented frame of an event list has a black pad region. *)
Definition presents_black_pad (pitch : Z) (evs : list DXGI.Event) : Prop :=
  Forall (fun ev => match ev with
                    | DXGI.Present f => pad_black pitch f
                    | _ => True
                    end) evs.

(** The bitmap drawn by this call ends at or before the right edge of the
    render region. *)
Definition clear_of_pad (e : DXGI.Tick) (c : Cursor) : Prop :=
  match DXGI.cursor_pos e with
  | Some (px, _) =>
      Z.quot ((px - DXGI.FIRST_MONITOR_X) * DXGI.RENDER_WIDTH)
        DXGI.SOURCE_WIDTH
      - g_CursorHotspotX c + g_CursorWidth c <= DXGI.RENDER_WIDTH
  | None => True
  end.

(** [clear_of_pad] at every iteration of a run. *)
Fixpoint clear_run (sample : (Z -> Z) -> Z -> Z -> Z -> Z)
    (inputs : list (list DXGI.Msg * DXGI.Tick)) (s : DXGI.State) : Prop :=
  match inputs with
  | [] => True
  | (msgs, e) :: rest =>
      match DXGI.iteration sample msgs e s with
      | Some s' => clear_of_pad e (DXGI.cursor s') /\ clear_run sample rest s'
      | None => True
      end
  end.

(** A pointer shape whose payload holds what its header declares, for the
    three known types; no condition on an unknown type. *)
Definition shape_fits (info : ShapeInfo) (payload : list Z) : Prop :=
  if Type_ info =? DXGI_OUTDUPL_POINTER_SHAPE_TYPE_MONOCHROME then
    0 <= Width info < 2 ^ 31 /\ 0 <= Height info < 2 ^ 32 /\
    (Width info + 7) / 8 <= Pitch info /\
    Pitch info * (2 * (Height info / 2)) <= Z.of_nat (length payload) /\
    Pitch info * (2 * (Height info / 2)) < 2 ^ 31 /\
    Width info * (Height info / 2) * 4 < 2 ^ 31
  else if (Type_ info =? DXGI_OUTDUPL_POINTER_SHAPE_TYPE_COLOR)
          || (Type_ info =? DXGI_OUTDUPL_POINTER_SHAPE_TYPE_MASKED_COLOR) then
    0 <= Width info < 2 ^ 31 /\ 0 <= Height info < 2 ^ 31 /\
    4 * Width info <= Pitch info /\
    Pitch info * Height info <= Z.of_nat (length payload) /\
    Pitch info * Height info < 2 ^ 31 /\
    Width info * Height info * 4 < 2 ^ 31
  else True.

(** A call whose pointer shape, if it carries one, fits and holds bytes, and
    which does not lose the duplication without getting it back. *)
Definition tick_ok (e : DXGI.Tick) : Prop :=
  match DXGI.acquire e with
  | DXGI.Acquired _ (DXGI.ShapeOk info payload) =>
      shape_fits info payload /\ Forall is_byte payload
  | DXGI.ACCESS_LOST => DXGI.init_dupl e <> DXGI.DuplicateFailed
  | _ => True
  end.

(** A message that ends the loop of [main_dxgi.cpp]. *)
Definition quits (m : DXGI.Msg) : bool :=
  match m with
  | DXGI.WM_QUIT => true
  | DXGI.WM_HOTKEY w => w =? 1
  | DXGI.OtherMsg => false
  end.

(** Occurrences of released frames and of presentations in an event list. *)
Definition releases (evs : list DXGI.Event) : nat :=
  length (List.filter (fun ev => match ev with
                            | DXGI.FrameRelease => true
                            | _ => false
                            end) evs).

Definition presents (evs : list DXGI.Event) : nat :=
  length (List.filter (fun ev => match ev with
                            | DXGI.Present _ => true
                            | _ => false
                            end) evs).

(** In the calls of [EnableDPIAwareness]: the library handle is balanced so
    far ([loaded] tells whether it is held), and nothing but [FreeLibrary]
    follows a setter that succeeded ([done]). *)
Fixpoint dpi_orderly (loaded done : bool) (evs : list DPI.Event) : bool :=
  match evs with
  | [] => negb loaded
  | DPI.LoadShcore :: rest =>
      negb loaded && negb done && dpi_orderly true done rest
  | DPI.FreeShcore :: rest => loaded && dpi_orderly false done rest
  | DPI.SetContext ok :: rest => negb done && dpi_orderly loaded ok rest
  | DPI.SetAwareness ok :: rest =>
      negb done && loaded && dpi_orderly loaded ok rest
  | DPI.SetAware :: rest =>
      negb done && negb loaded && dpi_orderly loaded true rest
  end.

(** In the events of [main_gdi.cpp]: the window is hidden and shown in
    turns ([hidden] tells whether it is hidden), never when it is excluded
    from capture, and it is shown whenever a frame is presented and at the
    end. *)
Fixpoint gdi_orderly (exclude hidden : bool) (evs : list GDI.Event) : bool :=
  match evs with
  | [] => negb hidden
  | GDI.HideWindow :: rest =>
      negb exclude && negb hidden && gdi_orderly exclude true rest
  | GDI.ShowWindow :: rest =>
      negb exclude && hidden && gdi_orderly exclude false rest
  | GDI.Present _ :: rest => negb hidden && gdi_orderly exclude false rest
  end.

(** The events of one call of [CaptureAndRender] in [main_gdi.cpp] that
    presents the bitmap [b]. *)
Definition gdi_call_events (exclude : bool) (b : Z -> Z) : list GDI.Event :=
  if exclude then [GDI.Present b]
  else [GDI.HideWindow; GDI.ShowWindow; GDI.Present b].

(** Presentations in an event list of [main_gdi.cpp]. *)
Definition gdi_presents (evs : list GDI.Event) : nat :=
  length (List.filter (fun ev => match ev with
                                 | GDI.Present _ => true
                                 | _ => false
                                 end) evs).

(** The cursor cache of [main_gdi.cpp]: the last handle seen, its hotspot
    and its animation data. *)
Definition gdi_cache (s : GDI.State) : Z * Z * Z * Z * Z :=
  (GDI.g_lastCursor s, GDI.g_cachedHotspotX s, GDI.g_cachedHotspotY s,
   GDI.g_cursorFrameCount s, GDI.g_cursorFrameRate s).

(** ** Concrete inputs used by the examples *)

(** The synthetic 2x2 monochrome shape of the specification's test: AND rows
    [00] and [11], XOR rows [01] and [01], one byte per mask row. *)
Definition mono2x2 : ShapeInfo :=
  {| Type_ := DXGI_OUTDUPL_POINTER_SHAPE_TYPE_MONOCHROME;
     Width := 2; Height := 4; Pitch := 1; HotSpot_x := 0; HotSpot_y := 0 |}.

Definition mono2x2_payload : list Z := [0; 192; 64; 64].

(** A pointer-shape header of a type the decoder does not know. *)
Definition unknown_shape : ShapeInfo :=
  {| Type_ := 8; Width := 1; Height := 1; Pitch := 4;
     HotSpot_x := 0; HotSpot_y := 0 |}.

(** A decoded 1x1 opaque white cursor. *)
Definition white_dot : Cursor :=
  {| g_CursorBuffer := Some [255; 255; 255; 255];
     g_CursorWidth := 1; g_CursorHeight := 1;
     g_CursorHotspotX := 0; g_CursorHotspotY := 0 |}.

(** A 1920x1080 render target with tightly packed rows, all zero. *)
Definition canvas0 : Texture :=
  {| desc_Width := 1920; desc_Height := 1080; RowPitch := 7680;
     texels := fun _ => 0 |}.

(** A stand-in for the GPU sampler when an example has to run: the source
    texel nearest to the scaled coordinate. *)
Definition nearest (src : Z -> Z) (x y c : Z) : Z :=
  to_byte (src (y * 7680 + 4 * Z.quot (x * 1920) 1440 + c)).

(** The state of [main_dxgi.cpp] when the loop is entered. *)
Definition dxgi_boot : DXGI.State :=
  {| DXGI.g_Running := true; DXGI.g_DeskDupl := Some tt;
     DXGI.g_StagingTexture := fun _ => 0; DXGI.g_BackBuffer := canvas0;
     DXGI.cursor := cursor_init; DXGI.events := [] |}.

(** A call that times out, with the pointer at [(px, py)]. *)
Definition timeout_tick (px py : Z) : DXGI.Tick :=
  {| DXGI.acquire := DXGI.WAIT_TIMEOUT;
     DXGI.init_dupl := DXGI.DuplicateFailed;
     DXGI.cursor_pos := Some (px, py);
     DXGI.create_ok := true; DXGI.map_ok := true |}.

(** A call that loses the duplication and cannot recreate it. *)
Definition lost_tick : DXGI.Tick :=
  {| DXGI.acquire := DXGI.ACCESS_LOST;
     DXGI.init_dupl := DXGI.DuplicateFailed;
     DXGI.cursor_pos := Some (0, 0);
     DXGI.create_ok := true; DXGI.map_ok := true |}.

(** A call that acquires a frame carrying a 2x1 opaque white colour cursor
    while the pointer is in the last source column: the pointer scales to
    x = 1439 and the second cursor pixel lands on column 1440. *)
Definition bleed_tick : DXGI.Tick :=
  {| DXGI.acquire :=
       DXGI.Acquired (Some (fun _ => 0))
         (DXGI.ShapeOk
            {| Type_ := DXGI_OUTDUPL_POINTER_SHAPE_TYPE_COLOR;
               Width := 2; Height := 1; Pitch := 8;
               HotSpot_x := 0; HotSpot_y := 0 |}
            [255; 255; 255; 255; 255; 255; 255; 255]);
     DXGI.init_dupl := DXGI.DuplicateFailed;
     DXGI.cursor_pos := Some (1919, 0);
     DXGI.create_ok := true; DXGI.map_ok := true |}.

(** A desktop image whose left three quarters are black and whose right
    quarter (columns 1440 to 1919) is white. *)
Definition split_frame : Texture :=
  {| desc_Width := 1920; desc_Height := 1080; RowPitch := 7680;
     texels := fun i => if 5760 <=? i mod 7680 then 255 else 0 |}.

(** The state of [main.cpp] when the loop is entered: the composite texture
    is opaque black. *)
Definition dupl_boot : Dupl.State :=
  {| Dupl.g_CompositeTexture :=
       with_texels canvas0 (fun i => if i mod 4 =? 3 then 255 else 0);
     Dupl.g_BackBuffer := canvas0; Dupl.events := [] |}.

(** The state of [main_gdi.cpp] when the loop is entered, with the buffer as
    [InitGDI] leaves it. *)
Definition gdi_idle : GDI.State :=
  {| GDI.g_pBitmapBits := fun _ => GDI.OPAQUE_BLACK;
     GDI.g_UseExcludeFromCapture := true;
     GDI.g_lastCursor := 0;
     GDI.g_cachedHotspotX := 0; GDI.g_cachedHotspotY := 0;
     GDI.g_cursorFrameCount := 0; GDI.g_cursorFrameRate := 0;
     GDI.events := [] |}.

(** A visible cursor at screen position [(px, py)]. *)
Definition arrow_at (px py : Z) : GDI.CURSORINFO :=
  {| GDI.flags := 1; GDI.hCursor := 65539;
     GDI.ptScreenPos_x := px; GDI.ptScreenPos_y := py |}.

(** A call that finds that cursor, with hotspot (10, 10). *)
Definition arrow_tick (px py : Z) : GDI.Tick :=
  {| GDI.screen := fun _ _ => 0;
     GDI.cursor_info := Some (arrow_at px py);
     GDI.icon_info := Some (10, 10);
     GDI.frame_info := None; GDI.anim_frame := 0 |}.

(** A 1x2 colour shape whose rows are 8 bytes apart, 4 of them padding. *)
Definition colour1x2 : ShapeInfo :=
  {| Type_ := DXGI_OUTDUPL_POINTER_SHAPE_TYPE_COLOR;
     Width := 1; Height := 2; Pitch := 8; HotSpot_x := 0; HotSpot_y := 1 |}.

(** The same geometry as a masked-colour shape. *)
Definition masked1x2 : ShapeInfo :=
  {| Type_ := DXGI_OUTDUPL_POINTER_SHAPE_TYPE_MASKED_COLOR;
     Width := 1; Height := 2; Pitch := 8; HotSpot_x := 0; HotSpot_y := 1 |}.

Definition rows1x2_payload : list Z :=
  [10; 20; 30; 0;  99; 99; 99; 99;
   40; 50; 60; 255;  99; 99; 99; 99].

(** A colour shape whose bitmap size, [2 ^ 30 * 1 * 4], is [2 ^ 32]. *)
Definition wide_colour : ShapeInfo :=
  {| Type_ := DXGI_OUTDUPL_POINTER_SHAPE_TYPE_COLOR;
     Width := 2 ^ 30; Height := 1; Pitch := 4;
     HotSpot_x := 0; HotSpot_y := 0 |}.

(** * Properties *)

(** ** Machine arithmetic and arrays *)

Lemma wrap32_small z : 0 <= z < 2 ^ 32 -> wrap32 z = z.
Proof. intros H. unfold wrap32. apply Z.mod_small. exact H. Qed.

Lemma to_int_small z : 0 <= z < 2 ^ 31 -> to_int z = z.
Proof.
  intros H. unfold to_int. rewrite wrap32_small by lia.
  destruct (Z.ltb_spec z (2 ^ 31)); lia.
Qed.

Lemma to_int_range z : - 2 ^ 31 <= z < 2 ^ 31 -> to_int z = z.
Proof.
  intros H. destruct (Z_le_dec 0 z); [apply to_int_small; lia|].
  unfold to_int, wrap32.
  replace (z mod 2 ^ 32) with (z + 2 ^ 32).
  - destruct (Z.ltb_spec (z + 2 ^ 32) (2 ^ 31)); lia.
  - apply (Z.mod_unique _ _ (-1)); lia.
Qed.

Lemma to_size_t_small z : 0 <= z < 2 ^ 64 -> to_size_t z = z.
Proof. intros H. unfold to_size_t. apply Z.mod_small. exact H. Qed.

Lemma rd_Some p i v : rd p i = Some v -> 0 <= i < Z.of_nat (length p).
Proof.
  unfold rd. destruct (Z.ltb_spec i 0); [discriminate|].
  intros H1. apply lookup_lt_Some in H1. lia.
Qed.

Lemma rd_in_range p i :
  0 <= i < Z.of_nat (length p) -> exists v, rd p i = Some v.
Proof.
  intros H. unfold rd. destruct (Z.ltb_spec i 0); [lia|].
  destruct (lookup_lt_is_Some_2 p (Z.to_nat i)) as [v Hv]; [lia|].
  exists v. exact Hv.
Qed.

Lemma rd_cell p i v : rd p i = Some v -> cell p i = v.
Proof. unfold cell. intros ->. reflexivity. Qed.

Lemma wr_in_range p i v :
  0 <= i < Z.of_nat (length p) -> exists p', wr p i v = Some p'.
Proof.
  intros H. unfold wr.
  destruct (Z.leb_spec 0 i); [|lia].
  destruct (Z.ltb_spec i (Z.of_nat (length p))); [|lia].
  eexists. reflexivity.
Qed.

Lemma wr_Some p i v p' :
  wr p i v = Some p' ->
  length p' = length p /\ 0 <= i < Z.of_nat (length p) /\ cell p' i = v /\
  forall j, j <> i -> cell p' j = cell p j.
Proof.
  unfold wr.
  destruct (Z.leb_spec 0 i); [|discriminate].
  destruct (Z.ltb_spec i (Z.of_nat (length p))); [|discriminate].
  simpl. intros [= <-]. rewrite length_insert.
  repeat split; try lia.
  - unfold cell, rd. destruct (Z.ltb_spec i 0); [lia|].
    rewrite list_lookup_insert_eq by lia. reflexivity.
  - intros j Hj. unfold cell, rd. destruct (Z.ltb_spec j 0); [reflexivity|].
    rewrite list_lookup_insert_ne by lia. reflexivity.
Qed.

Lemma wr4_Some p i b0 b1 b2 b3 p' :
  wr4 p i b0 b1 b2 b3 = Some p' ->
  length p' = length p /\
  cell p' i = b0 /\ cell p' (i + 1) = b1 /\
  cell p' (i + 2) = b2 /\ cell p' (i + 3) = b3 /\
  forall j, ~ (i <= j < i + 4) -> cell p' j = cell p j.
Proof.
  unfold wr4. intros H.
  destruct (wr p (i + 0) b0) as [p0|] eqn:E0; simpl in H; [|discriminate].
  destruct (wr p0 (i + 1) b1) as [p1|] eqn:E1; simpl in H; [|discriminate].
  destruct (wr p1 (i + 2) b2) as [p2|] eqn:E2; simpl in H; [|discriminate].
  apply wr_Some in E0 as (L0 & _ & V0 & F0).
  apply wr_Some in E1 as (L1 & _ & V1 & F1).
  apply wr_Some in E2 as (L2 & _ & V2 & F2).
  apply wr_Some in H as (L3 & _ & V3 & F3).
  replace (i + 0) with i in * by lia.
  repeat split.
  - congruence.
  - rewrite F3, F2, F1 by lia. exact V0.
  - rewrite F3, F2 by lia. exact V1.
  - rewrite F3 by lia. exact V2.
  - exact V3.
  - intros j Hj. rewrite F3, F2, F1, F0 by lia. reflexivity.
Qed.

Lemma wr4_in_range p i b0 b1 b2 b3 :
  0 <= i -> i + 4 <= Z.of_nat (length p) ->
  exists p', wr4 p i b0 b1 b2 b3 = Some p'.
Proof.
  intros H0 H4. unfold wr4.
  destruct (wr_in_range p (i + 0) b0) as [p0 E0]; [lia|].
  rewrite E0. simpl. apply wr_Some in E0 as (L0 & _).
  destruct (wr_in_range p0 (i + 1) b1) as [p1 E1]; [lia|].
  rewrite E1. simpl. apply wr_Some in E1 as (L1 & _).
  destruct (wr_in_range p1 (i + 2) b2) as [p2 E2]; [lia|].
  rewrite E2. simpl. apply wr_Some in E2 as (L2 & _).
  apply wr_in_range. lia.
Qed.

Lemma upd_same m i v : upd m i v i = v.
Proof. unfold upd. rewrite Z.eqb_refl. reflexivity. Qed.

Lemma upd_other m i v j : j <> i -> upd m i v j = m j.
Proof. unfold upd. intros H. destruct (Z.eqb_spec j i); [lia|reflexivity]. Qed.

Lemma upd4_outside m i b0 b1 b2 b3 j :
  ~ (i <= j < i + 4) -> upd4 m i b0 b1 b2 b3 j = m j.
Proof. intros H. unfold upd4. rewrite !upd_other by lia. reflexivity. Qed.

Lemma upd4_inside m i b0 b1 b2 b3 :
  upd4 m i b0 b1 b2 b3 i = b0 /\ upd4 m i b0 b1 b2 b3 (i + 1) = b1 /\
  upd4 m i b0 b1 b2 b3 (i + 2) = b2 /\ upd4 m i b0 b1 b2 b3 (i + 3) = b3.
Proof.
  unfold upd4. replace (i + 0) with i by lia. repeat split.
  - rewrite !upd_other by lia. apply upd_same.
  - rewrite !upd_other by lia. apply upd_same.
  - rewrite !upd_other by lia. apply upd_same.
  - apply upd_same.
Qed.

(** ** Loops whose iterations write disjoint cells *)

Section LoopTotal.

Context {S : Type} (body : Z -> S -> option S) (P : S -> Prop).

Lemma for_loop_total n lo s :
  (forall k s, lo <= k < lo + Z.of_nat n -> P s ->
     exists s', body k s = Some s' /\ P s') ->
  P s -> exists s', for_loop n lo body s = Some s' /\ P s'.
Proof.
  revert lo s. induction n as [|n IH]; intros lo s Hb Hs.
  - exists s. split; [reflexivity|exact Hs].
  - destruct (Hb lo s) as (s1 & E1 & P1); [lia|exact Hs|].
    simpl. rewrite E1. simpl. apply IH; [|exact P1].
    intros k s0 Hk. apply Hb. lia.
Qed.

End LoopTotal.

Section LoopFrame.

Context {S : Type} (get : S -> Z -> Z) (body : Z -> S -> option S).

(** [foot k i]: iteration [k] may change cell [i]. *)
Context (foot : Z -> Z -> Prop).

Hypothesis frame : forall k s s' i,
  body k s = Some s' -> ~ foot k i -> get s' i = get s i.

Lemma for_loop_frame n lo s s' i :
  for_loop n lo body s = Some s' ->
  (forall k, lo <= k < lo + Z.of_nat n -> ~ foot k i) ->
  get s' i = get s i.
Proof using frame.
  revert lo s. induction n as [|n IH]; intros lo s H Hf.
  - simpl in H. injection H as <-. reflexivity.
  - simpl in H. destruct (body lo s) as [s1|] eqn:E; [|discriminate].
    simpl in H. rewrite (IH _ _ H) by (intros k Hk; apply Hf; lia).
    apply (frame lo); [exact E|]. apply Hf. lia.
Qed.

(** The value left in a cell written by iteration [k] alone is the one
    iteration [k] stored, and iteration [k] started from a state that agrees
    with the initial one wherever earlier iterations do not write. *)
Lemma for_loop_value n lo s s' k i :
  for_loop n lo body s = Some s' ->
  lo <= k < lo + Z.of_nat n ->
  (forall k', lo <= k' < lo + Z.of_nat n -> k' <> k -> ~ foot k' i) ->
  exists s1 s2,
    body k s1 = Some s2 /\ get s' i = get s2 i /\
    forall j, (forall k', lo <= k' < k -> ~ foot k' j) -> get s1 j = get s j.
Proof using frame.
  revert lo s. induction n as [|n IH]; intros lo s H Hk Hf.
  - lia.
  - simpl in H. destruct (body lo s) as [s1|] eqn:E; [|discriminate].
    simpl in H. destruct (Z.eq_dec k lo) as [->|Hne].
    + exists s, s1. split; [exact E|]. split; [|reflexivity].
      apply (for_loop_frame _ _ _ _ _ H). intros k' Hk'. apply Hf; lia.
    + destruct (IH (lo + 1) s1 H) as (t1 & t2 & Eb & Ev & Ea); [lia| |].
      { intros k' Hk' Hn. apply Hf; lia. }
      exists t1, t2. split; [exact Eb|]. split; [exact Ev|].
      intros j Hj. rewrite Ea by (intros k' Hk'; apply Hj; lia).
      apply (frame lo); [exact E|]. apply Hj. lia.
Qed.

End LoopFrame.

Section LoopInv.

Context {S : Type} (body : Z -> S -> option S) (P : S -> Prop).

Hypothesis keeps : forall k s s', body k s = Some s' -> P s -> P s'.

Lemma for_loop_inv n lo s s' :
  for_loop n lo body s = Some s' -> P s -> P s'.
Proof using keeps.
  revert lo s. induction n as [|n IH]; intros lo s H Hs.
  - simpl in H. injection H as <-. exact Hs.
  - simpl in H.
    destruct (body lo s) as [s1|] eqn:E; simpl in H; [|discriminate].
    apply (IH _ _ H). apply (keeps _ _ _ E Hs).
Qed.

End LoopInv.

(** Case analysis on the first step of a computation in the error monad. *)
Tactic Notation "bind_case" hyp(H) "as" ident(a) ident(E) :=
  match type of H with
  | mbind _ ?m = Some _ =>
      destruct m as [a|] eqn:E; simpl in H; [|discriminate H]
  end.

(** ** Monochrome decode *)

Lemma land_shiftr_1 a n :
  0 <= n -> Z.land (Z.shiftr a n) 1 = Z.b2z (Z.testbit a n).
Proof.
  intros Hn. change 1 with (Z.ones 1). rewrite Z.land_ones by lia.
  change (2 ^ 1) with 2. rewrite <- Z.bit0_mod.
  rewrite Z.shiftr_spec by lia. reflexivity.
Qed.

Lemma mono_body_frame sb pitch w h y x buf buf' :
  mono_body sb pitch w h y x buf = Some buf' ->
  length buf' = length buf /\
  forall j, ~ ((y * w + x) * 4 <= j < (y * w + x) * 4 + 4) ->
            cell buf' j = cell buf j.
Proof.
  unfold mono_body. intros H.
  bind_case H as a Ea. bind_case H as b Eb.
  repeat match type of H with
         | (if ?c then _ else _) = _ => destruct c
         end;
    apply wr4_Some in H as (L & _ & _ & _ & _ & F); split; assumption.
Qed.

Lemma mono_body_value sb pitch w h y x buf buf' :
  mono_body sb pitch w h y x buf = Some buf' ->
  0 <= x < w -> 0 <= y < h -> (w + 7) / 8 <= pitch ->
  pitch * (2 * h) < 2 ^ 31 ->
  pixel_at buf' w x y =
    spec_mono_pixel (mask_bit sb pitch 0 x y) (mask_bit sb pitch h x y).
Proof.
  intros H Hx Hy Hp Hlen.
  assert (Hq : Z.quot x 8 = x / 8) by (apply Z.quot_div_nonneg; lia).
  assert (Hr : Z.rem x 8 = x mod 8) by (apply Z.rem_mod_nonneg; lia).
  assert (Hx8 : 0 <= x / 8 < pitch).
  { split; [apply Z.div_pos; lia|].
    apply Z.lt_le_trans with ((w + 7) / 8); [|exact Hp].
    apply Z.div_lt_upper_bound; [lia|].
    pose proof (Z.mul_div_le (w + 7) 8 ltac:(lia)).
    pose proof (Z.mod_pos_bound (w + 7) 8 ltac:(lia)).
    pose proof (Z.div_mod (w + 7) 8 ltac:(lia)). lia. }
  assert (Hm : 0 <= x mod 8 < 8) by (apply Z.mod_pos_bound; lia).
  assert (Hb : 0 <= y * pitch + x / 8 < h * pitch) by nia.
  unfold mono_body in H. rewrite Hq, Hr in H.
  rewrite to_int_small in H by nia.
  rewrite wrap32_small in H by nia.
  bind_case H as a Ea. bind_case H as b Eb.
  rewrite !land_shiftr_1 in H by lia.
  unfold mask_bit, pixel_at.
  replace ((0 + y) * pitch + x / 8) with (y * pitch + x / 8) by lia.
  replace ((h + y) * pitch + x / 8) with (y * pitch + x / 8 + h * pitch) by lia.
  rewrite (rd_cell _ _ _ Ea), (rd_cell _ _ _ Eb).
  destruct (Z.testbit a (7 - x mod 8)), (Z.testbit b (7 - x mod 8));
    simpl in H; apply wr4_Some in H as (_ & -> & -> & -> & -> & _);
    reflexivity.
Qed.

Lemma mono_body_total sb pitch w h y x buf :
  0 <= x < w -> 0 <= y < h -> (w + 7) / 8 <= pitch ->
  pitch * (2 * h) <= Z.of_nat (length sb) -> pitch * (2 * h) < 2 ^ 31 ->
  Z.of_nat (length buf) = w * h * 4 ->
  exists buf', mono_body sb pitch w h y x buf = Some buf'.
Proof.
  intros Hx Hy Hp Hsb Hlen Hbuf.
  assert (Hq : Z.quot x 8 = x / 8) by (apply Z.quot_div_nonneg; lia).
  assert (Hx8 : 0 <= x / 8 < pitch).
  { split; [apply Z.div_pos; lia|].
    apply Z.lt_le_trans with ((w + 7) / 8); [|exact Hp].
    apply Z.div_lt_upper_bound; [lia|].
    pose proof (Z.div_mod (w + 7) 8 ltac:(lia)).
    pose proof (Z.mod_pos_bound (w + 7) 8 ltac:(lia)). lia. }
  assert (Hb : 0 <= y * pitch + x / 8 < h * pitch) by nia.
  unfold mono_body. rewrite Hq.
  rewrite to_int_small by nia. rewrite wrap32_small by nia.
  destruct (rd_in_range sb (y * pitch + x / 8)) as [a ->]; [nia|].
  destruct (rd_in_range sb (y * pitch + x / 8 + h * pitch)) as [b ->]; [nia|].
  simpl.
  assert (Hd : 0 <= (y * w + x) * 4 /\
               (y * w + x) * 4 + 4 <= Z.of_nat (length buf)) by nia.
  repeat (destruct (_ && _)); apply wr4_in_range; lia.
Qed.

Section MonoLoops.

Context (sb : list Z) (pitch w h : Z).

Lemma mono_row_length y buf buf' :
  mono_row sb pitch w h y buf = Some buf' -> length buf' = length buf.
Proof.
  unfold mono_row, for_to. intros H.
  apply (for_loop_inv _ (fun b => length b = length buf)) in H;
    [exact H| |reflexivity].
  intros k s s' E Hs. apply mono_body_frame in E as [L _]. congruence.
Qed.

Lemma mono_row_frame y buf buf' j :
  mono_row sb pitch w h y buf = Some buf' ->
  ~ (y * w * 4 <= j < (y + 1) * w * 4) -> cell buf' j = cell buf j.
Proof.
  unfold mono_row, for_to. intros H Hj.
  apply (for_loop_frame cell _
           (fun x i => (y * w + x) * 4 <= i < (y * w + x) * 4 + 4)
           (fun k s s' i E => proj2 (mono_body_frame _ _ _ _ _ _ _ _ E) i)
           _ _ _ _ _ H).
  intros k Hk. nia.
Qed.

Lemma mono_row_value y x buf buf' i :
  mono_row sb pitch w h y buf = Some buf' -> 0 <= x < w ->
  (y * w + x) * 4 <= i < (y * w + x) * 4 + 4 ->
  exists t1 t2,
    mono_body sb pitch w h y x t1 = Some t2 /\ cell buf' i = cell t2 i.
Proof.
  unfold mono_row, for_to. intros H Hx Hi.
  destruct (for_loop_value cell _
              (fun x i => (y * w + x) * 4 <= i < (y * w + x) * 4 + 4)
              (fun k s s' i E => proj2 (mono_body_frame _ _ _ _ _ _ _ _ E) i)
              _ _ _ _ x i H) as (t1 & t2 & E & V & _).
  - lia.
  - intros k' Hk' Hne. lia.
  - exists t1, t2. split; assumption.
Qed.

Lemma mono_loops_value buf buf' x y i :
  for_to h (mono_row sb pitch w h) buf = Some buf' ->
  0 <= x < w -> 0 <= y < h ->
  (y * w + x) * 4 <= i < (y * w + x) * 4 + 4 ->
  exists t1 t2,
    mono_body sb pitch w h y x t1 = Some t2 /\ cell buf' i = cell t2 i.
Proof.
  unfold for_to. intros H Hx Hy Hi.
  destruct (for_loop_value cell (mono_row sb pitch w h)
              (fun y i => y * w * 4 <= i < (y + 1) * w * 4)
              (fun k s s' i E => mono_row_frame k s s' i E)
              _ _ _ _ y i H) as (s1 & s2 & E & V & _).
  - lia.
  - intros k' Hk' Hne. nia.
  - destruct (mono_row_value _ _ _ _ i E Hx Hi) as (t1 & t2 & Eb & Vb).
    exists t1, t2. split; [exact Eb|]. congruence.
Qed.

Lemma mono_loops_length buf buf' :
  for_to h (mono_row sb pitch w h) buf = Some buf' -> length buf' = length buf.
Proof.
  unfold for_to. intros H.
  apply (for_loop_inv _ (fun b => length b = length buf)) in H;
    [exact H| |reflexivity].
  intros k s s' E Hs. apply mono_row_length in E. congruence.
Qed.

Lemma mono_loops_total buf :
  0 <= w -> 0 <= h -> (w + 7) / 8 <= pitch ->
  pitch * (2 * h) <= Z.of_nat (length sb) -> pitch * (2 * h) < 2 ^ 31 ->
  Z.of_nat (length buf) = w * h * 4 ->
  exists buf', for_to h (mono_row sb pitch w h) buf = Some buf'.
Proof.
  intros Hw Hh Hp Hsb Hlen Hbuf. unfold for_to.
  destruct (for_loop_total (mono_row sb pitch w h)
              (fun b => Z.of_nat (length b) = w * h * 4)
              (Z.to_nat h) 0 buf) as (buf' & E & _); [|exact Hbuf|eauto].
  intros y s Hy Hs. unfold mono_row, for_to.
  destruct (for_loop_total (mono_body sb pitch w h y)
              (fun b => Z.of_nat (length b) = w * h * 4)
              (Z.to_nat w) 0 s) as (s' & E & Ls); [|exact Hs|].
  - intros x t Hx Ht.
    destruct (mono_body_total sb pitch w h y x t) as [t' Et]; try lia.
    exists t'. split; [exact Et|].
    apply mono_body_frame in Et as [L _]. lia.
  - exists s'. split; [exact E|exact Ls].
Qed.

End MonoLoops.

Lemma new_BYTE_Some w h :
  0 <= w -> 0 <= h -> w * h * 4 < 2 ^ 31 ->
  exists buf, new_BYTE w h = Some buf /\ Z.of_nat (length buf) = w * h * 4.
Proof.
  intros Hw Hh Hn. unfold new_BYTE.
  assert (0 <= w * h) by nia.
  rewrite (to_int_small (w * h)) by lia.
  rewrite (to_int_small (w * h * 4)) by lia.
  destruct (Z.leb_spec 0 (w * h * 4)); [|lia].
  eexists. split; [reflexivity|].
  rewrite length_replicate. lia.
Qed.

(** C4. Monochrome pointer shapes: the decoded bitmap has the declared width
    and half the declared height, and the four bytes of every pixel are
    given by the table on its (AND, XOR) bits, the AND mask occupying the
    first [Height / 2] rows of the payload and the XOR mask the next. *)
Theorem monochrome_decode_table (info : ShapeInfo) (shapeBuffer : list Z)
    (c : Cursor) :
  Type_ info = DXGI_OUTDUPL_POINTER_SHAPE_TYPE_MONOCHROME ->
  0 <= Width info < 2 ^ 31 -> 0 <= Height info < 2 ^ 32 ->
  (Width info + 7) / 8 <= Pitch info ->
  Pitch info * (2 * (Height info / 2)) <= Z.of_nat (length shapeBuffer) ->
  Pitch info * (2 * (Height info / 2)) < 2 ^ 31 ->
  Width info * (Height info / 2) * 4 < 2 ^ 31 ->
  exists pixels,
    UpdateCursorShape info shapeBuffer c =
      Some {| g_CursorBuffer := Some pixels;
              g_CursorWidth := Width info;
              g_CursorHeight := Height info / 2;
              g_CursorHotspotX := HotSpot_x info;
              g_CursorHotspotY := HotSpot_y info |} /\
    Z.of_nat (length pixels) = Width info * (Height info / 2) * 4 /\
    forall x y, 0 <= x < Width info -> 0 <= y < Height info / 2 ->
      pixel_at pixels (Width info) x y =
        spec_mono_pixel (mask_bit shapeBuffer (Pitch info) 0 x y)
          (mask_bit shapeBuffer (Pitch info) (Height info / 2) x y).
Proof.
  intros HT HW HH HP Hsb Hlen Hn.
  set (w := Width info) in *. set (h := Height info / 2) in *.
  set (pitch := Pitch info) in *.
  assert (Hh : 0 <= h < 2 ^ 31).
  { unfold h. split; [apply Z.div_pos; lia|].
    apply Z.div_lt_upper_bound; lia. }
  unfold UpdateCursorShape. rewrite HT. simpl (_ =? _).
  rewrite (wrap32_small (Height info)) by lia.
  fold w h pitch. rewrite (to_int_small w), (to_int_small h) by lia.
  destruct (new_BYTE_Some w h) as (buf & -> & Lb); [lia|lia|lia|]. simpl.
  destruct (mono_loops_total shapeBuffer pitch w h buf) as [pixels E];
    try lia.
  rewrite E. simpl. exists pixels. split; [reflexivity|]. split.
  - apply mono_loops_length in E. lia.
  - intros x y Hx Hy.
    assert (V : forall i, (y * w + x) * 4 <= i < (y * w + x) * 4 + 4 ->
                cell pixels i =
                match i - (y * w + x) * 4 with
                | 0 => fst (fst (fst (spec_mono_pixel
                         (mask_bit shapeBuffer pitch 0 x y)
                         (mask_bit shapeBuffer pitch h x y))))
                | 1 => snd (fst (fst (spec_mono_pixel
                         (mask_bit shapeBuffer pitch 0 x y)
                         (mask_bit shapeBuffer pitch h x y))))
                | 2 => snd (fst (spec_mono_pixel
                         (mask_bit shapeBuffer pitch 0 x y)
                         (mask_bit shapeBuffer pitch h x y)))
                | _ => snd (spec_mono_pixel
                         (mask_bit shapeBuffer pitch 0 x y)
                         (mask_bit shapeBuffer pitch h x y))
                end).
    { intros i Hi.
      destruct (mono_loops_value _ _ _ _ _ _ x y i E Hx Hy Hi)
        as (t1 & t2 & Eb & ->).
      apply mono_body_value in Eb; try lia.
      rewrite <- Eb. unfold pixel_at. simpl.
      assert (Hc : i = (y * w + x) * 4 \/ i = (y * w + x) * 4 + 1 \/
                   i = (y * w + x) * 4 + 2 \/ i = (y * w + x) * 4 + 3) by lia.
      destruct Hc as [-> | [-> | [-> | ->]]].
      - rewrite Z.sub_diag. reflexivity.
      - replace (_ + 1 - _) with 1 by lia. reflexivity.
      - replace (_ + 2 - _) with 2 by lia. reflexivity.
      - replace (_ + 3 - _) with 3 by lia. reflexivity. }
    unfold pixel_at at 1.
    rewrite (V ((y * w + x) * 4)), (V ((y * w + x) * 4 + 1)),
      (V ((y * w + x) * 4 + 2)), (V ((y * w + x) * 4 + 3)) by lia.
    rewrite Z.sub_diag.
    replace ((y * w + x) * 4 + 1 - (y * w + x) * 4) with 1 by lia.
    replace ((y * w + x) * 4 + 2 - (y * w + x) * 4) with 2 by lia.
    replace ((y * w + x) * 4 + 3 - (y * w + x) * 4) with 3 by lia.
    destruct (spec_mono_pixel _ _) as [[[p0 p1] p2] p3]. reflexivity.
Qed.

Lemma monochrome_decode_table_witness :
  exists pixels,
    UpdateCursorShape mono2x2 mono2x2_payload cursor_init =
      Some {| g_CursorBuffer := Some pixels;
              g_CursorWidth := 2; g_CursorHeight := 2;
              g_CursorHotspotX := 0; g_CursorHotspotY := 0 |} /\
    Z.of_nat (length pixels) = 16 /\
    forall x y, 0 <= x < 2 -> 0 <= y < 2 ->
      pixel_at pixels 2 x y =
        spec_mono_pixel (mask_bit mono2x2_payload 1 0 x y)
          (mask_bit mono2x2_payload 1 2 x y).
Proof.
  apply (monochrome_decode_table mono2x2 mono2x2_payload cursor_init);
    vm_compute; try reflexivity; intuition discriminate.
Defined.

(** The test of the specification, by evaluation. *)
Example mono2x2_decodes :
  UpdateCursorShape mono2x2 mono2x2_payload cursor_init =
  Some {| g_CursorBuffer :=
            Some [0; 0; 0; 255;  255; 255; 255; 255;
                  0; 0; 0; 0;    255; 255; 255; 128];
          g_CursorWidth := 2; g_CursorHeight := 2;
          g_CursorHotspotX := 0; g_CursorHotspotY := 0 |}.
Proof. vm_compute. reflexivity. Qed.

(** ** Cursor blending *)

Lemma blend_channel src alpha dst :
  is_byte src -> is_byte dst -> 0 < alpha < 255 ->
  to_byte (Z.quot (src * alpha + dst * (255 - alpha)) 255) =
  spec_blend src alpha dst.
Proof.
  unfold is_byte, to_byte, spec_blend. intros Hs Hd Ha.
  assert (Hn : 0 <= src * alpha + dst * (255 - alpha) <= 255 * 255) by nia.
  rewrite Z.quot_div_nonneg by lia.
  apply Z.mod_small. split; [apply Z.div_pos; lia|].
  apply Z.div_lt_upper_bound; lia.
Qed.

Section BlendLoops.

Context (cur : list Z) (cw ch W H pitch drawX drawY : Z).
Context (HW : 0 <= W < 2 ^ 31) (HH : 0 <= H < 2 ^ 31).
Context (Hp : 4 * W <= pitch) (Hsz : pitch * H < 2 ^ 31).
Context (Hcur : Z.of_nat (length cur) = cw * ch * 4).
Context (Hbytes : forall k, is_byte (cell cur k)).


Lemma blend_body_frame y x d d' j :
  0 <= drawY + y < H ->
  blend_body cur cw W pitch drawX (drawY + y) y x d = Some d' ->
  ~ blend_footprint W H pitch drawX drawY y x j -> d' j = d j.
Proof using HW HH Hp Hsz cur cw ch.
  intros Hy E Hj. unfold blend_body in E.
  rewrite (to_int_small W) in E by lia.
  destruct (Z.ltb_spec (drawX + x) 0); simpl in E; [congruence|].
  destruct (Z.leb_spec W (drawX + x)); simpl in E; [congruence|].
  rewrite to_int_small in E by nia.
  assert (Ho : ~ ((drawY + y) * pitch + (drawX + x) * 4 <= j
                  < (drawY + y) * pitch + (drawX + x) * 4 + 4)).
  { intros Hi. apply Hj. unfold blend_footprint, texel_bytes. lia. }
  bind_case E as srcA EA.
  destruct (0 <? srcA); [|congruence].
  bind_case E as srcB EB. bind_case E as srcG EG. bind_case E as srcR ER.
  destruct (srcA =? 255); injection E as <-; apply upd4_outside; exact Ho.
Qed.

Lemma blend_body_value y x d d' :
  0 <= drawY + y < H -> 0 <= drawX + x < W ->
  (forall j, texel_bytes pitch (drawX + x) (drawY + y) j -> is_byte (d j)) ->
  blend_body cur cw W pitch drawX (drawY + y) y x d = Some d' ->
  texel4 d' pitch (drawX + x) (drawY + y) =
  spec_blend_pixel (pixel_at cur cw x y)
    (texel4 d pitch (drawX + x) (drawY + y)).
Proof using All.
  intros Hy Hx Hd E. unfold blend_body in E.
  rewrite (to_int_small W) in E by lia.
  destruct (Z.ltb_spec (drawX + x) 0); [lia|].
  destruct (Z.leb_spec W (drawX + x)); [lia|]. simpl in E.
  rewrite to_int_small in E by nia.
  replace ((drawY + y) * pitch + (drawX + x) * 4)
    with ((drawY + y) * pitch + 4 * (drawX + x)) in E by lia.
  unfold texel4, pixel_at, spec_blend_pixel.
  set (i := (drawY + y) * pitch + 4 * (drawX + x)) in *.
  set (s := (y * cw + x) * 4) in *.
  assert (Hd0 : is_byte (d i)) by (apply Hd; unfold texel_bytes; lia).
  assert (Hd1 : is_byte (d (i + 1))) by (apply Hd; unfold texel_bytes; lia).
  assert (Hd2 : is_byte (d (i + 2))) by (apply Hd; unfold texel_bytes; lia).
  bind_case E as srcA EA. rewrite (rd_cell _ _ _ EA).
  pose proof (Hbytes (s + 3)) as HA. rewrite (rd_cell _ _ _ EA) in HA.
  unfold is_byte in HA.
  destruct (Z.ltb_spec 0 srcA).
  - bind_case E as srcB EB. bind_case E as srcG EG. bind_case E as srcR ER.
    replace (s + 0) with s in EB by lia.
    pose proof (Hbytes s) as HB. pose proof (Hbytes (s + 1)) as HG.
    pose proof (Hbytes (s + 2)) as HR.
    rewrite (rd_cell _ _ _ EB) in *. rewrite (rd_cell _ _ _ EG) in *.
    rewrite (rd_cell _ _ _ ER) in *.
    destruct (Z.eqb_spec srcA 0); [lia|].
    destruct (Z.eqb_spec srcA 255); injection E as <-.
    + destruct (upd4_inside d i srcB srcG srcR 255) as (-> & -> & -> & ->).
      reflexivity.
    + set (b0 := to_byte _). set (b1 := to_byte _). set (b2 := to_byte _).
      destruct (upd4_inside d i b0 b1 b2 255) as (-> & -> & -> & ->).
      unfold b0, b1, b2. replace (i + 0) with i by lia.
      rewrite !blend_channel by (assumption || lia). reflexivity.
  - injection E as <-. destruct (Z.eqb_spec srcA 0); [|lia]. reflexivity.
Qed.

Lemma blend_body_total y x d destY :
  0 <= x < cw -> 0 <= y < ch ->
  exists d', blend_body cur cw W pitch drawX destY y x d = Some d'.
Proof using Hcur W H pitch drawX drawY.
  intros Hx Hy. unfold blend_body.
  destruct (_ || _); [eauto|].
  assert (Hs : 0 <= (y * cw + x) * 4 /\
               (y * cw + x) * 4 + 4 <= Z.of_nat (length cur)) by nia.
  destruct (rd_in_range cur ((y * cw + x) * 4 + 3)) as [a ->]; [lia|].
  destruct (rd_in_range cur ((y * cw + x) * 4 + 0)) as [b ->]; [lia|].
  destruct (rd_in_range cur ((y * cw + x) * 4 + 1)) as [g ->]; [lia|].
  destruct (rd_in_range cur ((y * cw + x) * 4 + 2)) as [r ->]; [lia|].
  simpl. destruct (0 <? a); [|eauto]. destruct (a =? 255); eauto.
Qed.

Lemma blend_row_frame y d d' j :
  blend_row cur cw W H pitch drawX drawY y d = Some d' ->
  ~ (exists x, 0 <= x < cw /\ blend_footprint W H pitch drawX drawY y x j) ->
  d' j = d j.
Proof using HW HH Hp Hsz cur cw ch.
  unfold blend_row. rewrite (to_int_small H) by lia. intros E Hj.
  destruct (Z.ltb_spec (drawY + y) 0); simpl in E; [congruence|].
  destruct (Z.leb_spec H (drawY + y)); simpl in E; [congruence|].
  unfold for_to in E.
  apply (for_loop_frame (fun m k => m k) _
           (blend_footprint W H pitch drawX drawY y)
           (fun k s s' i Eb => blend_body_frame y k s s' i ltac:(lia) Eb)
           _ _ _ _ _ E).
  intros k Hk Hf. apply Hj. exists k. split; [lia|exact Hf].
Qed.

Lemma blend_footprint_inj y x y' x' j :
  blend_footprint W H pitch drawX drawY y x j ->
  blend_footprint W H pitch drawX drawY y' x' j -> y = y' /\ x = x'.
Proof using HW HH Hp Hsz cur cw ch.
  unfold blend_footprint, texel_bytes. intros (Hy & Hx & Hj) (Hy' & Hx' & Hj').
  assert (drawY + y = drawY + y').
  { destruct (Z.lt_trichotomy (drawY + y) (drawY + y')) as [L|[L|L]];
      [|exact L|].
    - assert ((drawY + y + 1) * pitch <= (drawY + y') * pitch)
        by (apply Z.mul_le_mono_nonneg_r; lia). lia.
    - assert ((drawY + y' + 1) * pitch <= (drawY + y) * pitch)
        by (apply Z.mul_le_mono_nonneg_r; lia). lia. }
  split; [lia|]. replace (drawY + y') with (drawY + y) in Hj' by lia. lia.
Qed.

(** The loops of [DrawCursorOnTexture] on the mapped memory [d]. *)
Lemma blend_loops_covered d d' x y :
  for_to ch (blend_row cur cw W H pitch drawX drawY) d = Some d' ->
  0 <= x < cw -> 0 <= y < ch ->
  0 <= drawX + x < W -> 0 <= drawY + y < H ->
  (forall j, is_byte (d j)) ->
  texel4 d' pitch (drawX + x) (drawY + y) =
  spec_blend_pixel (pixel_at cur cw x y)
    (texel4 d pitch (drawX + x) (drawY + y)).
Proof using All.
  intros E Hx Hy HX HY Hd. unfold for_to in E.
  set (i := (drawY + y) * pitch + 4 * (drawX + x)).
  assert (V : forall j, texel_bytes pitch (drawX + x) (drawY + y) j ->
            exists t1 t2,
              blend_body cur cw W pitch drawX (drawY + y) y x t1 = Some t2 /\
              d' j = t2 j /\
              forall j', texel_bytes pitch (drawX + x) (drawY + y) j' ->
                         t1 j' = d j').
  { intros j Hj.
    destruct (for_loop_value (fun m k => m k) _
                (fun y j => exists x,
                   0 <= x < cw /\
                   blend_footprint W H pitch drawX drawY y x j)
                blend_row_frame _ _ _ _ y j E) as (s1 & s2 & Er & Vr & Ar).
    { lia. }
    { intros y' Hy' Hne (x' & Hx' & Hf).
      destruct (blend_footprint_inj y x y' x' j);
        [unfold blend_footprint; auto|exact Hf|lia]. }
    unfold blend_row in Er. rewrite (to_int_small H) in Er by lia.
    destruct (Z.ltb_spec (drawY + y) 0); [lia|].
    destruct (Z.leb_spec H (drawY + y)); [lia|]. simpl in Er.
    unfold for_to in Er.
    destruct (for_loop_value (fun m k => m k) _
                (blend_footprint W H pitch drawX drawY y)
                (fun k s s' i Eb => blend_body_frame y k s s' i ltac:(lia) Eb)
                _ _ _ _ x j Er) as (t1 & t2 & Eb & Vb & Ab).
    { lia. }
    { intros x' Hx' Hne Hf.
      destruct (blend_footprint_inj y x y x' j);
        [unfold blend_footprint; auto|exact Hf|lia]. }
    exists t1, t2. split; [exact Eb|]. split; [congruence|].
    intros j' Hj'. rewrite Ab, Ar.
    - reflexivity.
    - intros y' Hy' (x' & Hx' & Hf).
      destruct (blend_footprint_inj y x y' x' j');
        [unfold blend_footprint; auto|exact Hf|lia].
    - intros x' Hx' Hf.
      destruct (blend_footprint_inj y x y x' j');
        [unfold blend_footprint; auto|exact Hf|lia]. }
  assert (R : forall j, texel_bytes pitch (drawX + x) (drawY + y) j ->
            exists t2,
              d' j = t2 j /\
              texel4 t2 pitch (drawX + x) (drawY + y) =
              spec_blend_pixel (pixel_at cur cw x y)
                (texel4 d pitch (drawX + x) (drawY + y))).
  { intros j Hj. destruct (V j Hj) as (t1 & t2 & Eb & Vb & Ab).
    exists t2. split; [exact Vb|].
    rewrite (blend_body_value y x t1 t2 HY HX); [| |exact Eb].
    - unfold texel4. rewrite !Ab by (unfold texel_bytes; lia). reflexivity.
    - intros j' Hj'. rewrite Ab by exact Hj'. apply Hd. }
  destruct (R i) as (u0 & E0 & P0); [unfold texel_bytes, i; lia|].
  destruct (R (i + 1)) as (u1 & E1 & P1); [unfold texel_bytes, i; lia|].
  destruct (R (i + 2)) as (u2 & E2 & P2); [unfold texel_bytes, i; lia|].
  destruct (R (i + 3)) as (u3 & E3 & P3); [unfold texel_bytes, i; lia|].
  destruct (spec_blend_pixel _ _) as [[[p0 p1] p2] p3].
  unfold texel4 in *. fold i in P0, P1, P2, P3 |- *.
  rewrite E0, E1, E2, E3. congruence.
Qed.

Lemma blend_loops_uncovered d d' j :
  for_to ch (blend_row cur cw W H pitch drawX drawY) d = Some d' ->
  ~ (exists x y, 0 <= x < cw /\ 0 <= y < ch /\
                 blend_footprint W H pitch drawX drawY y x j) ->
  d' j = d j.
Proof using HW HH Hp Hsz cur cw ch.
  intros E Hj. unfold for_to in E.
  apply (for_loop_frame (fun m k => m k) _
           (fun y j => exists x,
              0 <= x < cw /\ blend_footprint W H pitch drawX drawY y x j)
           blend_row_frame _ _ _ _ _ E).
  intros y Hy (x & Hx & Hf). apply Hj. exists x, y.
  split; [lia|]. split; [lia|exact Hf].
Qed.

Lemma blend_loops_total d :
  exists d', for_to ch (blend_row cur cw W H pitch drawX drawY) d = Some d'.
Proof using Hcur W H pitch drawX drawY.
  unfold for_to.
  destruct (for_loop_total (blend_row cur cw W H pitch drawX drawY)
              (fun _ => True) (Z.to_nat ch) 0 d) as (d' & E & _);
    [|exact I|eauto].
  intros y s Hy _. unfold blend_row.
  destruct (_ || _); [eauto|]. unfold for_to.
  destruct (for_loop_total
              (blend_body cur cw W pitch drawX (drawY + y) y)
              (fun _ => True) (Z.to_nat cw) 0 s) as (s' & E & _);
    [|exact I|eauto].
  intros x t Hx _.
  destruct (blend_body_total y x t (drawY + y)) as [t' Et]; [lia|lia|].
  eauto.
Qed.

End BlendLoops.

Lemma cell_is_byte (p : list Z) :
  Forall is_byte p -> forall k, is_byte (cell p k).
Proof.
  intros Hp k. unfold cell, rd.
  destruct (k <? 0); [unfold is_byte; simpl; lia|].
  destruct (p !! Z.to_nat k) as [v|] eqn:E; simpl.
  - exact (Forall_lookup_1 _ _ _ _ Hp E).
  - unfold is_byte. lia.
Qed.

(** Where [DrawCursorOnTexture] puts the pixels of a decoded cursor. *)
Lemma draw_cursor_covered (c : Cursor) (cur : list Z) (t : Texture)
    (cursorX cursorY : Z) :
  g_CursorBuffer c = Some cur ->
  0 < g_CursorWidth c -> 0 < g_CursorHeight c ->
  bytes_of_extent (g_CursorWidth c * g_CursorHeight c * 4) cur ->
  canvas_wf t ->
  (forall j, is_byte (texels t j)) ->
  let drawX := cursorX - g_CursorHotspotX c in
  let drawY := cursorY - g_CursorHotspotY c in
  exists d',
    DrawCursorOnTexture true true c t cursorX cursorY =
      Some (with_texels t d') /\
    forall x y,
      0 <= x < g_CursorWidth c -> 0 <= y < g_CursorHeight c ->
      0 <= drawX + x < desc_Width t -> 0 <= drawY + y < desc_Height t ->
      texel4 d' (RowPitch t) (drawX + x) (drawY + y) =
      spec_blend_pixel (pixel_at cur (g_CursorWidth c) x y)
        (texel4 (texels t) (RowPitch t) (drawX + x) (drawY + y)).
Proof.
  intros Hc Hcw Hch [Hlen Hcb] (HW & HH & Hp & Hsz) Hd drawX drawY.
  pose proof (cell_is_byte cur Hcb) as Hbytes.
  destruct (blend_loops_total cur (g_CursorWidth c) (g_CursorHeight c)
              (desc_Width t) (desc_Height t) (RowPitch t) drawX drawY
              Hlen (texels t)) as [d' E].
  exists d'. split.
  - unfold DrawCursorOnTexture. rewrite Hc.
    destruct (Z.eqb_spec (g_CursorWidth c) 0); [lia|].
    destruct (Z.eqb_spec (g_CursorHeight c) 0); [lia|]. simpl.
    fold drawX drawY. rewrite E. reflexivity.
  - intros x y Hx Hy HX HY.
    apply (blend_loops_covered cur (g_CursorWidth c) (g_CursorHeight c)
             (desc_Width t) (desc_Height t) (RowPitch t) drawX drawY
             HW HH Hp Hsz Hlen Hbytes (texels t) d' x y E Hx Hy HX HY Hd).
Qed.



(** The same input by evaluation: texel 0 is copied, texel 1 is blended
    ((100 * 128 + 50 * 127) / 255 = 75), alpha is 255 in both. *)
Example blend_demo :
  option_map (fun t => map (texels t) [0; 1; 2; 3; 4; 5; 6; 7; 8])
    (DrawCursorOnTexture true true
       {| g_CursorBuffer := Some [10; 20; 30; 255;  100; 100; 100; 128;
                                  1; 2; 3; 0];
          g_CursorWidth := 3; g_CursorHeight := 1;
          g_CursorHotspotX := 0; g_CursorHotspotY := 0 |}
       {| desc_Width := 2; desc_Height := 1; RowPitch := 8;
          texels := fun _ => 50 |} 0 0)
  = Some [10; 20; 30; 255; 75; 75; 75; 255; 50].
Proof. vm_compute. reflexivity. Qed.

(** ** Texel addressing *)

Lemma locate_texel t x y c :
  0 <= x < desc_Width t -> 0 <= y < desc_Height t -> 0 <= c < 4 ->
  4 * desc_Width t <= RowPitch t ->
  locate t (y * RowPitch t + 4 * x + c) = Some (x, y, c).
Proof.
  intros Hx Hy Hc Hp. unfold locate.
  set (p := RowPitch t) in *.
  assert (Hd : (y * p + 4 * x + c) / p = y).
  { symmetry. apply (Z.div_unique _ _ _ (4 * x + c)); lia. }
  assert (Hm : (y * p + 4 * x + c) mod p = 4 * x + c).
  { symmetry. apply (Z.mod_unique _ _ y); lia. }
  rewrite Hd, Hm.
  destruct (Z.leb_spec 0 (y * p + 4 * x + c)); [|nia].
  destruct (Z.ltb_spec 0 p); [|lia].
  destruct (Z.ltb_spec y (desc_Height t)); [|lia].
  destruct (Z.ltb_spec (4 * x + c) (4 * desc_Width t)); [|lia].
  simpl. f_equal. f_equal; [f_equal|].
  - symmetry. apply (Z.div_unique _ _ _ c); lia.
  - symmetry. apply (Z.mod_unique _ _ x); lia.
Qed.

Lemma locate_Some t i x y c :
  locate t i = Some (x, y, c) ->
  0 <= x < desc_Width t /\ 0 <= y < desc_Height t /\ 0 <= c < 4 /\
  i = y * RowPitch t + 4 * x + c.
Proof.
  unfold locate.
  destruct (Z.leb_spec 0 i); [|discriminate].
  destruct (Z.ltb_spec 0 (RowPitch t)); [|discriminate].
  destruct (Z.ltb_spec (i / RowPitch t) (desc_Height t)); [|discriminate].
  destruct (Z.ltb_spec (i mod RowPitch t) (4 * desc_Width t)); [|discriminate].
  simpl. intros [= <- <- <-].
  pose proof (Z.div_mod i (RowPitch t) ltac:(lia)).
  pose proof (Z.mod_pos_bound i (RowPitch t) ltac:(lia)).
  pose proof (Z.div_mod (i mod RowPitch t) 4 ltac:(lia)).
  pose proof (Z.mod_pos_bound (i mod RowPitch t) 4 ltac:(lia)).
  assert (0 <= i / RowPitch t) by (apply Z.div_pos; lia).
  assert (0 <= i mod RowPitch t / 4) by (apply Z.div_pos; lia).
  repeat split; try lia.
Qed.

(** ** The cursor step without a decoded cursor *)

Lemma draw_without_cursor create_ok map_ok c t x y :
  g_CursorBuffer c = None \/ g_CursorWidth c = 0 \/ g_CursorHeight c = 0 ->
  DrawCursorOnTexture create_ok map_ok c t x y = Some t.
Proof.
  intros H. unfold DrawCursorOnTexture.
  destruct (g_CursorBuffer c) as [cur|]; [|reflexivity].
  destruct H as [H|[H|H]]; [discriminate| |]; rewrite H.
  - reflexivity.
  - rewrite orb_true_r. reflexivity.
Qed.

Lemma render_without_cursor sample e s :
  g_CursorBuffer (DXGI.cursor s) = None \/
  g_CursorWidth (DXGI.cursor s) = 0 \/ g_CursorHeight (DXGI.cursor s) = 0 ->
  DXGI.render_and_present sample e s =
  Some (DXGI.emit
          (DXGI.Present
             (texels (DXGI.rendered sample (DXGI.g_StagingTexture s)
                        (DXGI.g_BackBuffer s))))
          (DXGI.set_back
             (DXGI.rendered sample (DXGI.g_StagingTexture s)
                (DXGI.g_BackBuffer s)) s)).
Proof.
  intros H. unfold DXGI.render_and_present.
  destruct (DXGI.cursor_pos e) as [[px py]|]; [|reflexivity].
  destruct (_ && _); [|reflexivity].
  destruct (g_CursorBuffer (DXGI.cursor s)) eqn:E; [|reflexivity].
  rewrite draw_without_cursor; [reflexivity|].
  destruct H as [H|H]; [congruence|right; exact H].
Qed.

(** C10. While no pointer shape has been decoded (the cursor buffer is null,
    or its width or height is zero) the cursor step changes nothing: the
    call of [DrawCursorOnTexture] returns the texture it was given, and the
    frame that a call of [CaptureAndRender] presents is the render target as
    the scaling pass left it. *)
Theorem cursor_absent_blend_is_noop
    (sample : (Z -> Z) -> Z -> Z -> Z -> Z) (e : DXGI.Tick) (s : DXGI.State) :
  DXGI.g_DeskDupl s = Some tt ->
  g_CursorBuffer (DXGI.cursor s) = None \/
  g_CursorWidth (DXGI.cursor s) = 0 \/ g_CursorHeight (DXGI.cursor s) = 0 ->
  DXGI.decodes_shape e = false ->
  DXGI.acquire e <> DXGI.ACCESS_LOST ->
  (forall t x y,
     DrawCursorOnTexture (DXGI.create_ok e) (DXGI.map_ok e) (DXGI.cursor s)
       t x y = Some t) /\
  exists s',
    DXGI.CaptureAndRender sample e s = Some s' /\
    DXGI.cursor s' = DXGI.cursor s /\
    DXGI.g_BackBuffer s' =
      DXGI.rendered sample (DXGI.g_StagingTexture s') (DXGI.g_BackBuffer s) /\
    exists evs,
      DXGI.events s' = evs ++ [DXGI.Present (texels (DXGI.g_BackBuffer s'))].
Proof.
  intros Hd Hc Hs Hl. split.
  - intros t x y. apply draw_without_cursor. exact Hc.
  - unfold DXGI.CaptureAndRender, DXGI.decodes_shape in *. rewrite Hd. simpl.
    destruct (DXGI.acquire e) as [|desktop shape| |].
    + rewrite render_without_cursor by exact Hc.
      eexists. split; [reflexivity|]. simpl. repeat split. eauto.
    + destruct shape as [| |info buf]; [| |discriminate]; simpl;
        (rewrite render_without_cursor by (destruct desktop; exact Hc));
        eexists; (split; [reflexivity|]); destruct desktop; simpl;
        repeat split; eauto.
    + congruence.
    + rewrite render_without_cursor by exact Hc.
      eexists. split; [reflexivity|]. simpl. repeat split. eauto.
Qed.

Lemma cursor_absent_blend_is_noop_witness :
  (forall t x y,
     DrawCursorOnTexture true true cursor_init t x y = Some t) /\
  exists s',
    DXGI.CaptureAndRender nearest (timeout_tick 5 5) dxgi_boot = Some s' /\
    DXGI.cursor s' = cursor_init /\
    DXGI.g_BackBuffer s' =
      DXGI.rendered nearest (DXGI.g_StagingTexture s') canvas0 /\
    exists evs,
      DXGI.events s' = evs ++ [DXGI.Present (texels (DXGI.g_BackBuffer s'))].
Proof.
  apply (cursor_absent_blend_is_noop nearest (timeout_tick 5 5) dxgi_boot).
  - reflexivity.
  - left. reflexivity.
  - reflexivity.
  - discriminate.
Defined.

(** ** Pointer shapes of an unknown type *)

(** C2 (as the code behaves). A pointer-shape update whose type is none of
    the three known ones never faults, but it does change the cursor state:
    the previous bitmap is freed and the buffer stays null, width, height and
    hotspot take the declared values, and from then on the cursor step draws
    nothing. *)
Theorem unknown_shape_discards_cursor (info : ShapeInfo) (payload : list Z)
    (c : Cursor) :
  Type_ info <> DXGI_OUTDUPL_POINTER_SHAPE_TYPE_MONOCHROME ->
  Type_ info <> DXGI_OUTDUPL_POINTER_SHAPE_TYPE_COLOR ->
  Type_ info <> DXGI_OUTDUPL_POINTER_SHAPE_TYPE_MASKED_COLOR ->
  exists c',
    UpdateCursorShape info payload c = Some c' /\
    g_CursorBuffer c' = None /\
    g_CursorWidth c' = to_int (Width info) /\
    g_CursorHeight c' = to_int (Height info) /\
    g_CursorHotspotX c' = HotSpot_x info /\
    g_CursorHotspotY c' = HotSpot_y info /\
    forall create_ok map_ok t x y,
      DrawCursorOnTexture create_ok map_ok c' t x y = Some t.
Proof.
  intros H1 H2 H4. unfold UpdateCursorShape.
  destruct (Z.eqb_spec (Type_ info) DXGI_OUTDUPL_POINTER_SHAPE_TYPE_MONOCHROME);
    [contradiction|].
  destruct (Z.eqb_spec (Type_ info) DXGI_OUTDUPL_POINTER_SHAPE_TYPE_COLOR);
    [contradiction|].
  destruct (Z.eqb_spec (Type_ info)
              DXGI_OUTDUPL_POINTER_SHAPE_TYPE_MASKED_COLOR); [contradiction|].
  eexists. split; [reflexivity|]. simpl. repeat split.
Qed.

Lemma unknown_shape_discards_cursor_witness :
  exists c',
    UpdateCursorShape unknown_shape [0; 0; 0; 0] white_dot = Some c' /\
    g_CursorBuffer c' = None /\
    g_CursorWidth c' = to_int 1 /\
    g_CursorHeight c' = to_int 1 /\
    g_CursorHotspotX c' = 0 /\
    g_CursorHotspotY c' = 0 /\
    forall create_ok map_ok t x y,
      DrawCursorOnTexture create_ok map_ok c' t x y = Some t.
Proof.
  apply (unknown_shape_discards_cursor unknown_shape [0; 0; 0; 0] white_dot);
    vm_compute; discriminate.
Defined.

(** C2 as stated fails: after an update of unknown type the previously
    decoded cursor is gone. *)
Lemma unknown_shape_not_retained :
  UpdateCursorShape unknown_shape [0; 0; 0; 0] white_dot <> Some white_dot.
Proof. vm_compute. discriminate. Qed.

(** A payload shorter than the header declares is not detected: the colour
    branch reads past its end. *)
Example short_payload_faults :
  UpdateCursorShape
    {| Type_ := DXGI_OUTDUPL_POINTER_SHAPE_TYPE_COLOR; Width := 2; Height := 1;
       Pitch := 8; HotSpot_x := 0; HotSpot_y := 0 |}
    [1; 2; 3; 4] white_dot = None.
Proof. vm_compute. reflexivity. Qed.

(** ** Loss of the duplication *)

(** When the recreation succeeds: one release, one recreation, nothing
    drawn and nothing presented in that call. *)
Lemma access_lost_recreates_once sample e s fresh :
  DXGI.g_DeskDupl s = Some tt ->
  DXGI.acquire e = DXGI.ACCESS_LOST -> DXGI.init_dupl e = DXGI.InitOk fresh ->
  exists s',
    DXGI.CaptureAndRender sample e s = Some s' /\
    DXGI.events s' = DXGI.events s ++ [DXGI.DuplRelease; DXGI.DuplInit true] /\
    DXGI.g_BackBuffer s' = DXGI.g_BackBuffer s /\
    DXGI.g_DeskDupl s' = Some tt.
Proof.
  intros Hd Ha Hi. unfold DXGI.CaptureAndRender. rewrite Hd, Ha, Hi. simpl.
  eexists. split; [reflexivity|]. simpl. rewrite <- app_assoc. auto.
Qed.

(** Start-up checks the result of the same function and reports. *)
Lemma startup_reports_failure s :
  exists s', DXGI.startup DXGI.DuplicateFailed true s = inr s' /\
             In DXGI.MessageBox (DXGI.events s').
Proof.
  eexists. split; [reflexivity|]. simpl.
  apply in_or_app. left. apply in_or_app. right. left. reflexivity.
Qed.

(** C1 (what the code does). When [AcquireNextFrame] reports lost access and
    [InitDesktopDuplication] then fails, [CaptureAndRender] releases the
    duplication, calls the recreation once and returns with the canvas
    untouched and nothing presented; the failure is not reported, [g_Running]
    stays set, and the next iteration of the loop calls through the null
    [g_DeskDupl]. *)
Theorem access_lost_failed_recreation_keeps_running
    (sample : (Z -> Z) -> Z -> Z -> Z -> Z) (e : DXGI.Tick) (s : DXGI.State) :
  DXGI.g_DeskDupl s = Some tt -> DXGI.g_Running s = true ->
  DXGI.acquire e = DXGI.ACCESS_LOST ->
  DXGI.init_dupl e = DXGI.DuplicateFailed ->
  exists s',
    DXGI.iteration sample [] e s = Some s' /\
    DXGI.events s' =
      DXGI.events s ++ [DXGI.DuplRelease; DXGI.DuplInit false] /\
    DXGI.g_BackBuffer s' = DXGI.g_BackBuffer s /\
    DXGI.g_Running s' = true /\
    DXGI.g_DeskDupl s' = None /\
    forall e', DXGI.iteration sample [] e' s' = None.
Proof.
  intros Hd Hr Ha Hi. unfold DXGI.iteration, DXGI.CaptureAndRender. simpl.
  rewrite Hr, Hd, Ha, Hi. simpl.
  eexists. split; [reflexivity|]. simpl. rewrite <- app_assoc.
  repeat split; try assumption.
  intros e'. rewrite Hr. reflexivity.
Qed.

Lemma access_lost_failed_recreation_keeps_running_witness :
  exists s',
    DXGI.iteration nearest [] lost_tick dxgi_boot = Some s' /\
    DXGI.events s' = [] ++ [DXGI.DuplRelease; DXGI.DuplInit false] /\
    DXGI.g_BackBuffer s' = canvas0 /\
    DXGI.g_Running s' = true /\
    DXGI.g_DeskDupl s' = None /\
    forall e', DXGI.iteration nearest [] e' s' = None.
Proof.
  apply (access_lost_failed_recreation_keeps_running nearest lost_tick
           dxgi_boot); reflexivity.
Defined.

(** ** The region copy of [main.cpp] *)

(** C3 (what the code does in [main.cpp]). [RenderFrame] fills the render
    region with the left 1440 columns of the desktop image, texel for texel:
    the image is cropped, not resampled. *)
Theorem region_copy_crops (s : Dupl.State) (d : Texture) (x y c : Z) :
  desc_Width (Dupl.g_CompositeTexture s) = Dupl.OUTPUT_WIDTH ->
  desc_Height (Dupl.g_CompositeTexture s) = Dupl.OUTPUT_HEIGHT ->
  4 * Dupl.OUTPUT_WIDTH <= RowPitch (Dupl.g_CompositeTexture s) ->
  0 <= x < Dupl.RENDER_WIDTH -> 0 <= y < Dupl.RENDER_HEIGHT -> 0 <= c < 4 ->
  Dupl.texel
    (Dupl.g_CompositeTexture (Dupl.RenderFrame (Dupl.Acquired (Some d)) s))
    x y c
  = Dupl.texel d x y c.
Proof.
  intros HW HH Hp Hx Hy Hc.
  unfold Dupl.RENDER_WIDTH, Dupl.RENDER_HEIGHT, Dupl.OUTPUT_WIDTH,
    Dupl.OUTPUT_HEIGHT in *.
  unfold Dupl.RenderFrame, Dupl.present. simpl.
  unfold Dupl.texel at 1. simpl.
  rewrite locate_texel by lia.
  unfold Dupl.RENDER_WIDTH, Dupl.RENDER_HEIGHT.
  destruct (Z.ltb_spec x 1440); [|lia].
  destruct (Z.ltb_spec y 1080); [|lia]. reflexivity.
Qed.

Lemma region_copy_crops_witness :
  Dupl.texel
    (Dupl.g_CompositeTexture
       (Dupl.RenderFrame (Dupl.Acquired (Some split_frame)) dupl_boot))
    1439 0 0
  = Dupl.texel split_frame 1439 0 0.
Proof.
  apply (region_copy_crops dupl_boot split_frame 1439 0 0);
    vm_compute; try reflexivity; intuition discriminate.
Defined.

(** On the split image the whole top row of the render region is black,
    although the right quarter of the source is white. *)
Example split_frame_is_cropped :
  map (fun x =>
         Dupl.texel
           (Dupl.g_CompositeTexture
              (Dupl.RenderFrame (Dupl.Acquired (Some split_frame)) dupl_boot))
           x 0 0)
      [0; 720; 1439] = [0; 0; 0] /\
  map (fun x => Dupl.texel split_frame x 0 0) [1440; 1919] = [255; 255].
Proof. vm_compute. split; reflexivity. Qed.

(** ** The rendered target *)

Lemma locate_with_texels t d i : locate (with_texels t d) i = locate t i.
Proof. reflexivity. Qed.

Lemma rendered_located sample src bb i x y c :
  locate bb i = Some (x, y, c) ->
  texels (DXGI.rendered sample src bb) i = DXGI.PS sample src x y c.
Proof.
  intros H. unfold DXGI.rendered, DXGI.Draw, DXGI.ClearRenderTargetView.
  cbn [texels with_texels]. rewrite locate_with_texels, H. reflexivity.
Qed.

Lemma rendered_unlocated sample src bb i :
  locate bb i = None ->
  texels (DXGI.rendered sample src bb) i = texels bb i.
Proof.
  intros H. unfold DXGI.rendered, DXGI.Draw, DXGI.ClearRenderTargetView.
  cbn [texels with_texels]. rewrite locate_with_texels, H. reflexivity.
Qed.

Lemma rendered_is_byte sample src bb :
  (forall s x y c, is_byte (sample s x y c)) ->
  (forall j, is_byte (texels bb j)) ->
  forall j, is_byte (texels (DXGI.rendered sample src bb) j).
Proof.
  intros Hs Hb j. destruct (locate bb j) as [[[x y] c]|] eqn:E.
  - rewrite (rendered_located _ _ _ _ _ _ _ E). unfold DXGI.PS.
    destruct (_ <=? _); [apply Hs|].
    destruct (c =? 3); unfold is_byte; lia.
  - rewrite (rendered_unlocated _ _ _ _ E). apply Hb.
Qed.

Lemma rendered_wf sample src bb :
  canvas_wf bb -> canvas_wf (DXGI.rendered sample src bb).
Proof. intros H. exact H. Qed.

(** The pointer test of [CaptureAndRender]. *)
Lemma in_source_true px py :
  0 <= px < 1920 -> 0 <= py < 1080 ->
  (0 <=? px - DXGI.FIRST_MONITOR_X)
  && (px - DXGI.FIRST_MONITOR_X <? DXGI.SOURCE_WIDTH)
  && (0 <=? py - DXGI.FIRST_MONITOR_Y)
  && (py - DXGI.FIRST_MONITOR_Y <? DXGI.SOURCE_HEIGHT) = true.
Proof.
  intros Hx Hy.
  unfold DXGI.FIRST_MONITOR_X, DXGI.FIRST_MONITOR_Y, DXGI.SOURCE_WIDTH,
    DXGI.SOURCE_HEIGHT.
  rewrite !andb_true_iff, !Z.leb_le, !Z.ltb_lt. lia.
Qed.

Lemma in_source_false px py :
  ~ (0 <= px < 1920 /\ 0 <= py < 1080) ->
  (0 <=? px - DXGI.FIRST_MONITOR_X)
  && (px - DXGI.FIRST_MONITOR_X <? DXGI.SOURCE_WIDTH)
  && (0 <=? py - DXGI.FIRST_MONITOR_Y)
  && (py - DXGI.FIRST_MONITOR_Y <? DXGI.SOURCE_HEIGHT) = false.
Proof.
  intros H. apply not_true_is_false. intros E. apply H.
  unfold DXGI.FIRST_MONITOR_X, DXGI.FIRST_MONITOR_Y, DXGI.SOURCE_WIDTH,
    DXGI.SOURCE_HEIGHT in E.
  rewrite !andb_true_iff, !Z.leb_le, !Z.ltb_lt in E. lia.
Qed.

Lemma render_pointer_outside sample e s px py :
  DXGI.cursor_pos e = Some (px, py) ->
  ~ (0 <= px < 1920 /\ 0 <= py < 1080) ->
  DXGI.render_and_present sample e s =
  Some (DXGI.emit
          (DXGI.Present
             (texels (DXGI.rendered sample (DXGI.g_StagingTexture s)
                        (DXGI.g_BackBuffer s))))
          (DXGI.set_back
             (DXGI.rendered sample (DXGI.g_StagingTexture s)
                (DXGI.g_BackBuffer s)) s)).
Proof.
  intros Hp Ho. unfold DXGI.render_and_present. rewrite Hp.
  rewrite in_source_false by exact Ho. reflexivity.
Qed.

(** ** Where the cursor is drawn *)

Lemma gdi_in_source_false px py :
  ~ (0 <= px < 1920 /\ 0 <= py < 1080) ->
  (0 <=? px - GDI.FIRST_MONITOR_X)
  && (px - GDI.FIRST_MONITOR_X <? GDI.SOURCE_WIDTH)
  && (0 <=? py - GDI.FIRST_MONITOR_Y)
  && (py - GDI.FIRST_MONITOR_Y <? GDI.SOURCE_HEIGHT) = false.
Proof. exact (in_source_false px py). Qed.

Lemma gdi_in_source_true px py :
  0 <= px < 1920 -> 0 <= py < 1080 ->
  (0 <=? px - GDI.FIRST_MONITOR_X)
  && (px - GDI.FIRST_MONITOR_X <? GDI.SOURCE_WIDTH)
  && (0 <=? py - GDI.FIRST_MONITOR_Y)
  && (py - GDI.FIRST_MONITOR_Y <? GDI.SOURCE_HEIGHT) = true.
Proof. exact (in_source_true px py). Qed.

(** [main_gdi.cpp] at the pointer x = 100 with a hotspot of 10: the cursor
    is drawn at 75 - 7 = 68, not at 75 - 10 = 65. *)
Lemma gdi_hotspot_not_subtracted_raw :
  let s := GDI.cache_cursor (arrow_tick 100 50) (arrow_at 100 50) gdi_idle in
  GDI.cursorX (arrow_at 100 50) s <>
  spec_cursor_dest 100 GDI.FIRST_MONITOR_X GDI.RENDER_WIDTH GDI.SOURCE_WIDTH
    (GDI.g_cachedHotspotX s).
Proof. vm_compute. discriminate. Qed.

(** The scaled pointer and the scaled hotspot inside their ranges. *)
Lemma gdi_cursor_in_range ci s :
  0 <= GDI.ptScreenPos_x ci < 1920 -> 0 <= GDI.ptScreenPos_y ci < 1080 ->
  0 <= GDI.g_cachedHotspotX s < 2 ^ 31 ->
  0 <= GDI.g_cachedHotspotY s < 2 ^ 31 ->
  GDI.cursorX ci s =
    GDI.ptScreenPos_x ci * 1440 / 1920 - GDI.g_cachedHotspotX s * 1440 / 1920 /\
  GDI.cursorY ci s = GDI.ptScreenPos_y ci - GDI.g_cachedHotspotY s.
Proof.
  intros Hx Hy Hhx Hhy.
  unfold GDI.cursorX, GDI.cursorY, GDI.scaled, GDI.cast_int, int_ok,
    GDI.FIRST_MONITOR_X, GDI.FIRST_MONITOR_Y, GDI.RENDER_WIDTH,
    GDI.SOURCE_WIDTH, GDI.RENDER_HEIGHT, GDI.SOURCE_HEIGHT.
  rewrite !Z.sub_0_r, !Z.quot_mul by lia.
  rewrite !Z.quot_div_nonneg by lia.
  assert (Px : 0 <= GDI.ptScreenPos_x ci * 1440 / 1920 < 1440).
  { split; [apply Z.div_pos; lia|apply Z.div_lt_upper_bound; lia]. }
  assert (Hq : 0 <= GDI.g_cachedHotspotX s * 1440 / 1920 < 2 ^ 31).
  { split; [apply Z.div_pos; lia|apply Z.div_lt_upper_bound; lia]. }
  repeat match goal with
         | |- context [?a <=? ?b] => destruct (Z.leb_spec a b); [|lia]
         | |- context [?a <? ?b] => destruct (Z.ltb_spec a b); [|lia]
         end.
  cbn [andb]. split; apply to_int_range; lia.
Qed.

(** C6 (what the code does in [main_gdi.cpp]).  For a visible cursor inside
    the source rectangle the bitmap is handed to [DrawIconEx] at the scaled
    pointer position minus the hotspot scaled by the same factor, and
    [DrawIconEx] draws the bitmap at its own size: with a hotspot [hx > 0]
    the bitmap starts [hx - hx * 1440 / 1920 > 0] columns to the right of
    where the claim (and [main_dxgi.cpp]) put it, so that its hotspot lands
    to the right of the scaled pointer position.  The vertical scale is 1
    and the vertical position agrees with the claim. *)
Theorem gdi_hotspot_subtracted_scaled
    (icon : Z -> (Z -> Z) -> Z -> Z -> Z -> Z -> Z)
    (e : GDI.Tick) (ci : GDI.CURSORINFO) (s : GDI.State) :
  GDI.cursor_info e = Some ci ->
  Z.land (GDI.flags ci) GDI.CURSOR_SHOWING <> 0 ->
  0 <= GDI.ptScreenPos_x ci < 1920 -> 0 <= GDI.ptScreenPos_y ci < 1080 ->
  let s1 := GDI.cache_cursor e ci s in
  let hx := GDI.g_cachedHotspotX s1 in
  let hy := GDI.g_cachedHotspotY s1 in
  0 < hx < 2 ^ 31 -> 0 <= hy < 2 ^ 31 ->
  let pointer := Z.quot ((GDI.ptScreenPos_x ci - GDI.FIRST_MONITOR_X)
                         * GDI.RENDER_WIDTH) GDI.SOURCE_WIDTH in
  let claimed_x := spec_cursor_dest (GDI.ptScreenPos_x ci) GDI.FIRST_MONITOR_X
                     GDI.RENDER_WIDTH GDI.SOURCE_WIDTH hx in
  let claimed_y := spec_cursor_dest (GDI.ptScreenPos_y ci) GDI.FIRST_MONITOR_Y
                     GDI.RENDER_HEIGHT GDI.SOURCE_HEIGHT hy in
  exists h,
    GDI.g_pBitmapBits (GDI.draw_cursor icon e s) =
      GDI.DrawIconEx icon h (GDI.cursorX ci s1) (GDI.cursorY ci s1)
        (GDI.g_pBitmapBits s) /\
    GDI.cursorX ci s1 = claimed_x + (hx - hx * 1440 / 1920) /\
    claimed_x < GDI.cursorX ci s1 /\
    pointer < GDI.cursorX ci s1 + hx /\
    GDI.cursorY ci s1 = claimed_y.
Proof.
  intros Hci Hsh Hx Hy s1 hx hy Hhx Hhy pointer claimed_x claimed_y.
  destruct (gdi_cursor_in_range ci s1 Hx Hy) as [EX EY];
    [fold hx; lia|fold hy; lia|].
  fold hx in EX. fold hy in EY.
  assert (Hq : 0 <= hx * 1440 / 1920 < hx).
  { split; [apply Z.div_pos; lia|apply Z.div_lt_upper_bound; lia]. }
  assert (Ep : pointer = GDI.ptScreenPos_x ci * 1440 / 1920).
  { unfold pointer, GDI.FIRST_MONITOR_X, GDI.RENDER_WIDTH, GDI.SOURCE_WIDTH.
    rewrite Z.sub_0_r. apply Z.quot_div_nonneg; lia. }
  assert (Ecx : claimed_x = pointer - hx) by reflexivity.
  assert (Ecy : claimed_y = GDI.ptScreenPos_y ci - hy).
  { unfold claimed_y, spec_cursor_dest, GDI.FIRST_MONITOR_Y,
      GDI.RENDER_HEIGHT, GDI.SOURCE_HEIGHT.
    rewrite Z.sub_0_r, Z.quot_mul by lia. reflexivity. }
  assert (Ebits : GDI.g_pBitmapBits s1 = GDI.g_pBitmapBits s).
  { unfold s1, GDI.cache_cursor. destruct (_ =? _); [reflexivity|].
    destruct (GDI.icon_info e) as [[? ?]|], (GDI.frame_info e) as [[? ?]|];
      reflexivity. }
  unfold GDI.draw_cursor. rewrite Hci.
  destruct (Z.eqb_spec (Z.land (GDI.flags ci) GDI.CURSOR_SHOWING) 0);
    [contradiction|].
  rewrite gdi_in_source_true by assumption. fold s1.
  eexists. cbn [GDI.g_pBitmapBits GDI.set_bits]. rewrite Ebits.
  split; [reflexivity|]. lia.
Qed.

Lemma gdi_hotspot_subtracted_scaled_witness :
  let s1 := GDI.cache_cursor (arrow_tick 100 50) (arrow_at 100 50) gdi_idle in
  exists h,
    GDI.g_pBitmapBits
      (GDI.draw_cursor (fun _ _ _ _ _ _ => 0) (arrow_tick 100 50) gdi_idle) =
      GDI.DrawIconEx (fun _ _ _ _ _ _ => 0) h
        (GDI.cursorX (arrow_at 100 50) s1) (GDI.cursorY (arrow_at 100 50) s1)
        (GDI.g_pBitmapBits gdi_idle) /\
    GDI.cursorX (arrow_at 100 50) s1 = 65 + (10 - 10 * 1440 / 1920) /\
    65 < GDI.cursorX (arrow_at 100 50) s1 /\
    75 < GDI.cursorX (arrow_at 100 50) s1 + 10 /\
    GDI.cursorY (arrow_at 100 50) s1 = 40.
Proof.
  apply (gdi_hotspot_subtracted_scaled (fun _ _ _ _ _ _ => 0)
           (arrow_tick 100 50) (arrow_at 100 50) gdi_idle);
    try reflexivity; try (vm_compute; intuition discriminate).
Defined.

(** The bitmap of that call starts at column 68 and the hotspot lands on
    column 78, three columns right of the scaled pointer position 75. *)
Example gdi_hotspot_lands_at_78 :
  let s1 := GDI.cache_cursor (arrow_tick 100 50) (arrow_at 100 50) gdi_idle in
  GDI.cursorX (arrow_at 100 50) s1 = 68 /\
  GDI.cursorX (arrow_at 100 50) s1 + GDI.g_cachedHotspotX s1 = 78.
Proof. vm_compute. split; reflexivity. Qed.

(** A [DWORD] hotspot whose scaled value leaves the [int] range: the cast
    gives [INT_MIN] and the subtraction wraps. *)
Example gdi_huge_hotspot_wraps :
  GDI.scaled 4000000000 GDI.RENDER_WIDTH GDI.SOURCE_WIDTH = - 2 ^ 31 /\
  to_int (75 - GDI.scaled 4000000000 GDI.RENDER_WIDTH GDI.SOURCE_WIDTH)
    = 75 - 2 ^ 31.
Proof. vm_compute. split; reflexivity. Qed.

(** Where both programs draw the cursor.  Both translate the pointer
    position to the source origin and scale it by render/source.
    [main_dxgi.cpp] then subtracts the hotspot: cursor pixel [(x, y)] is
    composited on the texel at destination + [(x, y)].  In both, a pointer
    outside the source rectangle draws nothing; (1920, 0) scales to
    x = 1440 and draws nothing. *)
Lemma cursor_destination
    (sample : (Z -> Z) -> Z -> Z -> Z -> Z)
    (icon : Z -> (Z -> Z) -> Z -> Z -> Z -> Z -> Z) :
  (forall e s px py cur,
     DXGI.cursor_pos e = Some (px, py) ->
     DXGI.create_ok e = true -> DXGI.map_ok e = true ->
     0 <= px < 1920 -> 0 <= py < 1080 ->
     g_CursorBuffer (DXGI.cursor s) = Some cur ->
     0 < g_CursorWidth (DXGI.cursor s) -> 0 < g_CursorHeight (DXGI.cursor s) ->
     cursor_wf (DXGI.cursor s) -> canvas_wf (DXGI.g_BackBuffer s) ->
     (forall src x y c, is_byte (sample src x y c)) ->
     (forall j, is_byte (texels (DXGI.g_BackBuffer s) j)) ->
     let dx := spec_cursor_dest px DXGI.FIRST_MONITOR_X DXGI.RENDER_WIDTH
                 DXGI.SOURCE_WIDTH (g_CursorHotspotX (DXGI.cursor s)) in
     let dy := spec_cursor_dest py DXGI.FIRST_MONITOR_Y DXGI.RENDER_HEIGHT
                 DXGI.SOURCE_HEIGHT (g_CursorHotspotY (DXGI.cursor s)) in
     let before := DXGI.rendered sample (DXGI.g_StagingTexture s)
                     (DXGI.g_BackBuffer s) in
     exists s',
       DXGI.render_and_present sample e s = Some s' /\
       forall x y,
         0 <= x < g_CursorWidth (DXGI.cursor s) ->
         0 <= y < g_CursorHeight (DXGI.cursor s) ->
         0 <= dx + x < desc_Width (DXGI.g_BackBuffer s) ->
         0 <= dy + y < desc_Height (DXGI.g_BackBuffer s) ->
         texel4 (texels (DXGI.g_BackBuffer s'))
           (RowPitch (DXGI.g_BackBuffer s)) (dx + x) (dy + y) =
         spec_blend_pixel
           (pixel_at cur (g_CursorWidth (DXGI.cursor s)) x y)
           (texel4 (texels before) (RowPitch (DXGI.g_BackBuffer s))
              (dx + x) (dy + y))) /\
  (forall e s px py,
     DXGI.cursor_pos e = Some (px, py) ->
     ~ (0 <= px < 1920 /\ 0 <= py < 1080) ->
     exists s',
       DXGI.render_and_present sample e s = Some s' /\
       DXGI.g_BackBuffer s' =
         DXGI.rendered sample (DXGI.g_StagingTexture s) (DXGI.g_BackBuffer s)) /\
  (forall e ci s,
     GDI.cursor_info e = Some ci ->
     ~ (0 <= GDI.ptScreenPos_x ci < 1920 /\ 0 <= GDI.ptScreenPos_y ci < 1080) ->
     GDI.g_pBitmapBits (GDI.draw_cursor icon e s) = GDI.g_pBitmapBits s) /\
  spec_cursor_dest 1920 DXGI.FIRST_MONITOR_X DXGI.RENDER_WIDTH
    DXGI.SOURCE_WIDTH 0 = 1440 /\
  (forall e s,
     DXGI.cursor_pos e = Some (1920, 0) ->
     exists s',
       DXGI.render_and_present sample e s = Some s' /\
       DXGI.g_BackBuffer s' =
         DXGI.rendered sample (DXGI.g_StagingTexture s) (DXGI.g_BackBuffer s)) /\
  (forall e ci s,
     GDI.cursor_info e = Some ci ->
     GDI.ptScreenPos_x ci = 1920 -> GDI.ptScreenPos_y ci = 0 ->
     GDI.g_pBitmapBits (GDI.draw_cursor icon e s) = GDI.g_pBitmapBits s).
Proof.
  assert (Hout : forall e s px py,
            DXGI.cursor_pos e = Some (px, py) ->
            ~ (0 <= px < 1920 /\ 0 <= py < 1080) ->
            exists s',
              DXGI.render_and_present sample e s = Some s' /\
              DXGI.g_BackBuffer s' =
                DXGI.rendered sample (DXGI.g_StagingTexture s)
                  (DXGI.g_BackBuffer s)).
  { intros e s px py Hp Ho. eexists.
    split; [apply (render_pointer_outside _ _ _ _ _ Hp Ho)|reflexivity]. }
  assert (Hgdi : forall e ci s,
            GDI.cursor_info e = Some ci ->
            ~ (0 <= GDI.ptScreenPos_x ci < 1920 /\
               0 <= GDI.ptScreenPos_y ci < 1080) ->
            GDI.g_pBitmapBits (GDI.draw_cursor icon e s) = GDI.g_pBitmapBits s).
  { intros e ci s Hci Ho. unfold GDI.draw_cursor. rewrite Hci.
    destruct (_ =? 0); [reflexivity|].
    rewrite gdi_in_source_false by exact Ho.
    unfold GDI.cache_cursor. destruct (_ =? _); [reflexivity|].
    destruct (GDI.icon_info e) as [[? ?]|], (GDI.frame_info e) as [[? ?]|];
      reflexivity. }
  split; [|split; [exact Hout|split; [|split; [reflexivity|split]]]].
  - intros e s px py cur Hp Hco Hmo Hx Hy Hb Hcw Hch Hwf Hcv Hs Hbb dx dy before.
    unfold cursor_wf in Hwf. rewrite Hb in Hwf.
    destruct (draw_cursor_covered (DXGI.cursor s) cur before
                (Z.quot ((px - DXGI.FIRST_MONITOR_X) * DXGI.RENDER_WIDTH)
                   DXGI.SOURCE_WIDTH)
                (py - DXGI.FIRST_MONITOR_Y) Hb Hcw Hch Hwf Hcv
                (rendered_is_byte sample _ _ Hs Hbb))
      as (d' & E & Hin).
    unfold DXGI.render_and_present. rewrite Hp.
    rewrite in_source_true by assumption. rewrite Hb.
    fold before. rewrite Hco, Hmo, E. cbn [mbind option_bind].
    eexists. split; [reflexivity|].
    intros x y Hx' Hy' HX HY. cbn [DXGI.g_BackBuffer DXGI.emit DXGI.set_back].
    cbn [texels with_texels].
    assert (Edy : dy = py - DXGI.FIRST_MONITOR_Y
                       - g_CursorHotspotY (DXGI.cursor s)).
    { unfold dy, spec_cursor_dest, DXGI.RENDER_HEIGHT, DXGI.SOURCE_HEIGHT.
      rewrite Z.quot_mul by lia. reflexivity. }
    rewrite Edy in *.
    apply (Hin x y); assumption.
  - exact Hgdi.
  - intros e s Hp. apply (Hout e s 1920 0 Hp). lia.
  - intros e ci s Hci Hx Hy. apply (Hgdi e ci s Hci). lia.
Qed.

(** ** The pad region in [main_gdi.cpp] *)

Lemma fill_loop_spec n lo pixels i :
  GDI.fill_loop n lo pixels i =
  if (lo <=? i) && (i <? lo + Z.of_nat n) then GDI.OPAQUE_BLACK else pixels i.
Proof.
  revert lo pixels. induction n as [|n IH]; intros lo pixels.
  - simpl GDI.fill_loop.
    destruct (Z.leb_spec lo i), (Z.ltb_spec i (lo + Z.of_nat 0));
      simpl; reflexivity || lia.
  - simpl GDI.fill_loop. rewrite IH. unfold upd.
    destruct (Z.leb_spec (lo + 1) i), (Z.ltb_spec i (lo + 1 + Z.of_nat n)),
      (Z.leb_spec lo i), (Z.ltb_spec i (lo + Z.of_nat (S n))),
      (Z.eqb_spec i lo); simpl; reflexivity || lia.
Qed.

Lemma InitGDI_black exclude bits i :
  0 <= i < GDI.OUTPUT_WIDTH * GDI.OUTPUT_HEIGHT ->
  GDI.g_pBitmapBits (GDI.InitGDI exclude bits) i = GDI.OPAQUE_BLACK.
Proof.
  intros Hi. unfold GDI.InitGDI. cbn [GDI.g_pBitmapBits].
  rewrite fill_loop_spec.
  rewrite Z2Nat.id by (unfold GDI.OUTPUT_WIDTH, GDI.OUTPUT_HEIGHT; lia).
  destruct (Z.leb_spec 0 i); [|lia].
  destruct (Z.ltb_spec i (0 + GDI.OUTPUT_WIDTH * GDI.OUTPUT_HEIGHT)); [|lia].
  reflexivity.
Qed.

Lemma gdi_cache_bits e ci s :
  GDI.g_pBitmapBits (GDI.cache_cursor e ci s) = GDI.g_pBitmapBits s.
Proof.
  unfold GDI.cache_cursor. destruct (_ =? _); [reflexivity|].
  destruct (GDI.icon_info e) as [[? ?]|], (GDI.frame_info e) as [[? ?]|];
    reflexivity.
Qed.

Lemma gdi_draw_cursor_pad icon e s i :
  GDI.in_rect GDI.RENDER_WIDTH GDI.RENDER_HEIGHT i = false ->
  GDI.g_pBitmapBits (GDI.draw_cursor icon e s) i = GDI.g_pBitmapBits s i.
Proof.
  intros Hi. unfold GDI.draw_cursor.
  destruct (GDI.cursor_info e) as [ci|]; [|reflexivity].
  destruct (_ =? 0); [reflexivity|].
  destruct (_ && _).
  - cbn [GDI.g_pBitmapBits GDI.set_bits]. unfold GDI.DrawIconEx.
    rewrite Hi, gdi_cache_bits. reflexivity.
  - rewrite gdi_cache_bits. reflexivity.
Qed.

Lemma gdi_tick_pad stretched icon e s i :
  GDI.in_rect GDI.RENDER_WIDTH GDI.RENDER_HEIGHT i = false ->
  GDI.g_pBitmapBits (GDI.CaptureAndRender stretched icon e s) i =
  GDI.g_pBitmapBits s i.
Proof.
  intros Hi. unfold GDI.CaptureAndRender.
  set (s1 := if GDI.g_UseExcludeFromCapture s then s
             else GDI.emit GDI.HideWindow s).
  assert (E1 : GDI.g_pBitmapBits s1 = GDI.g_pBitmapBits s)
    by (unfold s1; destruct (GDI.g_UseExcludeFromCapture s); reflexivity).
  set (s2 := GDI.set_bits _ s1).
  set (s3 := GDI.draw_cursor icon e s2).
  assert (E3 : GDI.g_pBitmapBits s3 i = GDI.g_pBitmapBits s i).
  { unfold s3. rewrite gdi_draw_cursor_pad by exact Hi.
    unfold s2. cbn [GDI.g_pBitmapBits GDI.set_bits]. unfold GDI.StretchBlt.
    rewrite Hi, E1. reflexivity. }
  destruct (GDI.g_UseExcludeFromCapture s3); cbn [GDI.g_pBitmapBits GDI.emit];
    exact E3.
Qed.

Lemma gdi_ticks_pad stretched icon inputs s i :
  GDI.in_rect GDI.RENDER_WIDTH GDI.RENDER_HEIGHT i = false ->
  GDI.g_pBitmapBits (GDI.ticks stretched icon inputs s) i =
  GDI.g_pBitmapBits s i.
Proof.
  intros Hi. revert s. induction inputs as [|e rest IH]; intros s.
  - reflexivity.
  - simpl. rewrite IH. apply gdi_tick_pad. exact Hi.
Qed.

(** ** The pad region in [main_dxgi.cpp] *)

Lemma texel_bytes_inj pitch W X1 Y1 X2 Y2 j :
  4 * W <= pitch -> 0 <= X1 < W -> 0 <= X2 < W ->
  texel_bytes pitch X1 Y1 j -> texel_bytes pitch X2 Y2 j ->
  X1 = X2 /\ Y1 = Y2.
Proof.
  unfold texel_bytes. intros Hp H1 H2 B1 B2.
  assert (Y1 = Y2).
  { destruct (Z.lt_trichotomy Y1 Y2) as [L|[L|L]]; [|exact L|].
    - assert ((Y1 + 1) * pitch <= Y2 * pitch)
        by (apply Z.mul_le_mono_nonneg_r; lia). lia.
    - assert ((Y2 + 1) * pitch <= Y1 * pitch)
        by (apply Z.mul_le_mono_nonneg_r; lia). lia. }
  subst Y2. split; [lia|reflexivity].
Qed.

(** What [DrawCursorOnTexture] leaves alone, whatever the cursor holds. *)
Lemma draw_frame create_ok map_ok c t cx cy t' :
  DrawCursorOnTexture create_ok map_ok c t cx cy = Some t' ->
  canvas_wf t ->
  desc_Width t' = desc_Width t /\ desc_Height t' = desc_Height t /\
  RowPitch t' = RowPitch t /\
  forall j,
    (forall x y,
       0 <= x < g_CursorWidth c -> 0 <= y < g_CursorHeight c ->
       0 <= cx - g_CursorHotspotX c + x < desc_Width t ->
       0 <= cy - g_CursorHotspotY c + y < desc_Height t ->
       ~ texel_bytes (RowPitch t) (cx - g_CursorHotspotX c + x)
           (cy - g_CursorHotspotY c + y) j) ->
    texels t' j = texels t j.
Proof.
  intros E (HW & HH & Hp & Hsz). unfold DrawCursorOnTexture in E.
  destruct (g_CursorBuffer c) as [cur|]; [|injection E as <-; auto].
  destruct (_ || _); [injection E as <-; auto|].
  destruct create_ok; simpl in E; [|injection E as <-; auto].
  destruct map_ok; simpl in E; [|injection E as <-; auto].
  bind_case E as d' Ed. injection E as <-. cbn [desc_Width desc_Height
    RowPitch texels with_texels]. repeat split.
  intros j Hj.
  apply (blend_loops_uncovered cur (g_CursorWidth c) (g_CursorHeight c)
           (desc_Width t) (desc_Height t) (RowPitch t)
           (cx - g_CursorHotspotX c) (cy - g_CursorHotspotY c)
           HW HH Hp Hsz (texels t) d' j Ed).
  intros (x & y & Hx & Hy & HY & HX & Hb). apply (Hj x y); assumption.
Qed.

Lemma rendered_pad sample src bb :
  output_sized bb -> canvas_wf bb ->
  pad_black (RowPitch bb) (texels (DXGI.rendered sample src bb)).
Proof.
  intros [EW EH] (HW & HH & Hp & Hsz) X Y HX HY.
  unfold DXGI.RENDER_WIDTH, DXGI.OUTPUT_WIDTH, DXGI.OUTPUT_HEIGHT in *.
  unfold texel4.
  assert (L : forall c, 0 <= c < 4 ->
            texels (DXGI.rendered sample src bb) (Y * RowPitch bb + 4 * X + c)
            = if c =? 3 then 255 else 0).
  { intros c Hc. rewrite (rendered_located sample src bb _ X Y c).
    - unfold DXGI.PS, DXGI.OUTPUT_WIDTH.
      destruct (Z.leb_spec (4 * (2 * X + 1)) (3 * (2 * 1920))); [lia|].
      reflexivity.
    - apply locate_texel; lia. }
  pose proof (L 0 ltac:(lia)) as L0. pose proof (L 1 ltac:(lia)) as L1.
  pose proof (L 2 ltac:(lia)) as L2. pose proof (L 3 ltac:(lia)) as L3.
  rewrite Z.add_0_r in L0.
  replace (Y * RowPitch bb + 4 * X + 1 + 1)
    with (Y * RowPitch bb + 4 * X + 2) by lia.
  replace (Y * RowPitch bb + 4 * X + 2 + 1)
    with (Y * RowPitch bb + 4 * X + 3) by lia.
  rewrite L0, L1, L2, L3. reflexivity.
Qed.

(** The cursor step keeps the pad black when the bitmap stays clear of it. *)
Lemma draw_keeps_pad create_ok map_ok c t cx cy t' :
  DrawCursorOnTexture create_ok map_ok c t cx cy = Some t' ->
  output_sized t -> canvas_wf t ->
  cx - g_CursorHotspotX c + g_CursorWidth c <= DXGI.RENDER_WIDTH ->
  pad_black (RowPitch t) (texels t) -> pad_black (RowPitch t) (texels t').
Proof.
  intros E [EW EH] Hwf Hclear Hpad X Y HX HY.
  destruct (draw_frame _ _ _ _ _ _ _ E Hwf) as (_ & _ & _ & F).
  destruct Hwf as (HW & HH & Hp & Hsz).
  rewrite <- (Hpad X Y HX HY). unfold texel4.
  unfold DXGI.RENDER_WIDTH, DXGI.OUTPUT_WIDTH, DXGI.OUTPUT_HEIGHT in *.
  assert (U : forall j, texel_bytes (RowPitch t) X Y j ->
                        texels t' j = texels t j).
  { intros j Hj. apply F. intros x y Hx Hy HX' HY' Hb.
    assert (HXw : 0 <= X < desc_Width t) by lia.
    destruct (texel_bytes_inj (RowPitch t) (desc_Width t) _ _ _ _ j Hp
                HXw HX' Hj Hb) as [EX _]. lia. }
  rewrite !U by (unfold texel_bytes; lia). reflexivity.
Qed.

Lemma pump_fields msgs s :
  DXGI.events (DXGI.pump msgs s) = DXGI.events s /\
  DXGI.g_BackBuffer (DXGI.pump msgs s) = DXGI.g_BackBuffer s /\
  DXGI.cursor (DXGI.pump msgs s) = DXGI.cursor s /\
  DXGI.g_StagingTexture (DXGI.pump msgs s) = DXGI.g_StagingTexture s /\
  DXGI.g_DeskDupl (DXGI.pump msgs s) = DXGI.g_DeskDupl s.
Proof.
  induction msgs as [|m rest IH]; [auto|].
  destruct m as [|w|]; simpl; [auto| |exact IH].
  destruct (w =? 1); [auto|exact IH].
Qed.

(** One call of [render_and_present]: the presented frame is the new back
    buffer, and its pad region is black if the cursor stays clear of it. *)
Lemma render_and_present_pad sample e s s' :
  DXGI.render_and_present sample e s = Some s' ->
  output_sized (DXGI.g_BackBuffer s) -> canvas_wf (DXGI.g_BackBuffer s) ->
  DXGI.cursor s' = DXGI.cursor s /\
  DXGI.events s' =
    DXGI.events s ++ [DXGI.Present (texels (DXGI.g_BackBuffer s'))] /\
  output_sized (DXGI.g_BackBuffer s') /\ canvas_wf (DXGI.g_BackBuffer s') /\
  RowPitch (DXGI.g_BackBuffer s') = RowPitch (DXGI.g_BackBuffer s) /\
  (clear_of_pad e (DXGI.cursor s) ->
   pad_black (RowPitch (DXGI.g_BackBuffer s))
     (texels (DXGI.g_BackBuffer s'))).
Proof.
  intros E Hos Hwf. unfold DXGI.render_and_present in E.
  set (r := DXGI.rendered sample (DXGI.g_StagingTexture s)
              (DXGI.g_BackBuffer s)) in *.
  assert (Hr : output_sized r /\ canvas_wf r /\
               RowPitch r = RowPitch (DXGI.g_BackBuffer s))
    by (repeat split; apply Hos || apply Hwf).
  pose proof (rendered_pad sample (DXGI.g_StagingTexture s) _ Hos Hwf) as Pr.
  fold r in Pr.
  assert (Done : forall bb,
            output_sized bb -> canvas_wf bb ->
            RowPitch bb = RowPitch (DXGI.g_BackBuffer s) ->
            (clear_of_pad e (DXGI.cursor s) ->
             pad_black (RowPitch (DXGI.g_BackBuffer s)) (texels bb)) ->
            Some (DXGI.emit (DXGI.Present (texels bb)) (DXGI.set_back bb s))
            = Some s' ->
            DXGI.cursor s' = DXGI.cursor s /\
            DXGI.events s' =
              DXGI.events s ++ [DXGI.Present (texels (DXGI.g_BackBuffer s'))] /\
            output_sized (DXGI.g_BackBuffer s') /\
            canvas_wf (DXGI.g_BackBuffer s') /\
            RowPitch (DXGI.g_BackBuffer s') = RowPitch (DXGI.g_BackBuffer s) /\
            (clear_of_pad e (DXGI.cursor s) ->
             pad_black (RowPitch (DXGI.g_BackBuffer s))
               (texels (DXGI.g_BackBuffer s')))).
  { intros bb H1 H2 H3 H4 [= <-]. simpl. auto 10. }
  destruct Hr as (Ho & Hw & Hpi).
  destruct (DXGI.cursor_pos e) as [[px py]|] eqn:Ep;
    [|apply (Done r); auto].
  destruct (_ && _); [|apply (Done r); auto].
  destruct (g_CursorBuffer (DXGI.cursor s)); [|apply (Done r); auto].
  bind_case E as bb Eb.
  destruct (draw_frame _ _ _ _ _ _ _ Eb Hw) as (EW & EH & EP & _).
  apply (Done bb); auto.
  - unfold output_sized in *. rewrite EW, EH. exact Ho.
  - unfold canvas_wf in *. rewrite EW, EH, EP. exact Hw.
  - intros Hc. unfold clear_of_pad in Hc. rewrite Ep in Hc.
    rewrite <- Hpi. apply (draw_keeps_pad _ _ _ _ _ _ _ Eb Ho Hw Hc).
    rewrite Hpi. exact Pr.
Qed.

Lemma tick_pad sample e s s' :
  DXGI.CaptureAndRender sample e s = Some s' ->
  output_sized (DXGI.g_BackBuffer s) -> canvas_wf (DXGI.g_BackBuffer s) ->
  output_sized (DXGI.g_BackBuffer s') /\ canvas_wf (DXGI.g_BackBuffer s') /\
  RowPitch (DXGI.g_BackBuffer s') = RowPitch (DXGI.g_BackBuffer s) /\
  (DXGI.acquire e <> DXGI.ACCESS_LOST -> clear_of_pad e (DXGI.cursor s') ->
   pad_black (RowPitch (DXGI.g_BackBuffer s)) (texels (DXGI.g_BackBuffer s'))) /\
  exists new,
    DXGI.events s' = DXGI.events s ++ new /\
    (clear_of_pad e (DXGI.cursor s') ->
     presents_black_pad (RowPitch (DXGI.g_BackBuffer s)) new).
Proof.
  intros E Hos Hwf. unfold DXGI.CaptureAndRender in E.
  destruct (DXGI.g_DeskDupl s) as [[]|]; simpl in E; [|discriminate].
  assert (R : forall s0 pre,
            DXGI.g_BackBuffer s0 = DXGI.g_BackBuffer s ->
            DXGI.events s0 = DXGI.events s ++ pre ->
            presents_black_pad (RowPitch (DXGI.g_BackBuffer s)) pre ->
            DXGI.render_and_present sample e s0 = Some s' ->
            output_sized (DXGI.g_BackBuffer s') /\
            canvas_wf (DXGI.g_BackBuffer s') /\
            RowPitch (DXGI.g_BackBuffer s') = RowPitch (DXGI.g_BackBuffer s) /\
            (DXGI.acquire e <> DXGI.ACCESS_LOST ->
             clear_of_pad e (DXGI.cursor s') ->
             pad_black (RowPitch (DXGI.g_BackBuffer s))
               (texels (DXGI.g_BackBuffer s'))) /\
            exists new,
              DXGI.events s' = DXGI.events s ++ new /\
              (clear_of_pad e (DXGI.cursor s') ->
               presents_black_pad (RowPitch (DXGI.g_BackBuffer s)) new)).
  { intros s0 pre Eb Ee Hpre Er.
    destruct (render_and_present_pad sample e s0 s' Er)
      as (Ec & Ev & Ho & Hw & Hp & Hpad); [rewrite Eb; assumption..|].
    rewrite Eb in Hp, Hpad. rewrite Ec.
    split; [exact Ho|]. split; [exact Hw|]. split; [exact Hp|].
    split; [intros _; exact Hpad|].
    exists (pre ++ [DXGI.Present (texels (DXGI.g_BackBuffer s'))]).
    split; [rewrite Ev, Ee, app_assoc; reflexivity|].
    intros Hc. apply Forall_app. split; [exact Hpre|].
    constructor; [exact (Hpad Hc)|constructor]. }
  destruct (DXGI.acquire e) as [|desktop shape| |] eqn:Ea.
  - apply (R s []); auto; [rewrite app_nil_r; reflexivity|constructor].
  - bind_case E as s1 E1.
    assert (H1 : DXGI.g_BackBuffer s1 = DXGI.g_BackBuffer s /\
                 DXGI.events s1 = DXGI.events s).
    { destruct shape as [| |info buf].
      - injection E1 as <-. destruct desktop; auto.
      - injection E1 as <-. destruct desktop; auto.
      - bind_case E1 as c Ec. injection E1 as <-. destruct desktop; auto. }
    destruct H1 as [Hb He].
    apply (R (DXGI.emit DXGI.FrameRelease s1) [DXGI.FrameRelease]); auto.
    + simpl. rewrite He. reflexivity.
    + repeat constructor.
  - injection E as <-.
    destruct (DXGI.init_dupl e) as [|fresh|fresh]; simpl;
      (split; [exact Hos|]); (split; [exact Hwf|]); (split; [reflexivity|]);
      (split; [congruence|]); eexists;
      (split; [rewrite <- app_assoc; reflexivity|]); intros _;
      repeat constructor.
  - apply (R s []); auto; [rewrite app_nil_r; reflexivity|constructor].
Qed.

Lemma run_pad sample inputs s s' :
  DXGI.run sample inputs s = Some s' ->
  output_sized (DXGI.g_BackBuffer s) -> canvas_wf (DXGI.g_BackBuffer s) ->
  clear_run sample inputs s ->
  exists new,
    DXGI.events s' = DXGI.events s ++ new /\
    presents_black_pad (RowPitch (DXGI.g_BackBuffer s)) new.
Proof.
  revert s. induction inputs as [|[msgs e] rest IH]; intros s E Hos Hwf Hc.
  - injection E as <-. exists []. split; [rewrite app_nil_r; reflexivity|].
    constructor.
  - cbn [DXGI.run clear_run] in E, Hc. destruct (DXGI.g_Running s).
    + bind_case E as s1 E1. destruct Hc as [Hc1 Hcr].
      destruct (pump_fields msgs s) as (Pe & Pb & _).
      assert (T : output_sized (DXGI.g_BackBuffer s1) /\
                  canvas_wf (DXGI.g_BackBuffer s1) /\
                  RowPitch (DXGI.g_BackBuffer s1) =
                    RowPitch (DXGI.g_BackBuffer s) /\
                  exists new,
                    DXGI.events s1 = DXGI.events s ++ new /\
                    presents_black_pad (RowPitch (DXGI.g_BackBuffer s)) new).
      { unfold DXGI.iteration in E1.
        destruct (DXGI.g_Running (DXGI.pump msgs s)).
        - destruct (tick_pad sample e _ s1 E1)
            as (Ho & Hw & Hp & _ & new & Ev & Hn);
            [rewrite Pb; assumption..|].
          rewrite Pb in Hp, Hn. rewrite Pe in Ev.
          split; [exact Ho|]. split; [exact Hw|]. split; [exact Hp|].
          exists new. split; [exact Ev|exact (Hn Hc1)].
        - injection E1 as <-. rewrite Pb, Pe.
          split; [exact Hos|]. split; [exact Hwf|]. split; [reflexivity|].
          exists []. split; [rewrite app_nil_r; reflexivity|constructor]. }
      destruct T as (Ho & Hw & Hp & new1 & Ev1 & Hn1).
      destruct (IH s1 E Ho Hw Hcr) as (new2 & Ev2 & Hn2).
      exists (new1 ++ new2). split.
      * rewrite Ev2, Ev1, app_assoc. reflexivity.
      * apply Forall_app. split; [exact Hn1|]. rewrite <- Hp. exact Hn2.
    + injection E as <-. exists []. split; [rewrite app_nil_r; reflexivity|].
      constructor.
Qed.

Lemma gdi_pad_index x y :
  GDI.RENDER_WIDTH <= x < GDI.OUTPUT_WIDTH -> 0 <= y < GDI.OUTPUT_HEIGHT ->
  0 <= y * GDI.OUTPUT_WIDTH + x < GDI.OUTPUT_WIDTH * GDI.OUTPUT_HEIGHT /\
  GDI.in_rect GDI.RENDER_WIDTH GDI.RENDER_HEIGHT (y * GDI.OUTPUT_WIDTH + x)
  = false.
Proof.
  unfold GDI.in_rect, GDI.RENDER_WIDTH, GDI.OUTPUT_WIDTH, GDI.OUTPUT_HEIGHT,
    GDI.RENDER_HEIGHT. intros Hx Hy. split; [lia|].
  assert (Hm : (y * 1920 + x) mod 1920 = x)
    by (symmetry; apply (Z.mod_unique _ _ y); lia).
  rewrite Hm. destruct (Z.ltb_spec x 1440); [lia|].
  rewrite andb_false_r. reflexivity.
Qed.

(** C7 as stated fails in [main_dxgi.cpp]: a pad texel left white by a
    cursor that reached column 1440 is black again after the next call, so
    the scaling pass writes the pad region on every call. *)
Lemma dxgi_pad_rewritten :
  match DXGI.CaptureAndRender nearest bleed_tick dxgi_boot with
  | Some s1 =>
      match DXGI.CaptureAndRender nearest (timeout_tick 0 0) s1 with
      | Some s2 =>
          texels (DXGI.g_BackBuffer s1) (0 * 7680 + 4 * 1440) = 255 /\
          texels (DXGI.g_BackBuffer s2) (0 * 7680 + 4 * 1440) <>
          texels (DXGI.g_BackBuffer s1) (0 * 7680 + 4 * 1440)
      | None => False
      end
  | None => False
  end.
Proof. vm_compute. split; [reflexivity|discriminate]. Qed.

(** C7 (as the code behaves).  In [main_gdi.cpp] the whole buffer is filled
    with opaque black once by [InitGDI], no call of [CaptureAndRender] changes
    a pixel outside the render rectangle, and so after any number of calls
    every pad pixel is opaque black.  In [main_dxgi.cpp] nothing is filled at
    start-up: every call that renders clears the target and the shader writes
    opaque black to every pad texel, so every frame presented by calls whose
    cursor bitmap stays left of column 1440 has a black pad region. *)
Theorem pad_region_stays_black
    (stretched : (Z -> Z -> Z) -> Z -> Z -> Z)
    (icon : Z -> (Z -> Z) -> Z -> Z -> Z -> Z -> Z)
    (sample : (Z -> Z) -> Z -> Z -> Z -> Z) :
  (forall exclude bits i,
     0 <= i < GDI.OUTPUT_WIDTH * GDI.OUTPUT_HEIGHT ->
     GDI.g_pBitmapBits (GDI.InitGDI exclude bits) i = GDI.OPAQUE_BLACK) /\
  (forall e s i,
     GDI.in_rect GDI.RENDER_WIDTH GDI.RENDER_HEIGHT i = false ->
     GDI.g_pBitmapBits (GDI.CaptureAndRender stretched icon e s) i =
     GDI.g_pBitmapBits s i) /\
  (forall inputs exclude bits x y,
     GDI.RENDER_WIDTH <= x < GDI.OUTPUT_WIDTH -> 0 <= y < GDI.OUTPUT_HEIGHT ->
     GDI.g_pBitmapBits
       (GDI.ticks stretched icon inputs (GDI.InitGDI exclude bits))
       (y * GDI.OUTPUT_WIDTH + x) = GDI.OPAQUE_BLACK) /\
  (forall e s s',
     DXGI.CaptureAndRender sample e s = Some s' ->
     DXGI.acquire e <> DXGI.ACCESS_LOST ->
     output_sized (DXGI.g_BackBuffer s) -> canvas_wf (DXGI.g_BackBuffer s) ->
     clear_of_pad e (DXGI.cursor s') ->
     pad_black (RowPitch (DXGI.g_BackBuffer s))
       (texels (DXGI.g_BackBuffer s'))) /\
  (forall inputs s s',
     DXGI.run sample inputs s = Some s' ->
     output_sized (DXGI.g_BackBuffer s) -> canvas_wf (DXGI.g_BackBuffer s) ->
     clear_run sample inputs s ->
     exists new,
       DXGI.events s' = DXGI.events s ++ new /\
       presents_black_pad (RowPitch (DXGI.g_BackBuffer s)) new).
Proof.
  split; [exact InitGDI_black|].
  split; [intros e s i; apply gdi_tick_pad|].
  split; [|split].
  - intros inputs exclude bits x y Hx Hy.
    destruct (gdi_pad_index x y Hx Hy) as [Hr Hp].
    rewrite gdi_ticks_pad by exact Hp. apply InitGDI_black. exact Hr.
  - intros e s s' E Ha Hos Hwf Hc.
    destruct (tick_pad sample e s s' E Hos Hwf) as (_ & _ & _ & P & _).
    exact (P Ha Hc).
  - intros inputs s s' E Hos Hwf Hc.
    exact (run_pad sample inputs s s' E Hos Hwf Hc).
Qed.

Lemma pad_region_stays_black_witness :
  GDI.g_pBitmapBits
    (GDI.ticks (fun scr x y => scr x y) (fun _ _ _ _ _ _ => 16777215)
       [arrow_tick 100 50; arrow_tick 1919 500]
       (GDI.InitGDI true (fun _ => 0)))
    (10 * GDI.OUTPUT_WIDTH + 1500) = GDI.OPAQUE_BLACK /\
  exists new,
    DXGI.events
      (default dxgi_boot
         (DXGI.run nearest [([], timeout_tick 1900 50); ([], timeout_tick 5 5)]
            (DXGI.set_cursor white_dot dxgi_boot)))
    = [] ++ new /\
    presents_black_pad 7680 new.
Proof.
  split.
  - apply (proj1 (proj2 (proj2 (pad_region_stays_black
             (fun scr x y => scr x y) (fun _ _ _ _ _ _ => 16777215) nearest))));
      unfold GDI.RENDER_WIDTH, GDI.OUTPUT_WIDTH, GDI.OUTPUT_HEIGHT; lia.
  - apply (proj2 (proj2 (proj2 (proj2 (pad_region_stays_black
             (fun scr x y => scr x y) (fun _ _ _ _ _ _ => 16777215) nearest))))
             [([], timeout_tick 1900 50); ([], timeout_tick 5 5)]
             (DXGI.set_cursor white_dot dxgi_boot)).
    + reflexivity.
    + split; reflexivity.
    + unfold canvas_wf. simpl. lia.
    + vm_compute. intuition discriminate.
Defined.

(** ** Re-rendering on a timeout *)

Section LoopExt.

Context {S : Type} (R : S -> S -> Prop) (body : Z -> S -> option S).

Hypothesis body_ext : forall k s t s',
  R s t -> body k s = Some s' -> exists t', body k t = Some t' /\ R s' t'.


End LoopExt.




Lemma draw_total create_ok map_ok c t cx cy :
  cursor_wf c ->
  exists t', DrawCursorOnTexture create_ok map_ok c t cx cy = Some t'.
Proof.
  intros Hwf. unfold DrawCursorOnTexture, cursor_wf in *.
  destruct (g_CursorBuffer c) as [cur|]; [|eauto].
  destruct (_ || _); [eauto|].
  destruct create_ok; simpl; [|eauto]. destruct map_ok; simpl; [|eauto].
  destruct Hwf as [Hlen _].
  destruct (blend_loops_total cur (g_CursorWidth c) (g_CursorHeight c)
              (desc_Width t) (desc_Height t) (RowPitch t)
              (cx - g_CursorHotspotX c) (cy - g_CursorHotspotY c) Hlen
              (texels t)) as [d' E].
  rewrite E. simpl. eauto.
Qed.

Lemma render_total sample e s :
  cursor_wf (DXGI.cursor s) ->
  exists s',
    DXGI.render_and_present sample e s = Some s' /\
    DXGI.g_StagingTexture s' = DXGI.g_StagingTexture s /\
    DXGI.cursor s' = DXGI.cursor s /\
    DXGI.g_DeskDupl s' = DXGI.g_DeskDupl s /\
    DXGI.g_Running s' = DXGI.g_Running s /\
    DXGI.events s' =
      DXGI.events s ++ [DXGI.Present (texels (DXGI.g_BackBuffer s'))].
Proof.
  intros Hwf. unfold DXGI.render_and_present.
  set (r := DXGI.rendered sample _ _).
  destruct (draw_total (DXGI.create_ok e) (DXGI.map_ok e) (DXGI.cursor s) r
              (Z.quot ((fst (default (0, 0) (DXGI.cursor_pos e))
                        - DXGI.FIRST_MONITOR_X) * DXGI.RENDER_WIDTH)
                 DXGI.SOURCE_WIDTH)
              (snd (default (0, 0) (DXGI.cursor_pos e))
               - DXGI.FIRST_MONITOR_Y) Hwf) as [t' Et].
  destruct (DXGI.cursor_pos e) as [[px py]|]; simpl in Et;
    [|eexists; split; [reflexivity|simpl; auto 10]].
  destruct (_ && _); [|eexists; split; [reflexivity|simpl; auto 10]].
  destruct (g_CursorBuffer (DXGI.cursor s));
    [|eexists; split; [reflexivity|simpl; auto 10]].
  rewrite Et. simpl. eexists. split; [reflexivity|simpl; auto 10].
Qed.


(** The cursor step writes texel bytes only. *)
Lemma draw_unlocated create_ok map_ok c t cx cy t' j :
  DrawCursorOnTexture create_ok map_ok c t cx cy = Some t' ->
  canvas_wf t -> locate t j = None -> texels t' j = texels t j.
Proof.
  intros E Hwf Hl.
  destruct (draw_frame _ _ _ _ _ _ _ E Hwf) as (_ & _ & _ & F).
  apply F. intros x y Hx Hy HX HY Hb. destruct Hwf as (HW & HH & Hp & Hsz).
  unfold texel_bytes in Hb.
  pose proof (locate_texel t _ _
                (j - ((cy - g_CursorHotspotY c + y) * RowPitch t
                      + 4 * (cx - g_CursorHotspotX c + x)))
                HX HY ltac:(lia) Hp) as L.
  replace ((cy - g_CursorHotspotY c + y) * RowPitch t
           + 4 * (cx - g_CursorHotspotX c + x)
           + (j - ((cy - g_CursorHotspotY c + y) * RowPitch t
                   + 4 * (cx - g_CursorHotspotX c + x))))
    with j in L by lia.
  congruence.
Qed.

Lemma same_image_refl t : same_image t t.
Proof. repeat split. Qed.


Lemma copy_resource_texel dst src x y c :
  0 <= x < desc_Width dst -> 0 <= y < desc_Height dst -> 0 <= c < 4 ->
  4 * desc_Width dst <= RowPitch dst ->
  Dupl.texel (Dupl.CopyResource dst src) x y c = Dupl.texel src x y c.
Proof.
  intros Hx Hy Hc Hp. unfold Dupl.texel at 1, Dupl.CopyResource.
  cbn [texels with_texels RowPitch]. rewrite locate_texel by assumption.
  reflexivity.
Qed.





Lemma nearest_is_byte src x y c : is_byte (nearest src x y c).
Proof. unfold nearest, to_byte, is_byte. apply Z.mod_pos_bound. lia. Qed.

Lemma cursor_destination_witness :
  exists s',
    DXGI.render_and_present nearest (timeout_tick 100 50)
      (DXGI.set_cursor white_dot dxgi_boot) = Some s' /\
    forall x y,
      0 <= x < 1 -> 0 <= y < 1 ->
      0 <= spec_cursor_dest 100 0 1440 1920 0 + x < 1920 ->
      0 <= spec_cursor_dest 50 0 1080 1080 0 + y < 1080 ->
      texel4 (texels (DXGI.g_BackBuffer s')) 7680
        (spec_cursor_dest 100 0 1440 1920 0 + x)
        (spec_cursor_dest 50 0 1080 1080 0 + y) =
      spec_blend_pixel (pixel_at [255; 255; 255; 255] 1 x y)
        (texel4 (texels (DXGI.rendered nearest (fun _ => 0) canvas0)) 7680
           (spec_cursor_dest 100 0 1440 1920 0 + x)
           (spec_cursor_dest 50 0 1080 1080 0 + y)).
Proof.
  apply (proj1 (cursor_destination nearest (fun _ _ _ _ _ _ => 0))
           (timeout_tick 100 50) (DXGI.set_cursor white_dot dxgi_boot)
           100 50 [255; 255; 255; 255]);
    try reflexivity; try (simpl; lia).
  - split; [reflexivity|]. repeat constructor; unfold is_byte; lia.
  - unfold canvas_wf. simpl. lia.
  - exact nearest_is_byte.
  - intros j. unfold is_byte. simpl. lia.
Defined.

(** With the pointer at (100, 50) the white dot is on texel (75, 50) of the
    presented frame and nowhere near (100, 50). *)
Example dot_lands_scaled :
  option_map
    (fun s' => map (texels (DXGI.g_BackBuffer s'))
                 [50 * 7680 + 4 * 75; 50 * 7680 + 4 * 75 + 3;
                  50 * 7680 + 4 * 100])
    (DXGI.render_and_present nearest (timeout_tick 100 50)
       (DXGI.set_cursor white_dot dxgi_boot))
  = Some [255; 255; 0].
Proof. vm_compute. reflexivity. Qed.

(** ** Pacing *)

Lemma Qfloor_lt_ceiling_step x f :
  (inject_Z f < x)%Q -> f + 1 <= Qceiling x.
Proof.
  intros H. pose proof (Qle_ceiling x) as Hc.
  assert (Hlt : (inject_Z f < inject_Z (Qceiling x))%Q)
    by (eapply Qlt_le_trans; eassumption).
  rewrite <- Zlt_Qlt in Hlt. lia.
Qed.

Lemma Qfloor_le_ceiling x : Qfloor x <= Qceiling x.
Proof.
  pose proof (Qfloor_le x) as Hf. pose proof (Qle_ceiling x) as Hc.
  assert (H : (inject_Z (Qfloor x) <= inject_Z (Qceiling x))%Q)
    by (eapply Qle_trans; eassumption).
  rewrite <- Zle_Qle in H. exact H.
Qed.

Lemma round_even_bounds x :
  Qfloor x <= Pacer.round_even x <= Qceiling x.
Proof.
  unfold Pacer.round_even.
  pose proof (Qfloor_le_ceiling x) as Hfc.
  assert (Up : (1 # 2 <= x - inject_Z (Qfloor x))%Q ->
               Qfloor x + 1 <= Qceiling x).
  { intros H. apply Qfloor_lt_ceiling_step.
    apply Qlt_minus_iff. eapply Qlt_le_trans; [|exact H]. reflexivity. }
  destruct (Qcompare_spec (x - inject_Z (Qfloor x)) (1 # 2)) as [E|L|G].
  - destruct (Z.even (Qfloor x)); [lia|].
    split; [lia|]. apply Up. rewrite E. apply Qle_refl.
  - lia.
  - split; [lia|]. apply Up. apply Qlt_le_weak. exact G.
Qed.

Lemma pow2_nonpos k :
  k <= 0 -> Pacer.pow2 k = 1 # Z.to_pos (2 ^ (- k)).
Proof.
  intros Hk. unfold Pacer.pow2.
  destruct (Z.leb_spec 0 k); [|reflexivity].
  replace k with 0 by lia. reflexivity.
Qed.

(** Rounding to a grid of step [1 / P] stays between the integers around
    the argument. *)
Lemma round_on_fine_grid x P :
  (inject_Z (Qfloor x)
   <= inject_Z (Pacer.round_even (x / (1 # P))) * (1 # P))%Q /\
  (inject_Z (Pacer.round_even (x / (1 # P))) * (1 # P)
   <= inject_Z (Qceiling x))%Q.
Proof.
  set (y := (x / (1 # P))%Q).
  assert (Ey : (y == x * inject_Z (Zpos P))%Q).
  { unfold y, Qdiv, Qinv. simpl. reflexivity. }
  pose proof (round_even_bounds y) as [Hlo Hhi].
  assert (Lo : Qfloor x * Zpos P <= Qfloor y).
  { rewrite <- (Qfloor_Z (Qfloor x * Zpos P)). apply Qfloor_resp_le.
    rewrite Ey, inject_Z_mult. apply Qmult_le_compat_r; [apply Qfloor_le|].
    unfold Qle. simpl. lia. }
  assert (Hi : Qceiling y <= Qceiling x * Zpos P).
  { rewrite <- (Qceiling_Z (Qceiling x * Zpos P)). apply Qceiling_resp_le.
    rewrite Ey, inject_Z_mult. apply Qmult_le_compat_r; [apply Qle_ceiling|].
    unfold Qle. simpl. lia. }
  unfold Qle. simpl. rewrite !Z.mul_1_r. split; lia.
Qed.

Lemma ilog2_below_53 n d :
  0 < n -> n < 2 ^ 53 * Zpos d -> Pacer.ilog2 (n # d) <= 52.
Proof.
  intros Hn Hlt. unfold Pacer.ilog2. cbn [Qnum Qden].
  rewrite Z.abs_eq by lia.
  set (b := Z.log2 (Zpos d)).
  assert (Hb : 0 <= b) by apply Z.log2_nonneg.
  assert (Hd : Zpos d < 2 ^ (b + 1)).
  { apply Z.log2_lt_pow2; [lia|]. unfold b. lia. }
  assert (Ha : Z.log2 n < b + 54).
  { apply Z.log2_lt_pow2; [lia|].
    replace (b + 54) with (53 + (b + 1)) by lia.
    rewrite Z.pow_add_r by lia. nia. }
  destruct (Qle_bool (Pacer.pow2 (Z.log2 n - b)) (n # d)) eqn:E; [|lia].
  destruct (Z_le_dec (Z.log2 n - b) 52); [lia|].
  assert (Ee : Z.log2 n - b = 53) by lia.
  rewrite Ee in E. apply Qle_bool_imp_le in E.
  unfold Pacer.pow2, Qle in E. simpl in E. lia.
Qed.

(** Rounding to binary64 a value below [2 ^ 53] stays between the integers
    around it. *)
Lemma RN_bounds x :
  (0 <= x)%Q -> (x < inject_Z (2 ^ 53))%Q ->
  (inject_Z (Qfloor x) <= Pacer.RN x)%Q /\
  (Pacer.RN x <= inject_Z (Qceiling x))%Q.
Proof.
  intros H0 H53. unfold Pacer.RN.
  pose proof (Qred_correct x) as Er.
  destruct (Qeq_bool (Qred x) 0) eqn:Ez.
  - apply Qeq_bool_eq in Ez. rewrite Er in Ez.
    rewrite (Qfloor_comp _ _ Ez), (Qceiling_comp _ _ Ez). split; apply Qle_refl.
  - apply Qeq_bool_neq in Ez.
    rewrite <- (Qfloor_comp _ _ Er), <- (Qceiling_comp _ _ Er).
    rewrite <- Er in H0, H53.
    destruct (Qred x) as [n d] eqn:Ex.
    assert (Hn : 0 < n).
    { unfold Qle in H0. simpl in H0. unfold Qeq in Ez. simpl in Ez. lia. }
    assert (Hlt : n < 2 ^ 53 * Zpos d).
    { unfold Qlt in H53. simpl in H53. lia. }
    pose proof (ilog2_below_53 n d Hn Hlt) as Hl.
    set (k := Z.max (Pacer.ilog2 (n # d) - 52) (- 1074)).
    assert (Hk : k <= 0) by (unfold k; lia).
    rewrite (pow2_nonpos k Hk), Qred_correct.
    apply round_on_fine_grid.
Qed.

Lemma RN_comp x y : (x == y)%Q -> Pacer.RN x = Pacer.RN y.
Proof.
  intros E. unfold Pacer.RN. rewrite (Qred_complete _ _ E). reflexivity.
Qed.

(** Integers below [2 ^ 53] are binary64 numbers. *)
Lemma RN_integer z :
  0 <= z < 2 ^ 53 -> Pacer.RN (inject_Z z) = inject_Z z.
Proof.
  intros Hz.
  assert (B : (inject_Z (Qfloor (inject_Z z)) <= Pacer.RN (inject_Z z))%Q /\
              (Pacer.RN (inject_Z z) <= inject_Z (Qceiling (inject_Z z)))%Q).
  { apply RN_bounds.
    - unfold Qle. simpl. lia.
    - rewrite <- Zlt_Qlt. lia. }
  rewrite Qfloor_Z, Qceiling_Z in B. destruct B as [B1 B2].
  assert (E : (Pacer.RN (inject_Z z) == inject_Z z)%Q)
    by (apply Qle_antisym; assumption).
  assert (R : Pacer.RN (inject_Z z) = Qred (Pacer.RN (inject_Z z))).
  { unfold Pacer.RN. destruct (Qeq_bool _ 0); [reflexivity|].
    symmetry. apply Qred_complete. apply Qred_correct. }
  rewrite R, (Qred_complete _ _ E).
  apply Qcanon.Qred_identity. simpl. apply Z.gcd_1_r.
Qed.

Lemma to_DWORD_floor q :
  (0 <= q)%Q -> (q < inject_Z (2 ^ 32))%Q ->
  Pacer.to_DWORD (Pacer.Finite q) = Qfloor q.
Proof.
  intros H0 H32. unfold Pacer.to_DWORD.
  assert (Hf : 0 <= Qfloor q < 2 ^ 32).
  { split.
    - change 0 with (Qfloor 0). apply Qfloor_resp_le. exact H0.
    - rewrite Zlt_Qlt. eapply Qle_lt_trans; [apply Qfloor_le|exact H32]. }
  destruct q as [n d]. unfold Qfloor in *. cbn [Qnum Qden].
  assert (Hn : 0 <= n) by (unfold Qle in H0; simpl in H0; lia).
  rewrite Z.quot_div_nonneg by lia.
  destruct (Z.leb_spec (- 2 ^ 63) (n / Zpos d)); [|lia].
  destruct (Z.ltb_spec (n / Zpos d) (2 ^ 63)); [|lia].
  cbn [andb]. unfold wrap32. apply Z.mod_small. lia.
Qed.

Lemma Qfloor_shift a y : Qfloor (inject_Z a + y) = a + Qfloor y.
Proof.
  destruct y as [n d]. unfold Qfloor, Qplus. cbn [Qnum Qden inject_Z].
  rewrite Pos.mul_1_l, Z.mul_1_r. apply Z.div_add_l. lia.
Qed.

Lemma Qfloor_minus a e : Qfloor (inject_Z a - e) = a - Qceiling e.
Proof.
  unfold Qminus. rewrite Qfloor_shift. unfold Qceiling.
  generalize (Qfloor (- e)). intros z. lia.
Qed.

Lemma Qceiling_minus a e : Qceiling (inject_Z a - e) = a - Qfloor e.
Proof.
  unfold Qceiling.
  assert (E : (- (inject_Z a - e) == inject_Z (- a) + e)%Q).
  { rewrite inject_Z_opp. ring. }
  rewrite (Qfloor_comp _ _ E), Qfloor_shift.
  generalize (Qfloor e). intros z. lia.
Qed.

(** What [pace] does with a finite elapsed time below the frame time. *)
Lemma pace_remaining e :
  (0 <= e)%Q -> (e < inject_Z 16)%Q ->
  exists ms,
    Pacer.pace (Pacer.Finite e) = Some ms /\
    ms = Qfloor (Pacer.RN (inject_Z 16 - e)) /\
    Qfloor (inject_Z 16 - e) <= ms <= Qceiling (inject_Z 16 - e).
Proof.
  intros H0 H16. unfold Pacer.pace. change Pacer.FRAME_TIME_MS with 16.
  destruct (Qlt_le_dec e (inject_Z 16)) as [_|Hge];
    [|exfalso; apply (Qlt_irrefl e); eapply Qlt_le_trans; eassumption].
  set (r := (inject_Z 16 - e)%Q).
  assert (Hr0 : (0 <= r)%Q).
  { unfold r. apply Qlt_le_weak. rewrite <- (Qplus_opp_r e).
    apply Qplus_lt_l. exact H16. }
  assert (Hr16 : (r <= inject_Z 16)%Q).
  { unfold r. rewrite <- (Qplus_0_r (inject_Z 16)) at 2.
    apply Qplus_le_r. rewrite <- (Qopp_involutive 0).
    apply Qopp_le_compat. exact H0. }
  destruct (RN_bounds r Hr0) as [Blo Bhi].
  { eapply Qle_lt_trans; [exact Hr16|]. rewrite <- Zlt_Qlt. lia. }
  assert (Hc : Qceiling r <= 16).
  { rewrite <- (Qceiling_Z 16). apply Qceiling_resp_le. exact Hr16. }
  assert (Hf : 0 <= Qfloor r).
  { change 0 with (Qfloor 0). apply Qfloor_resp_le. exact Hr0. }
  eexists. split; [reflexivity|].
  rewrite to_DWORD_floor.
  - split; [reflexivity|]. split.
    + rewrite <- (Qfloor_Z (Qfloor r)). apply Qfloor_resp_le. exact Blo.
    + rewrite <- (Qfloor_Z (Qceiling r)). apply Qfloor_resp_le. exact Bhi.
  - eapply Qle_trans; [|exact Blo]. change 0%Q with (inject_Z 0).
    rewrite <- Zle_Qle. exact Hf.
  - eapply Qle_lt_trans; [exact Bhi|]. rewrite <- Zlt_Qlt. lia.
Qed.

Lemma pace_late e :
  (inject_Z 16 <= e)%Q -> Pacer.pace (Pacer.Finite e) = None.
Proof.
  intros Hge. unfold Pacer.pace. change Pacer.FRAME_TIME_MS with 16.
  destruct (Qlt_le_dec e (inject_Z 16)) as [Hlt|_]; [|reflexivity].
  exfalso. apply (Qlt_irrefl e). eapply Qlt_le_trans; eassumption.
Qed.

(** C9 as stated fails: with 5.5 ms elapsed (55000 ticks of a 10 MHz
    counter) the thread sleeps 10 ms, not the remaining 10.5 ms. *)
Lemma sleep_is_truncated :
  Pacer.elapsedMs 10000000 0 55000 = Pacer.Finite (11 # 2) /\
  Pacer.pace (Pacer.Finite (11 # 2)) = Some 10 /\
  ~ (inject_Z 10 == inject_Z Pacer.FRAME_TIME_MS - (11 # 2))%Q.
Proof.
  split; [vm_compute; reflexivity|].
  split; [vm_compute; reflexivity|]. vm_compute. discriminate.
Qed.

(** The sleep can also exceed the remaining time: with a counter of
    frequency [10 ^ 18] and [2 * 10 ^ 15 + 1] ticks elapsed, [elapsedMs] is
    [2 + 2 ^ -50], the difference [14 - 2 ^ -50] rounds to 14 and the
    thread sleeps 14 ms. *)
Example sleep_rounds_up :
  Pacer.elapsedMs (10 ^ 18) 0 (2 * 10 ^ 15 + 1) =
    Pacer.Finite (2251799813685249 # 1125899906842624) /\
  Pacer.pace (Pacer.elapsedMs (10 ^ 18) 0 (2 * 10 ^ 15 + 1)) = Some 14.
Proof. vm_compute. split; reflexivity. Qed.

(** The [DWORD] cast keeps the low 32 bits. *)
Example sleep_of_negative_elapsed :
  Pacer.pace (Pacer.Finite (- 5000000000)) = Some 705032720.
Proof. vm_compute. reflexivity. Qed.

(** C9 (as the code behaves).  The target interval is the integer quotient
    1000 / 60 = 16 ms, less than one millisecond below 16.67.  When the
    elapsed time is below it the thread sleeps once, for the remaining time
    rounded to a [double] and truncated to whole milliseconds: not less
    than the remaining time rounded down and not more than it rounded up
    to whole milliseconds; otherwise it does not sleep. *)
Theorem pace_sleeps_truncated (elapsed : Q) :
  Pacer.FRAME_TIME_MS = 16 /\
  (inject_Z Pacer.FRAME_TIME_MS <= 1000 # 60)%Q /\
  (1000 # 60 < inject_Z Pacer.FRAME_TIME_MS + 1)%Q /\
  ((0 <= elapsed)%Q -> (elapsed < inject_Z Pacer.FRAME_TIME_MS)%Q ->
   exists ms,
     Pacer.pace (Pacer.Finite elapsed) = Some ms /\
     ms = Qfloor (Pacer.RN (inject_Z Pacer.FRAME_TIME_MS - elapsed)) /\
     Qfloor (inject_Z Pacer.FRAME_TIME_MS - elapsed) <= ms /\
     ms <= Qceiling (inject_Z Pacer.FRAME_TIME_MS - elapsed)) /\
  ((inject_Z Pacer.FRAME_TIME_MS <= elapsed)%Q ->
   Pacer.pace (Pacer.Finite elapsed) = None).
Proof.
  split; [reflexivity|]. split; [vm_compute; discriminate|].
  split; [vm_compute; reflexivity|]. split.
  - intros H0 Hlt. destruct (pace_remaining elapsed H0 Hlt)
      as (ms & E & V & B1 & B2).
    exists ms. auto.
  - exact (pace_late elapsed).
Qed.

Lemma pace_sleeps_truncated_witness :
  exists ms,
    Pacer.pace (Pacer.Finite (11 # 2)) = Some ms /\
    ms = Qfloor (Pacer.RN (inject_Z Pacer.FRAME_TIME_MS - (11 # 2))) /\
    Qfloor (inject_Z Pacer.FRAME_TIME_MS - (11 # 2)) <= ms /\
    ms <= Qceiling (inject_Z Pacer.FRAME_TIME_MS - (11 # 2)).
Proof.
  apply (proj1 (proj2 (proj2 (proj2 (pace_sleeps_truncated (11 # 2)))))).
  - vm_compute. discriminate.
  - vm_compute. reflexivity.
Defined.


(** ** The decoder establishes the shape of the cursor buffer

    Every state reached through [UpdateCursorShape] on a payload of bytes
    satisfies [cursor_wf], the assumption made on the cursor above. *)

Lemma wr_keeps n p i v p' :
  wr p i v = Some p' -> is_byte v ->
  bytes_of_extent n p -> bytes_of_extent n p'.
Proof.
  unfold wr. destruct (_ && _); [|discriminate].
  intros [= <-] Hv [Hl Hb]. split.
  - rewrite length_insert. exact Hl.
  - apply Forall_insert; assumption.
Qed.

Lemma wr4_keeps n p i b0 b1 b2 b3 p' :
  wr4 p i b0 b1 b2 b3 = Some p' ->
  is_byte b0 -> is_byte b1 -> is_byte b2 -> is_byte b3 ->
  bytes_of_extent n p -> bytes_of_extent n p'.
Proof.
  unfold wr4. intros E H0 H1 H2 H3 Hp.
  bind_case E as p0 E0. bind_case E as p1 E1. bind_case E as p2 E2.
  eauto using wr_keeps.
Qed.

Lemma rd_byte p i v : Forall is_byte p -> rd p i = Some v -> is_byte v.
Proof.
  unfold rd. intros Hp. destruct (i <? 0); [discriminate|].
  intros E. exact (Forall_lookup_1 _ _ _ _ Hp E).
Qed.

Lemma byte_consts : is_byte 0 /\ is_byte 128 /\ is_byte 255.
Proof. unfold is_byte. lia. Qed.

Lemma mono_body_keeps n sb pitch w h y x buf buf' :
  mono_body sb pitch w h y x buf = Some buf' ->
  bytes_of_extent n buf -> bytes_of_extent n buf'.
Proof.
  unfold mono_body. intros E Hb. destruct byte_consts as (B0 & B128 & B255).
  bind_case E as a Ea. bind_case E as b Eb.
  repeat match type of E with
         | (if ?c then _ else _) = _ => destruct c
         end; eauto using wr4_keeps.
Qed.

Lemma masked_body_keeps n sb pitch w y x buf buf' :
  Forall is_byte sb ->
  masked_body sb pitch w y x buf = Some buf' ->
  bytes_of_extent n buf -> bytes_of_extent n buf'.
Proof.
  unfold masked_body. intros Hsb E Hb.
  destruct byte_consts as (B0 & B128 & B255).
  bind_case E as m Em. bind_case E as c0 E0. bind_case E as c1 E1.
  bind_case E as c2 E2.
  destruct (m =? 0); eauto using wr4_keeps, rd_byte.
Qed.

(** A loop keeps the extent and the byte range if its body does. *)
Ltac loop_keeps E H :=
  match type of H with
  | bytes_of_extent ?n _ =>
      apply (for_loop_inv _ (bytes_of_extent n)) in E; [exact E| |exact H]
  end.

Lemma color_row_keeps n sb pitch w y buf buf' :
  Forall is_byte sb ->
  color_row sb pitch w y buf = Some buf' ->
  bytes_of_extent n buf -> bytes_of_extent n buf'.
Proof.
  unfold color_row, memcpy, for_to. intros Hsb E Hb.
  loop_keeps E Hb.
  intros k s s' Ek Hs. bind_case Ek as v Ev.
  eauto using wr_keeps, rd_byte.
Qed.

Lemma new_BYTE_extent w h buf :
  new_BYTE w h = Some buf ->
  bytes_of_extent (to_int (to_int (w * h) * 4)) buf.
Proof.
  unfold new_BYTE. destruct (Z.leb_spec 0 (to_int (to_int (w * h) * 4)));
    [|discriminate].
  intros [= <-]. split.
  - rewrite length_replicate. lia.
  - apply Forall_replicate. unfold is_byte. lia.
Qed.

(** The size in [int] is the size when it does not overflow. *)
Lemma int_size_exact w h :
  - 2 ^ 31 <= w * h * 4 < 2 ^ 31 -> to_int (to_int (w * h) * 4) = w * h * 4.
Proof.
  intros H. rewrite (to_int_range (w * h)) by lia. apply to_int_range. exact H.
Qed.

(** A decoded buffer whose size did not overflow [int] has the extent its
    width and height announce. *)
Lemma UpdateCursorShape_wf info payload c c' :
  Forall is_byte payload ->
  UpdateCursorShape info payload c = Some c' ->
  (g_CursorBuffer c' <> None ->
   - 2 ^ 31 <= g_CursorWidth c' * g_CursorHeight c' * 4 < 2 ^ 31) ->
  cursor_wf c'.
Proof.
  intros Hp E. unfold UpdateCursorShape in E.
  destruct (_ =? DXGI_OUTDUPL_POINTER_SHAPE_TYPE_MONOCHROME).
  { bind_case E as b0 E0. bind_case E as b1 E1. injection E as <-.
    cbn [g_CursorBuffer g_CursorWidth g_CursorHeight]. intros Hn.
    apply new_BYTE_extent in E0. rewrite int_size_exact in E0
      by (apply Hn; discriminate).
    unfold cursor_wf. simpl.
    unfold for_to in E1. loop_keeps E1 E0.
    intros y s s' Ey Hs. unfold mono_row, for_to in Ey. loop_keeps Ey Hs.
    intros x t t' Ex Ht. exact (mono_body_keeps _ _ _ _ _ _ _ _ _ Ex Ht). }
  destruct (_ =? DXGI_OUTDUPL_POINTER_SHAPE_TYPE_COLOR).
  { bind_case E as b0 E0. bind_case E as b1 E1. injection E as <-.
    cbn [g_CursorBuffer g_CursorWidth g_CursorHeight]. intros Hn.
    apply new_BYTE_extent in E0. rewrite int_size_exact in E0
      by (apply Hn; discriminate).
    unfold cursor_wf. simpl.
    unfold for_to in E1. loop_keeps E1 E0.
    intros y s s' Ey Hs. exact (color_row_keeps _ _ _ _ _ _ _ Hp Ey Hs). }
  destruct (_ =? DXGI_OUTDUPL_POINTER_SHAPE_TYPE_MASKED_COLOR).
  { bind_case E as b0 E0. bind_case E as b1 E1. injection E as <-.
    cbn [g_CursorBuffer g_CursorWidth g_CursorHeight]. intros Hn.
    apply new_BYTE_extent in E0. rewrite int_size_exact in E0
      by (apply Hn; discriminate).
    unfold cursor_wf. simpl.
    unfold for_to in E1. loop_keeps E1 E0.
    intros y s s' Ey Hs. unfold masked_row, for_to in Ey. loop_keeps Ey Hs.
    intros x t t' Ex Ht. exact (masked_body_keeps _ _ _ _ _ _ _ _ Hp Ex Ht). }
  injection E as <-. intros _. exact I.
Qed.

(** The cursor state changes only in calls that decode a shape. *)
Lemma tick_keeps_cursor sample e s s' :
  DXGI.decodes_shape e = false ->
  DXGI.CaptureAndRender sample e s = Some s' ->
  DXGI.cursor s' = DXGI.cursor s.
Proof.
  unfold DXGI.decodes_shape, DXGI.CaptureAndRender. intros Hn E.
  destruct (DXGI.g_DeskDupl s); simpl in E; [|discriminate].
  assert (R : forall s0, DXGI.render_and_present sample e s0 = Some s' ->
                         DXGI.cursor s' = DXGI.cursor s0).
  { intros s0 Er. unfold DXGI.render_and_present in Er.
    bind_case Er as bb Eb. injection Er as <-. reflexivity. }
  destruct (DXGI.acquire e) as [|desktop shape| |].
  - exact (R s E).
  - destruct shape as [| |info buf]; [| |discriminate]; simpl in E;
      rewrite (R _ E); destruct desktop; reflexivity.
  - injection E as <-. destruct (DXGI.init_dupl e); reflexivity.
  - exact (R s E).
Qed.

(** * Further properties of the code *)

(** ** The state around one iteration of a loop *)

Section LoopAt.

Context {S : Type} (get : S -> Z -> Z) (body : Z -> S -> option S).
Context (foot : Z -> Z -> Prop).

Hypothesis frame : forall k s s' i,
  body k s = Some s' -> ~ foot k i -> get s' i = get s i.

(** Iteration [k] runs from a state that agrees with the initial one outside
    the cells of earlier iterations, and the final state agrees with its
    result outside the cells of later ones. *)
Lemma for_loop_at n lo s s' k :
  for_loop n lo body s = Some s' ->
  lo <= k < lo + Z.of_nat n ->
  exists s1 s2,
    body k s1 = Some s2 /\
    (forall i, (forall k', k < k' < lo + Z.of_nat n -> ~ foot k' i) ->
               get s' i = get s2 i) /\
    (forall j, (forall k', lo <= k' < k -> ~ foot k' j) -> get s1 j = get s j).
Proof using frame.
  revert lo s. induction n as [|n IH]; intros lo s H Hk.
  - lia.
  - simpl in H. destruct (body lo s) as [s1|] eqn:E; [|discriminate].
    simpl in H. destruct (Z.eq_dec k lo) as [->|Hne].
    + exists s, s1. split; [exact E|]. split; [|reflexivity].
      intros i Hi.
      apply (for_loop_frame get body foot frame _ _ _ _ _ H).
      intros k' Hk'. apply Hi. lia.
    + destruct (IH (lo + 1) s1 H) as (t1 & t2 & Eb & Ev & Ea); [lia|].
      exists t1, t2. split; [exact Eb|]. split.
      * intros i Hi. apply Ev. intros k' Hk'. apply Hi. lia.
      * intros j Hj. rewrite Ea by (intros k' Hk'; apply Hj; lia).
        apply (frame lo); [exact E|]. apply Hj. lia.
Qed.

End LoopAt.

(** ** Two nested loops whose iterations write disjoint cells *)

Section NestedLoops.

Context {S : Type} (get : S -> Z -> Z) (w h : Z).
Context (body : Z -> Z -> S -> option S).

(** [foot y x j]: iteration [(x, y)] may change cell [j]. *)
Context (foot : Z -> Z -> Z -> Prop).

Hypothesis frame : forall y x s s' j,
  body y x s = Some s' -> ~ foot y x j -> get s' j = get s j.

Hypothesis apart : forall y x y' x' j,
  0 <= y < h -> 0 <= x < w -> 0 <= y' < h -> 0 <= x' < w ->
  foot y x j -> foot y' x' j -> y = y' /\ x = x'.

Lemma nested_row_frame y s s' j :
  for_to w (body y) s = Some s' ->
  (forall x, 0 <= x < w -> ~ foot y x j) -> get s' j = get s j.
Proof using frame.
  unfold for_to. intros E Hj.
  apply (for_loop_frame get (body y) (foot y) (frame y) _ _ _ _ _ E).
  intros k Hk. apply Hj. lia.
Qed.

Lemma nested_frame s s' j :
  for_to h (fun y => for_to w (body y)) s = Some s' ->
  (forall y x, 0 <= y < h -> 0 <= x < w -> ~ foot y x j) ->
  get s' j = get s j.
Proof using frame.
  unfold for_to at 1. intros E Hj.
  apply (for_loop_frame get (fun y => for_to w (body y))
           (fun y j => exists x, 0 <= x < w /\ foot y x j))
    with (n := Z.to_nat h) (lo := 0) (s := s); [|exact E|].
  - intros y t t' i Et Hi.
    apply (nested_row_frame y _ _ _ Et). intros x Hx Hf.
    apply Hi. exists x. split; assumption.
  - intros y Hy [x [Hx Hf]]. apply (Hj y x); [lia|exact Hx|exact Hf].
Qed.

(** Iteration [(x, y)] ran from a state that agrees with the initial one on
    its own cells, and the final state holds on those cells what the
    iteration stored. *)
Lemma nested_value s s' y x :
  for_to h (fun y => for_to w (body y)) s = Some s' ->
  0 <= y < h -> 0 <= x < w ->
  exists t1 t2,
    body y x t1 = Some t2 /\
    (forall j, foot y x j -> get s' j = get t2 j) /\
    (forall j, foot y x j -> get t1 j = get s j).
Proof using frame apart.
  unfold for_to at 1. intros E Hy Hx.
  destruct (for_loop_at get (fun y => for_to w (body y))
              (fun y j => exists x, 0 <= x < w /\ foot y x j))
    with (n := Z.to_nat h) (lo := 0) (s := s) (s' := s') (k := y)
    as (s1 & s2 & Er & Vr & Ar).
  - intros y0 t t' i Et Hi.
    apply (nested_row_frame y0 _ _ _ Et). intros x0 Hx0 Hf0.
    apply Hi. exists x0. split; assumption.
  - exact E.
  - lia.
  - unfold for_to in Er.
    destruct (for_loop_at get (body y) (foot y) (frame y))
      with (n := Z.to_nat w) (lo := 0) (s := s1) (s' := s2) (k := x)
      as (t1 & t2 & Eb & Vb & Ab).
    + exact Er.
    + lia.
    + exists t1, t2. split; [exact Eb|]. split.
      * intros j Hf. rewrite Vr.
        -- apply Vb. intros x' Hx' Hf'.
           destruct (apart y x y x' j) as [_ Ex]; try assumption; lia.
        -- intros y' Hy' [x' [Hx' Hf']].
           destruct (apart y x y' x' j) as [Ey _]; try assumption; lia.
      * intros j Hf. rewrite Ab.
        -- apply Ar. intros y' Hy' [x' [Hx' Hf']].
           destruct (apart y x y' x' j) as [Ey _]; try assumption; lia.
        -- intros x' Hx' Hf'.
           destruct (apart y x y x' j) as [_ Ex]; try assumption; lia.
Qed.

Lemma nested_total (P : S -> Prop) s :
  (forall y x t, 0 <= y < h -> 0 <= x < w -> P t ->
     exists t', body y x t = Some t' /\ P t') ->
  P s ->
  exists s', for_to h (fun y => for_to w (body y)) s = Some s' /\ P s'.
Proof.
  intros Hb Hs. unfold for_to at 1.
  apply (for_loop_total (fun y => for_to w (body y)) P); [|exact Hs].
  intros y t Hy Ht. unfold for_to.
  apply (for_loop_total (body y) P); [|exact Ht].
  intros x t0 Hx Ht0. apply Hb; [lia|lia|exact Ht0].
Qed.

Lemma nested_inv (P : S -> Prop) s s' :
  (forall y x t t', body y x t = Some t' -> P t -> P t') ->
  for_to h (fun y => for_to w (body y)) s = Some s' -> P s -> P s'.
Proof.
  intros Hb E Hs. unfold for_to at 1 in E.
  apply (for_loop_inv (fun y => for_to w (body y)) P) in E;
    [exact E| |exact Hs].
  intros y t t' Et Ht. unfold for_to in Et.
  apply (for_loop_inv (body y) P) in Et; [exact Et| |exact Ht].
  intros x u u' Eu Hu. exact (Hb _ _ _ _ Eu Hu).
Qed.

End NestedLoops.

(** ** Colour pointer shapes *)

Lemma memcpy_Some dst doff src soff n dst' :
  memcpy dst doff src soff n = Some dst' ->
  length dst' = length dst /\
  (forall k, 0 <= k < n -> cell dst' (doff + k) = cell src (soff + k)) /\
  (forall j, ~ (doff <= j < doff + n) -> cell dst' j = cell dst j).
Proof.
  unfold memcpy, for_to. intros E.
  assert (F : forall k s s' i,
             (v ← rd src (soff + k); wr s (doff + k) v) = Some s' ->
             ~ (i = doff + k) -> cell s' i = cell s i).
  { intros k s s' i Eb Hi. bind_case Eb as v Ev.
    apply wr_Some in Eb as (_ & _ & _ & Fr). apply Fr. exact Hi. }
  split; [|split].
  - apply (for_loop_inv _ (fun b => length b = length dst)) in E;
      [exact E| |reflexivity].
    intros k s s' Eb Hs. bind_case Eb as v Ev.
    apply wr_Some in Eb as (L & _). congruence.
  - intros k Hk.
    destruct (for_loop_value cell _ (fun k i => i = doff + k) F
                _ _ _ _ k (doff + k) E) as (s1 & s2 & Eb & V & _).
    + lia.
    + intros k' Hk' Hne. lia.
    + rewrite V. bind_case Eb as v Ev.
      apply wr_Some in Eb as (_ & _ & Vw & _). rewrite Vw.
      symmetry. apply rd_cell. exact Ev.
  - intros j Hj.
    apply (for_loop_frame cell _ (fun k i => i = doff + k) F _ _ _ _ _ E).
    intros k Hk. lia.
Qed.

Lemma memcpy_total dst doff src soff n :
  0 <= soff -> soff + n <= Z.of_nat (length src) ->
  0 <= doff -> doff + n <= Z.of_nat (length dst) ->
  exists dst', memcpy dst doff src soff n = Some dst'.
Proof.
  intros Hs0 Hs1 Hd0 Hd1. unfold memcpy, for_to.
  destruct (for_loop_total
              (fun k d => v ← rd src (soff + k); wr d (doff + k) v)
              (fun b => length b = length dst)
              (Z.to_nat n) 0 dst) as (dst' & E & _); [|reflexivity|eauto].
  intros k s Hk Hs.
  destruct (rd_in_range src (soff + k)) as [v Ev]; [lia|].
  rewrite Ev. simpl.
  destruct (wr_in_range s (doff + k) v) as [s' Es]; [lia|].
  exists s'. split; [exact Es|].
  apply wr_Some in Es as (L & _). congruence.
Qed.

Section ColorLoops.

Context (sb : list Z) (pitch w h : Z).
Context (Hw : 0 <= w) (Hp : 4 * w <= pitch).
Context (Hsb : pitch * h <= Z.of_nat (length sb)) (Hlen : pitch * h < 2 ^ 32).
Context (Hn : w * h * 4 < 2 ^ 31).

(** Inside the bitmap the [int] products of a row do not wrap. *)
Lemma color_offsets y :
  0 <= y < h ->
  to_int (to_int (y * w) * 4) = y * w * 4 /\
  to_size_t (to_int (w * 4)) = w * 4.
Proof using Hw Hn.
  clear Hp Hsb Hlen. intros Hy. split.
  - rewrite (to_int_small (y * w)) by nia. apply to_int_small. nia.
  - rewrite (to_int_small (w * 4)) by nia. apply to_size_t_small. nia.
Qed.

Lemma color_row_Some y buf buf' :
  color_row sb pitch w y buf = Some buf' ->
  length buf' = length buf /\
  forall j,
    ~ (to_int (to_int (y * w) * 4) <= j
       < to_int (to_int (y * w) * 4) + to_size_t (to_int (w * 4))) ->
    cell buf' j = cell buf j.
Proof.
  unfold color_row. intros E.
  apply memcpy_Some in E as (L & _ & F). split; [exact L|exact F].
Qed.

Lemma color_loops_length buf buf' :
  for_to h (color_row sb pitch w) buf = Some buf' -> length buf' = length buf.
Proof.
  unfold for_to. intros E.
  apply (for_loop_inv _ (fun b => length b = length buf)) in E;
    [exact E| |reflexivity].
  intros k s s' Ek Hs. apply color_row_Some in Ek as [L _]. congruence.
Qed.

Lemma color_loops_value buf buf' x y c :
  for_to h (color_row sb pitch w) buf = Some buf' ->
  0 <= x < w -> 0 <= y < h -> 0 <= c < 4 ->
  cell buf' ((y * w + x) * 4 + c) = cell sb (y * pitch + 4 * x + c).
Proof using Hw Hp Hlen Hn.
  unfold for_to. intros E Hx Hy Hc.
  destruct (for_loop_value cell (color_row sb pitch w)
              (fun y i =>
                 to_int (to_int (y * w) * 4) <= i
                 < to_int (to_int (y * w) * 4) + to_size_t (to_int (w * 4)))
              (fun k s s' i Ek => proj2 (color_row_Some k s s' Ek) i)
              _ _ _ _ y ((y * w + x) * 4 + c) E) as (s1 & s2 & Er & V & _).
  - lia.
  - intros y' Hy' Hne.
    destruct (color_offsets y') as [-> ->]; [lia|]. nia.
  - rewrite V. unfold color_row in Er.
    destruct (color_offsets y Hy) as [O1 O2]. rewrite O1, O2 in Er.
    apply memcpy_Some in Er as (_ & Vr & _).
    rewrite wrap32_small in Vr by nia.
    replace ((y * w + x) * 4 + c) with (y * w * 4 + (4 * x + c)) by lia.
    rewrite Vr by lia. f_equal. lia.
Qed.

Lemma color_loops_total buf :
  0 <= h -> Z.of_nat (length buf) = w * h * 4 ->
  exists buf', for_to h (color_row sb pitch w) buf = Some buf'.
Proof using Hw Hp Hsb Hlen Hn.
  intros Hh Hbuf. unfold for_to.
  destruct (for_loop_total (color_row sb pitch w)
              (fun b => Z.of_nat (length b) = w * h * 4)
              (Z.to_nat h) 0 buf) as (buf' & E & _); [|exact Hbuf|eauto].
  intros y s Hy Hs. unfold color_row.
  destruct (color_offsets y) as [-> ->]; [lia|].
  rewrite wrap32_small by nia.
  destruct (memcpy_total s (y * w * 4) sb (y * pitch) (w * 4))
    as [s' Es]; try nia.
  exists s'. split; [exact Es|].
  apply memcpy_Some in Es as (L & _). lia.
Qed.

End ColorLoops.

(** X1. Colour pointer shapes: the decoder copies the first [4 * Width]
    bytes of each of the [Height] payload rows, which start [Pitch] bytes
    apart, into a tightly packed bitmap of the declared size, and records the
    declared hotspot. *)
Theorem colour_decode_copies_rows (info : ShapeInfo) (shapeBuffer : list Z)
    (c : Cursor) :
  Type_ info = DXGI_OUTDUPL_POINTER_SHAPE_TYPE_COLOR ->
  0 <= Width info < 2 ^ 31 -> 0 <= Height info < 2 ^ 31 ->
  4 * Width info <= Pitch info ->
  Pitch info * Height info <= Z.of_nat (length shapeBuffer) ->
  Pitch info * Height info < 2 ^ 32 ->
  Width info * Height info * 4 < 2 ^ 31 ->
  exists pixels,
    UpdateCursorShape info shapeBuffer c =
      Some {| g_CursorBuffer := Some pixels;
              g_CursorWidth := Width info;
              g_CursorHeight := Height info;
              g_CursorHotspotX := HotSpot_x info;
              g_CursorHotspotY := HotSpot_y info |} /\
    Z.of_nat (length pixels) = Width info * Height info * 4 /\
    forall x y ch, 0 <= x < Width info -> 0 <= y < Height info ->
      0 <= ch < 4 ->
      cell pixels ((y * Width info + x) * 4 + ch) =
        cell shapeBuffer (y * Pitch info + 4 * x + ch).
Proof.
  intros HT HW HH HP Hsb Hlen Hn.
  unfold UpdateCursorShape. rewrite HT. simpl (_ =? _).
  rewrite (to_int_small (Width info)), (to_int_small (Height info)) by lia.
  destruct (new_BYTE_Some (Width info) (Height info)) as (buf & -> & Lb);
    [lia|lia|lia|]. simpl.
  destruct (color_loops_total shapeBuffer (Pitch info) (Width info)
              (Height info) ltac:(lia) HP Hsb Hlen Hn buf) as [pixels E];
    [lia|exact Lb|].
  rewrite E. simpl. exists pixels. split; [reflexivity|]. split.
  - apply color_loops_length in E. lia.
  - intros x y ch Hx Hy Hc.
    apply (color_loops_value shapeBuffer (Pitch info) (Width info)
             (Height info) ltac:(lia) HP Hlen Hn buf); assumption.
Qed.

Lemma colour_decode_copies_rows_witness :
  exists pixels,
    UpdateCursorShape colour1x2 rows1x2_payload cursor_init =
      Some {| g_CursorBuffer := Some pixels;
              g_CursorWidth := 1; g_CursorHeight := 2;
              g_CursorHotspotX := 0; g_CursorHotspotY := 1 |} /\
    Z.of_nat (length pixels) = 8 /\
    forall x y ch, 0 <= x < 1 -> 0 <= y < 2 -> 0 <= ch < 4 ->
      cell pixels ((y * 1 + x) * 4 + ch) =
        cell rows1x2_payload (y * 8 + 4 * x + ch).
Proof.
  apply (colour_decode_copies_rows colour1x2 rows1x2_payload cursor_init);
    vm_compute; try reflexivity; intuition discriminate.
Defined.

(** The padding of the rows is skipped. *)
Example colour1x2_decodes :
  UpdateCursorShape colour1x2 rows1x2_payload cursor_init =
  Some {| g_CursorBuffer := Some [10; 20; 30; 0;  40; 50; 60; 255];
          g_CursorWidth := 1; g_CursorHeight := 2;
          g_CursorHotspotX := 0; g_CursorHotspotY := 1 |}.
Proof. vm_compute. reflexivity. Qed.

(** ** Masked-colour pointer shapes *)

Lemma pixel_index_inj w x y x' y' :
  0 <= x < w -> 0 <= x' < w -> y * w + x = y' * w + x' -> y = y' /\ x = x'.
Proof.
  intros Hx Hx' E.
  destruct (Z.lt_trichotomy y y') as [Hl|[->|Hl]]; [nia|lia|nia].
Qed.

Lemma pixel_cells_apart w h y x y' x' j :
  0 <= y < h -> 0 <= x < w -> 0 <= y' < h -> 0 <= x' < w ->
  (y * w + x) * 4 <= j < (y * w + x) * 4 + 4 ->
  (y' * w + x') * 4 <= j < (y' * w + x') * 4 + 4 ->
  y = y' /\ x = x'.
Proof.
  intros _ Hx _ Hx' Hj Hj'. apply (pixel_index_inj w); [exact Hx|exact Hx'|lia].
Qed.

Lemma masked_body_frame sb pitch w y x buf buf' :
  masked_body sb pitch w y x buf = Some buf' ->
  length buf' = length buf /\
  forall j, ~ ((y * w + x) * 4 <= j < (y * w + x) * 4 + 4) ->
            cell buf' j = cell buf j.
Proof.
  unfold masked_body. intros H.
  bind_case H as m Em. bind_case H as c0 E0. bind_case H as c1 E1.
  bind_case H as c2 E2.
  destruct (m =? 0);
    apply wr4_Some in H as (L & _ & _ & _ & _ & F); split; assumption.
Qed.

Lemma masked_body_value sb pitch w h y x buf buf' :
  masked_body sb pitch w y x buf = Some buf' ->
  0 <= x < w -> 0 <= y < h -> 4 * w <= pitch -> pitch * h < 2 ^ 31 ->
  pixel_at buf' w x y = masked_pixel sb pitch x y.
Proof.
  intros H Hx Hy Hp Hlen. unfold masked_body in H.
  rewrite to_int_small in H by nia.
  replace (y * pitch + x * 4) with (y * pitch + 4 * x) in H by lia.
  bind_case H as m Em. bind_case H as c0 E0. bind_case H as c1 E1.
  bind_case H as c2 E2.
  unfold masked_pixel, pixel_at.
  replace (y * pitch + 4 * x + 0) with (y * pitch + 4 * x) in E0 by lia.
  rewrite (rd_cell _ _ _ Em), (rd_cell _ _ _ E0), (rd_cell _ _ _ E1),
    (rd_cell _ _ _ E2).
  destruct (m =? 0);
    apply wr4_Some in H as (_ & -> & -> & -> & -> & _); reflexivity.
Qed.

Lemma masked_body_total sb pitch w h y x buf :
  0 <= x < w -> 0 <= y < h -> 4 * w <= pitch ->
  pitch * h <= Z.of_nat (length sb) -> pitch * h < 2 ^ 31 ->
  Z.of_nat (length buf) = w * h * 4 ->
  exists buf', masked_body sb pitch w y x buf = Some buf'.
Proof.
  intros Hx Hy Hp Hsb Hlen Hbuf. unfold masked_body.
  rewrite to_int_small by nia.
  destruct (rd_in_range sb (y * pitch + x * 4 + 3)) as [m ->]; [nia|].
  destruct (rd_in_range sb (y * pitch + x * 4 + 0)) as [c0 ->]; [nia|].
  destruct (rd_in_range sb (y * pitch + x * 4 + 1)) as [c1 ->]; [nia|].
  destruct (rd_in_range sb (y * pitch + x * 4 + 2)) as [c2 ->]; [nia|].
  simpl. destruct (m =? 0); apply wr4_in_range; nia.
Qed.

Section MaskedLoops.

Context (sb : list Z) (pitch w h : Z).

Lemma masked_loops_length buf buf' :
  for_to h (masked_row sb pitch w) buf = Some buf' ->
  length buf' = length buf.
Proof.
  intros E.
  apply (nested_inv w h (masked_body sb pitch w)
           (fun b => length b = length buf) buf buf'); [|exact E|reflexivity].
  intros y x t t' Et Ht. apply masked_body_frame in Et as [L _]. congruence.
Qed.

Lemma masked_loops_value buf buf' x y :
  for_to h (masked_row sb pitch w) buf = Some buf' ->
  0 <= x < w -> 0 <= y < h -> 4 * w <= pitch -> pitch * h < 2 ^ 31 ->
  pixel_at buf' w x y = masked_pixel sb pitch x y.
Proof.
  intros E Hx Hy Hp Hlen.
  destruct (nested_value cell w h (masked_body sb pitch w)
              (fun y x j => (y * w + x) * 4 <= j < (y * w + x) * 4 + 4)
              (fun y x s s' j Eb =>
                 proj2 (masked_body_frame _ _ _ _ _ _ _ Eb) j)
              (pixel_cells_apart w h) buf buf' y x E Hy Hx)
    as (t1 & t2 & Eb & V & _).
  rewrite <- (masked_body_value _ _ _ h _ _ _ _ Eb) by assumption.
  unfold pixel_at. rewrite !V by lia. reflexivity.
Qed.

Lemma masked_loops_total buf :
  4 * w <= pitch ->
  pitch * h <= Z.of_nat (length sb) -> pitch * h < 2 ^ 31 ->
  Z.of_nat (length buf) = w * h * 4 ->
  exists buf', for_to h (masked_row sb pitch w) buf = Some buf'.
Proof.
  intros Hp Hsb Hlen Hbuf.
  destruct (nested_total w h (masked_body sb pitch w)
              (fun b => Z.of_nat (length b) = w * h * 4) buf)
    as (buf' & E & _); [|exact Hbuf|exists buf'; exact E].
  intros y x t Hy Hx Ht.
  destruct (masked_body_total sb pitch w h y x t) as [t' Et]; try assumption.
  exists t'. split; [exact Et|].
  apply masked_body_frame in Et as [L _]. lia.
Qed.

End MaskedLoops.

(** X2. Masked-colour pointer shapes: the decoder keeps the three colour
    bytes of every payload pixel and replaces the fourth by 255 when the
    payload's mask byte is zero and by 128 otherwise; the bitmap has the
    declared size and the declared hotspot is recorded. *)
Theorem masked_decode_mask_to_alpha (info : ShapeInfo)
    (shapeBuffer : list Z) (c : Cursor) :
  Type_ info = DXGI_OUTDUPL_POINTER_SHAPE_TYPE_MASKED_COLOR ->
  0 <= Width info < 2 ^ 31 -> 0 <= Height info < 2 ^ 31 ->
  4 * Width info <= Pitch info ->
  Pitch info * Height info <= Z.of_nat (length shapeBuffer) ->
  Pitch info * Height info < 2 ^ 31 ->
  Width info * Height info * 4 < 2 ^ 31 ->
  exists pixels,
    UpdateCursorShape info shapeBuffer c =
      Some {| g_CursorBuffer := Some pixels;
              g_CursorWidth := Width info;
              g_CursorHeight := Height info;
              g_CursorHotspotX := HotSpot_x info;
              g_CursorHotspotY := HotSpot_y info |} /\
    Z.of_nat (length pixels) = Width info * Height info * 4 /\
    forall x y, 0 <= x < Width info -> 0 <= y < Height info ->
      pixel_at pixels (Width info) x y =
        masked_pixel shapeBuffer (Pitch info) x y.
Proof.
  intros HT HW HH HP Hsb Hlen Hn.
  unfold UpdateCursorShape. rewrite HT. simpl (_ =? _).
  rewrite (to_int_small (Width info)), (to_int_small (Height info)) by lia.
  destruct (new_BYTE_Some (Width info) (Height info)) as (buf & -> & Lb);
    [lia|lia|lia|]. simpl.
  destruct (masked_loops_total shapeBuffer (Pitch info) (Width info)
              (Height info) buf HP Hsb Hlen Lb) as [pixels E].
  rewrite E. simpl. exists pixels. split; [reflexivity|]. split.
  - apply masked_loops_length in E. lia.
  - intros x y Hx Hy.
    apply (masked_loops_value shapeBuffer (Pitch info) (Width info)
             (Height info) buf); assumption.
Qed.

Lemma masked_decode_mask_to_alpha_witness :
  exists pixels,
    UpdateCursorShape masked1x2 rows1x2_payload cursor_init =
      Some {| g_CursorBuffer := Some pixels;
              g_CursorWidth := 1; g_CursorHeight := 2;
              g_CursorHotspotX := 0; g_CursorHotspotY := 1 |} /\
    Z.of_nat (length pixels) = 8 /\
    forall x y, 0 <= x < 1 -> 0 <= y < 2 ->
      pixel_at pixels 1 x y = masked_pixel rows1x2_payload 8 x y.
Proof.
  apply (masked_decode_mask_to_alpha masked1x2 rows1x2_payload cursor_init);
    vm_compute; try reflexivity; intuition discriminate.
Defined.

(** A zero mask byte becomes opaque, a non-zero one half transparent. *)
Example masked1x2_decodes :
  UpdateCursorShape masked1x2 rows1x2_payload cursor_init =
  Some {| g_CursorBuffer := Some [10; 20; 30; 255;  40; 50; 60; 128];
          g_CursorWidth := 1; g_CursorHeight := 2;
          g_CursorHotspotX := 0; g_CursorHotspotY := 1 |}.
Proof. vm_compute. reflexivity. Qed.

(** ** The decoder and the cursor step together *)

(** A shape that fits its payload is decoded without a fault. *)
Lemma decode_total info payload c :
  shape_fits info payload ->
  exists c', UpdateCursorShape info payload c = Some c'.
Proof.
  unfold shape_fits, UpdateCursorShape. intros Hf.
  destruct (Type_ info =? DXGI_OUTDUPL_POINTER_SHAPE_TYPE_MONOCHROME).
  { destruct Hf as (HW & HH & HP & Hsb & Hlen & Hn).
    assert (Hh : 0 <= Height info / 2 < 2 ^ 31).
    { split; [apply Z.div_pos; lia|]. apply Z.div_lt_upper_bound; lia. }
    rewrite (wrap32_small (Height info)) by lia.
    rewrite (to_int_small (Width info)), (to_int_small (Height info / 2))
      by lia.
    destruct (new_BYTE_Some (Width info) (Height info / 2))
      as (buf & -> & Lb); [lia|lia|lia|]. simpl.
    destruct (mono_loops_total payload (Pitch info) (Width info)
                (Height info / 2) buf) as [pixels ->]; try lia.
    simpl. eauto. }
  destruct (Type_ info =? DXGI_OUTDUPL_POINTER_SHAPE_TYPE_COLOR).
  { simpl in Hf. destruct Hf as (HW & HH & HP & Hsb & Hlen & Hn).
    rewrite (to_int_small (Width info)), (to_int_small (Height info)) by lia.
    destruct (new_BYTE_Some (Width info) (Height info))
      as (buf & -> & Lb); [lia|lia|lia|]. simpl.
    destruct (color_loops_total payload (Pitch info) (Width info)
                (Height info) ltac:(lia) HP Hsb ltac:(lia) Hn buf)
      as [pixels ->]; [lia|exact Lb|].
    simpl. eauto. }
  destruct (Type_ info =? DXGI_OUTDUPL_POINTER_SHAPE_TYPE_MASKED_COLOR).
  { simpl in Hf. destruct Hf as (HW & HH & HP & Hsb & Hlen & Hn).
    rewrite (to_int_small (Width info)), (to_int_small (Height info)) by lia.
    destruct (new_BYTE_Some (Width info) (Height info))
      as (buf & -> & Lb); [lia|lia|lia|]. simpl.
    destruct (masked_loops_total payload (Pitch info) (Width info)
                (Height info) buf HP Hsb Hlen Lb) as [pixels ->].
    simpl. eauto. }
  eauto.
Qed.

(** A shape that fits its payload is decoded to a bitmap whose size fits an
    [int]. *)
Lemma decode_bound info payload c c' :
  shape_fits info payload ->
  UpdateCursorShape info payload c = Some c' ->
  g_CursorBuffer c' <> None ->
  - 2 ^ 31 <= g_CursorWidth c' * g_CursorHeight c' * 4 < 2 ^ 31.
Proof.
  unfold shape_fits, UpdateCursorShape. intros Hf E.
  destruct (Type_ info =? DXGI_OUTDUPL_POINTER_SHAPE_TYPE_MONOCHROME).
  { destruct Hf as (HW & HH & HP & Hsb & Hlen & Hn).
    assert (Hh : 0 <= Height info / 2 < 2 ^ 31).
    { split; [apply Z.div_pos; lia|]. apply Z.div_lt_upper_bound; lia. }
    rewrite (wrap32_small (Height info)) in E by lia.
    rewrite (to_int_small (Width info)), (to_int_small (Height info / 2)) in E
      by lia.
    bind_case E as b0 E0. bind_case E as b1 E1. injection E as <-.
    intros _. cbn [g_CursorWidth g_CursorHeight]. nia. }
  destruct (Type_ info =? DXGI_OUTDUPL_POINTER_SHAPE_TYPE_COLOR).
  { simpl in Hf. destruct Hf as (HW & HH & HP & Hsb & Hlen & Hn).
    rewrite (to_int_small (Width info)), (to_int_small (Height info)) in E
      by lia.
    bind_case E as b0 E0. bind_case E as b1 E1. injection E as <-.
    intros _. cbn [g_CursorWidth g_CursorHeight]. nia. }
  destruct (Type_ info =? DXGI_OUTDUPL_POINTER_SHAPE_TYPE_MASKED_COLOR).
  { simpl in Hf. destruct Hf as (HW & HH & HP & Hsb & Hlen & Hn).
    rewrite (to_int_small (Width info)), (to_int_small (Height info)) in E
      by lia.
    bind_case E as b0 E0. bind_case E as b1 E1. injection E as <-.
    intros _. cbn [g_CursorWidth g_CursorHeight]. nia. }
  injection E as <-. intros H. contradiction H. reflexivity.
Qed.

(** X3. When the size [g_CursorWidth * g_CursorHeight * 4] of the bitmap
    does not overflow [int], whatever [UpdateCursorShape] returns on a
    payload of bytes, of any shape type, is a cursor whose buffer has
    exactly that many bytes (or is null), and [DrawCursorOnTexture] on it
    never reads outside that buffer: it returns for every texture, position
    and outcome of its resource calls.  (When the size overflows the
    statement fails, see [wrapped_size_draw_faults] below.) *)
Theorem decode_then_draw_safe (info : ShapeInfo) (payload : list Z)
    (c c' : Cursor) :
  Forall is_byte payload ->
  UpdateCursorShape info payload c = Some c' ->
  - 2 ^ 31 <= g_CursorWidth c' * g_CursorHeight c' * 4 < 2 ^ 31 ->
  cursor_wf c' /\
  forall create_ok map_ok t cursorX cursorY,
    exists t',
      DrawCursorOnTexture create_ok map_ok c' t cursorX cursorY = Some t'.
Proof.
  intros Hp E Hn.
  pose proof (UpdateCursorShape_wf info payload c c' Hp E (fun _ => Hn))
    as Hwf.
  split; [exact Hwf|].
  intros create_ok map_ok t cursorX cursorY. apply draw_total. exact Hwf.
Qed.

Lemma decode_then_draw_safe_witness :
  cursor_wf
    (default cursor_init
       (UpdateCursorShape masked1x2 rows1x2_payload white_dot)) /\
  forall create_ok map_ok t cursorX cursorY,
    exists t',
      DrawCursorOnTexture create_ok map_ok
        (default cursor_init
           (UpdateCursorShape masked1x2 rows1x2_payload white_dot))
        t cursorX cursorY = Some t'.
Proof.
  apply (decode_then_draw_safe masked1x2 rows1x2_payload white_dot).
  - repeat constructor; unfold is_byte; lia.
  - reflexivity.
  - vm_compute. intuition discriminate.
Defined.

Lemma for_to_first_fault {S : Type} hi (body : Z -> S -> option S) s :
  0 < hi -> body 0 s = None -> for_to hi body s = None.
Proof.
  intros Hhi Hb. unfold for_to.
  destruct (Z.to_nat hi) as [|n] eqn:E; [lia|].
  simpl. rewrite Hb. reflexivity.
Qed.

(** Drawing a cursor whose buffer is empty while its width and height are
    not reads outside the buffer as soon as its first pixel lands inside
    the texture. *)
Lemma draw_empty_buffer_faults c t cx cy :
  g_CursorBuffer c = Some [] ->
  0 < g_CursorWidth c -> 0 < g_CursorHeight c ->
  0 <= cx - g_CursorHotspotX c < to_int (desc_Width t) ->
  0 <= cy - g_CursorHotspotY c < to_int (desc_Height t) ->
  DrawCursorOnTexture true true c t cx cy = None.
Proof.
  intros Hb Hw Hh Hx Hy. unfold DrawCursorOnTexture. rewrite Hb.
  destruct (Z.eqb_spec (g_CursorWidth c) 0); [lia|].
  destruct (Z.eqb_spec (g_CursorHeight c) 0); [lia|].
  cbn [orb negb]. rewrite for_to_first_fault; [reflexivity|exact Hh|].
  unfold blend_row. rewrite Z.add_0_r.
  destruct (Z.ltb_spec (cy - g_CursorHotspotY c) 0); [lia|].
  destruct (Z.leb_spec (to_int (desc_Height t)) (cy - g_CursorHotspotY c));
    [lia|].
  cbn [orb]. apply for_to_first_fault; [exact Hw|].
  unfold blend_body. rewrite Z.add_0_r.
  destruct (Z.ltb_spec (cx - g_CursorHotspotX c) 0); [lia|].
  destruct (Z.leb_spec (to_int (desc_Width t)) (cx - g_CursorHotspotX c));
    [lia|].
  reflexivity.
Qed.

(** The size that wraps: a colour shape of width [2 ^ 30] and height 1 asks
    for [2 ^ 32] bytes, which is 0 in [int]; the row copy has length 0 as
    well, so the decoder returns an empty buffer with the declared width,
    and the next cursor step reads outside it. *)
Lemma wrapped_size_draw_faults :
  UpdateCursorShape wide_colour [1; 2; 3; 4] cursor_init =
    Some {| g_CursorBuffer := Some [];
            g_CursorWidth := 2 ^ 30; g_CursorHeight := 1;
            g_CursorHotspotX := 0; g_CursorHotspotY := 0 |} /\
  DrawCursorOnTexture true true
    {| g_CursorBuffer := Some [];
       g_CursorWidth := 2 ^ 30; g_CursorHeight := 1;
       g_CursorHotspotX := 0; g_CursorHotspotY := 0 |} canvas0 0 0 = None.
Proof.
  split; [vm_compute; reflexivity|].
  apply draw_empty_buffer_faults; cbn [g_CursorBuffer g_CursorWidth
    g_CursorHeight g_CursorHotspotX g_CursorHotspotY desc_Width desc_Height
    canvas0]; try reflexivity; try lia.
  - rewrite to_int_small; lia.
  - rewrite to_int_small; lia.
Qed.

(** X4. A call of [DrawCursorOnTexture] that returns keeps the description
    of the texture and changes no byte of the mapped memory that is not a
    channel of one of its texels (row padding and whatever lies behind the
    last row); when [CreateTexture2D] or [Map] fails it returns the texture
    as it was. *)
Theorem draw_stays_inside_texture (create_ok map_ok : bool) (c : Cursor)
    (t t' : Texture) (cursorX cursorY : Z) :
  DrawCursorOnTexture create_ok map_ok c t cursorX cursorY = Some t' ->
  canvas_wf t ->
  desc_Width t' = desc_Width t /\ desc_Height t' = desc_Height t /\
  RowPitch t' = RowPitch t /\
  (forall j, locate t j = None -> texels t' j = texels t j) /\
  (create_ok && map_ok = false -> t' = t).
Proof.
  intros E Hwf.
  destruct (draw_frame _ _ _ _ _ _ _ E Hwf) as (DW & DH & DP & _).
  split; [exact DW|]. split; [exact DH|]. split; [exact DP|]. split.
  - intros j Hj. exact (draw_unlocated _ _ _ _ _ _ _ j E Hwf Hj).
  - intros Hf. unfold DrawCursorOnTexture in E.
    destruct (g_CursorBuffer c); [|congruence].
    destruct (_ || _); [congruence|].
    destruct create_ok; simpl in E; [|congruence].
    destruct map_ok; simpl in E; [discriminate Hf|congruence].
Qed.

Lemma draw_stays_inside_texture_witness :
  let t' := default canvas0 (DrawCursorOnTexture true true white_dot canvas0
                               1919 1079) in
  desc_Width t' = 1920 /\ desc_Height t' = 1080 /\ RowPitch t' = 7680 /\
  (forall j, locate canvas0 j = None -> texels t' j = texels canvas0 j) /\
  (true && true = false -> t' = canvas0).
Proof.
  apply (draw_stays_inside_texture true true white_dot canvas0 _ 1919 1079).
  - reflexivity.
  - unfold canvas_wf. simpl. lia.
Defined.

(** ** The loop of [main_dxgi.cpp] *)

Lemma releases_app a b : releases (a ++ b) = (releases a + releases b)%nat.
Proof. unfold releases. rewrite List.filter_app, length_app. reflexivity. Qed.

Lemma presents_app a b : presents (a ++ b) = (presents a + presents b)%nat.
Proof. unfold presents. rewrite List.filter_app, length_app. reflexivity. Qed.

Lemma render_and_present_events sample e s s' :
  DXGI.render_and_present sample e s = Some s' ->
  DXGI.events s' =
    DXGI.events s ++ [DXGI.Present (texels (DXGI.g_BackBuffer s'))].
Proof.
  unfold DXGI.render_and_present. intros E.
  bind_case E as bb Eb. injection E as <-. reflexivity.
Qed.

(** X5. What one returning call of [CaptureAndRender] does to the
    duplication and the swap chain: it releases a frame exactly when it
    acquired one (also when [QueryInterface] or the shape query failed),
    presents exactly once unless access was lost, in which case it presents
    nothing, and the presentation is the last thing it does and shows the
    render target it leaves behind. *)
Theorem frame_released_iff_acquired
    (sample : (Z -> Z) -> Z -> Z -> Z -> Z) (e : DXGI.Tick)
    (s s' : DXGI.State) :
  DXGI.CaptureAndRender sample e s = Some s' ->
  exists new,
    DXGI.events s' = DXGI.events s ++ new /\
    releases new = match DXGI.acquire e with
                   | DXGI.Acquired _ _ => 1%nat
                   | _ => 0%nat
                   end /\
    presents new = match DXGI.acquire e with
                   | DXGI.ACCESS_LOST => 0%nat
                   | _ => 1%nat
                   end /\
    (DXGI.acquire e <> DXGI.ACCESS_LOST ->
     last new = Some (DXGI.Present (texels (DXGI.g_BackBuffer s')))).
Proof.
  unfold DXGI.CaptureAndRender. intros E.
  destruct (DXGI.g_DeskDupl s); simpl in E; [|discriminate].
  destruct (DXGI.acquire e) as [|desktop shape| |].
  - apply render_and_present_events in E.
    exists [DXGI.Present (texels (DXGI.g_BackBuffer s'))].
    split; [exact E|]. split; [reflexivity|]. split; [reflexivity|].
    intros _. reflexivity.
  - bind_case E as s1 E1. apply render_and_present_events in E.
    exists [DXGI.FrameRelease; DXGI.Present (texels (DXGI.g_BackBuffer s'))].
    assert (Ev : DXGI.events s1 = DXGI.events s).
    { destruct shape as [| |info buf].
      - injection E1 as <-. destruct desktop; reflexivity.
      - injection E1 as <-. destruct desktop; reflexivity.
      - bind_case E1 as c1 Ec. injection E1 as <-.
        destruct desktop; reflexivity. }
    split; [|split; [reflexivity|split; [reflexivity|intros _; reflexivity]]].
    rewrite E. simpl. rewrite Ev, <- app_assoc. reflexivity.
  - injection E as <-.
    exists [DXGI.DuplRelease;
            DXGI.DuplInit match DXGI.init_dupl e with
                          | DXGI.InitOk _ => true
                          | _ => false
                          end].
    split; [|split; [reflexivity|split; [reflexivity|]]].
    + destruct (DXGI.init_dupl e); simpl; rewrite <- app_assoc; reflexivity.
    + intros H. contradiction.
  - apply render_and_present_events in E.
    exists [DXGI.Present (texels (DXGI.g_BackBuffer s'))].
    split; [exact E|]. split; [reflexivity|]. split; [reflexivity|].
    intros _. reflexivity.
Qed.

Lemma frame_released_iff_acquired_witness :
  let s' := default dxgi_boot
              (DXGI.CaptureAndRender nearest bleed_tick dxgi_boot) in
  exists new,
    DXGI.events s' = DXGI.events dxgi_boot ++ new /\
    releases new = 1%nat /\ presents new = 1%nat /\
    (DXGI.acquire bleed_tick <> DXGI.ACCESS_LOST ->
     last new = Some (DXGI.Present (texels (DXGI.g_BackBuffer s')))).
Proof.
  apply (frame_released_iff_acquired nearest bleed_tick dxgi_boot).
  reflexivity.
Defined.

Lemma pump_result msgs s :
  DXGI.pump msgs s =
    if existsb quits msgs then DXGI.set_running false s else s.
Proof.
  induction msgs as [|m rest IH]; [reflexivity|].
  destruct m as [|w|]; simpl; [reflexivity| |exact IH].
  destruct (w =? 1); [reflexivity|exact IH].
Qed.

Lemma run_stopped sample inputs s :
  DXGI.g_Running s = false -> DXGI.run sample inputs s = Some s.
Proof.
  intros H. destruct inputs as [|[msgs e] rest]; [reflexivity|].
  simpl. rewrite H. reflexivity.
Qed.

(** X6. The message pump of [WinMain]: an iteration whose messages include
    [WM_QUIT] or the hotkey with id 1 clears [g_Running] and does nothing
    else; it does not capture, draw or present, whatever the state of the
    duplication, and no later iteration runs.  (Other messages, and hotkeys
    with another id, are passed over.) *)
Theorem quit_message_ends_loop
    (sample : (Z -> Z) -> Z -> Z -> Z -> Z) (msgs : list DXGI.Msg)
    (e : DXGI.Tick) (rest : list (list DXGI.Msg * DXGI.Tick))
    (s : DXGI.State) :
  DXGI.g_Running s = true ->
  existsb quits msgs = true ->
  DXGI.run sample ((msgs, e) :: rest) s = Some (DXGI.set_running false s).
Proof.
  intros Hr Hq. cbn [DXGI.run]. rewrite Hr. unfold DXGI.iteration.
  rewrite pump_result, Hq. simpl. apply run_stopped. reflexivity.
Qed.

Lemma quit_message_ends_loop_witness :
  DXGI.run nearest
    (([DXGI.OtherMsg; DXGI.WM_HOTKEY 2; DXGI.WM_HOTKEY 1; DXGI.OtherMsg],
      lost_tick) :: [([], timeout_tick 5 5)])
    dxgi_boot
  = Some (DXGI.set_running false dxgi_boot).
Proof.
  apply (quit_message_ends_loop nearest
           [DXGI.OtherMsg; DXGI.WM_HOTKEY 2; DXGI.WM_HOTKEY 1; DXGI.OtherMsg]
           lost_tick [([], timeout_tick 5 5)] dxgi_boot); reflexivity.
Defined.

(** One call on a well-formed state and input returns, and keeps the state
    well formed. *)
Lemma tick_safe sample e s :
  DXGI.g_DeskDupl s = Some tt -> cursor_wf (DXGI.cursor s) -> tick_ok e ->
  exists s',
    DXGI.CaptureAndRender sample e s = Some s' /\
    DXGI.g_DeskDupl s' = Some tt /\ cursor_wf (DXGI.cursor s') /\
    DXGI.g_Running s' = DXGI.g_Running s.
Proof.
  intros Hd Hwf Hok. unfold DXGI.CaptureAndRender, tick_ok in *.
  rewrite Hd. simpl.
  destruct (DXGI.acquire e) as [|desktop shape| |].
  - destruct (render_total sample e s Hwf) as (s' & E & _ & Ec & Ed & Er & _).
    exists s'. rewrite Ec, Ed. auto.
  - set (s0 := match desktop with
               | Some d => DXGI.set_staging d s
               | None => s
               end).
    assert (H0 : DXGI.g_DeskDupl s0 = Some tt /\
                 DXGI.cursor s0 = DXGI.cursor s /\
                 DXGI.g_Running s0 = DXGI.g_Running s).
    { unfold s0. destruct desktop; auto. }
    destruct H0 as (D0 & C0 & R0).
    assert (K : forall s1,
              DXGI.g_DeskDupl s1 = Some tt -> cursor_wf (DXGI.cursor s1) ->
              DXGI.g_Running s1 = DXGI.g_Running s ->
              exists s',
                DXGI.render_and_present sample e (DXGI.emit DXGI.FrameRelease s1)
                  = Some s' /\
                DXGI.g_DeskDupl s' = Some tt /\ cursor_wf (DXGI.cursor s') /\
                DXGI.g_Running s' = DXGI.g_Running s).
    { intros s1 D1 W1 R1.
      destruct (render_total sample e (DXGI.emit DXGI.FrameRelease s1) W1)
        as (s' & E & _ & Ec & Ed & Er & _).
      exists s'. rewrite Ec, Ed, Er. auto. }
    destruct shape as [| |info payload]; simpl.
    + apply K; [exact D0|rewrite C0; exact Hwf|exact R0].
    + apply K; [exact D0|rewrite C0; exact Hwf|exact R0].
    + destruct Hok as [Hfit Hbytes].
      destruct (decode_total info payload (DXGI.cursor s0) Hfit) as [c' Ec].
      rewrite Ec. simpl.
      apply K; [exact D0| |exact R0].
      exact (UpdateCursorShape_wf _ _ _ _ Hbytes Ec
               (decode_bound _ _ _ _ Hfit Ec)).
  - eexists. split; [reflexivity|].
    destruct (DXGI.init_dupl e); [contradiction| |]; simpl; auto.
  - destruct (render_total sample e s Hwf) as (s' & E & _ & Ec & Ed & Er & _).
    exists s'. rewrite Ec, Ed. auto.
Qed.

(** X7. The loop never faults on well-formed input: started with a live
    duplication and a cursor buffer of the size its width and height
    announce, and fed calls whose pointer shapes fit their payloads and in
    which a lost duplication is obtained again, any number of iterations
    returns, never dereferences a null [g_DeskDupl] nor reads or writes
    outside the shape or cursor buffers, and ends in a state of the same
    kind. *)
Theorem loop_never_faults (sample : (Z -> Z) -> Z -> Z -> Z -> Z)
    (inputs : list (list DXGI.Msg * DXGI.Tick)) (s : DXGI.State) :
  DXGI.g_DeskDupl s = Some tt -> cursor_wf (DXGI.cursor s) ->
  Forall (fun i => tick_ok (snd i)) inputs ->
  exists s',
    DXGI.run sample inputs s = Some s' /\
    DXGI.g_DeskDupl s' = Some tt /\ cursor_wf (DXGI.cursor s').
Proof.
  revert s. induction inputs as [|[msgs e] rest IH]; intros s Hd Hwf Hok.
  - exists s. auto.
  - apply Forall_cons in Hok as [Hok1 Hokr]. simpl in Hok1.
    cbn [DXGI.run]. destruct (DXGI.g_Running s); [|exists s; auto].
    unfold DXGI.iteration.
    destruct (pump_fields msgs s) as (_ & _ & Pc & _ & Pd).
    destruct (DXGI.g_Running (DXGI.pump msgs s)) eqn:Er.
    + destruct (tick_safe sample e (DXGI.pump msgs s))
        as (s1 & E1 & D1 & W1 & _);
        [rewrite Pd; exact Hd|rewrite Pc; exact Hwf|exact Hok1|].
      rewrite E1. simpl. apply IH; assumption.
    + simpl. rewrite run_stopped by exact Er.
      exists (DXGI.pump msgs s). rewrite Pd, Pc. auto.
Qed.

Lemma loop_never_faults_witness :
  exists s',
    DXGI.run nearest
      [([], bleed_tick); ([DXGI.OtherMsg], timeout_tick 5 5)] dxgi_boot
      = Some s' /\
    DXGI.g_DeskDupl s' = Some tt /\ cursor_wf (DXGI.cursor s').
Proof.
  apply (loop_never_faults nearest
           [([], bleed_tick); ([DXGI.OtherMsg], timeout_tick 5 5)] dxgi_boot).
  - reflexivity.
  - exact I.
  - repeat constructor; try (vm_compute; intuition discriminate).
Defined.

Lemma draw_desc create_ok map_ok c t cx cy t' :
  DrawCursorOnTexture create_ok map_ok c t cx cy = Some t' ->
  desc_Width t' = desc_Width t /\ desc_Height t' = desc_Height t /\
  RowPitch t' = RowPitch t.
Proof.
  unfold DrawCursorOnTexture. intros E.
  destruct (g_CursorBuffer c); [|injection E as <-; auto].
  destruct (_ || _); [injection E as <-; auto|].
  destruct (negb create_ok); [injection E as <-; auto|].
  destruct (negb map_ok); [injection E as <-; auto|].
  bind_case E as d Ed. injection E as <-. auto.
Qed.

Lemma tick_desc sample e s s' :
  DXGI.CaptureAndRender sample e s = Some s' ->
  desc_Width (DXGI.g_BackBuffer s') = desc_Width (DXGI.g_BackBuffer s) /\
  desc_Height (DXGI.g_BackBuffer s') = desc_Height (DXGI.g_BackBuffer s) /\
  RowPitch (DXGI.g_BackBuffer s') = RowPitch (DXGI.g_BackBuffer s).
Proof.
  unfold DXGI.CaptureAndRender. intros E.
  destruct (DXGI.g_DeskDupl s); simpl in E; [|discriminate].
  assert (R : forall s0, DXGI.g_BackBuffer s0 = DXGI.g_BackBuffer s ->
              DXGI.render_and_present sample e s0 = Some s' ->
              desc_Width (DXGI.g_BackBuffer s')
                = desc_Width (DXGI.g_BackBuffer s) /\
              desc_Height (DXGI.g_BackBuffer s')
                = desc_Height (DXGI.g_BackBuffer s) /\
              RowPitch (DXGI.g_BackBuffer s')
                = RowPitch (DXGI.g_BackBuffer s)).
  { intros s0 Hb Er. unfold DXGI.render_and_present in Er.
    bind_case Er as bb Eb. injection Er as <-. simpl. rewrite Hb in Eb.
    assert (Hbb : desc_Width bb = desc_Width (DXGI.g_BackBuffer s) /\
                  desc_Height bb = desc_Height (DXGI.g_BackBuffer s) /\
                  RowPitch bb = RowPitch (DXGI.g_BackBuffer s)).
    { destruct (DXGI.cursor_pos e) as [[px py]|];
        [|injection Eb as <-; auto].
      destruct (_ && _); [|injection Eb as <-; auto].
      destruct (g_CursorBuffer (DXGI.cursor s0));
        [|injection Eb as <-; auto].
      apply draw_desc in Eb. exact Eb. }
    exact Hbb. }
  destruct (DXGI.acquire e) as [|desktop shape| |].
  - exact (R s eq_refl E).
  - bind_case E as s1 E1. apply (R (DXGI.emit DXGI.FrameRelease s1)); [|exact E].
    destruct shape as [| |info buf].
    + injection E1 as <-. destruct desktop; reflexivity.
    + injection E1 as <-. destruct desktop; reflexivity.
    + bind_case E1 as c1 Ec. injection E1 as <-.
      destruct desktop; reflexivity.
  - injection E as <-. destruct (DXGI.init_dupl e); auto.
  - exact (R s eq_refl E).
Qed.

(** X8. The render target keeps its description: whatever happens in a run
    of the loop (frames, timeouts, lost access, cursor shapes of any size),
    the width, height and row pitch of [g_BackBuffer] at the end are those
    at the start. *)
Theorem render_target_keeps_description
    (sample : (Z -> Z) -> Z -> Z -> Z -> Z)
    (inputs : list (list DXGI.Msg * DXGI.Tick)) (s s' : DXGI.State) :
  DXGI.run sample inputs s = Some s' ->
  desc_Width (DXGI.g_BackBuffer s') = desc_Width (DXGI.g_BackBuffer s) /\
  desc_Height (DXGI.g_BackBuffer s') = desc_Height (DXGI.g_BackBuffer s) /\
  RowPitch (DXGI.g_BackBuffer s') = RowPitch (DXGI.g_BackBuffer s).
Proof.
  revert s. induction inputs as [|[msgs e] rest IH]; intros s E.
  - injection E as <-. auto.
  - cbn [DXGI.run] in E. destruct (DXGI.g_Running s);
      [|injection E as <-; auto].
    bind_case E as s1 E1. unfold DXGI.iteration in E1.
    destruct (pump_fields msgs s) as (_ & Pb & _).
    destruct (IH _ E) as (W & H & P). rewrite W, H, P.
    destruct (DXGI.g_Running (DXGI.pump msgs s)).
    + apply tick_desc in E1. rewrite Pb in E1. exact E1.
    + injection E1 as <-. rewrite Pb. auto.
Qed.

Lemma render_target_keeps_description_witness :
  let s' := default dxgi_boot
              (DXGI.run nearest [([], bleed_tick); ([], lost_tick)]
                 dxgi_boot) in
  desc_Width (DXGI.g_BackBuffer s') = 1920 /\
  desc_Height (DXGI.g_BackBuffer s') = 1080 /\
  RowPitch (DXGI.g_BackBuffer s') = 7680.
Proof.
  apply (render_target_keeps_description nearest
           [([], bleed_tick); ([], lost_tick)] dxgi_boot).
  reflexivity.
Defined.

(** ** The loop of [main_gdi.cpp] *)

Lemma gdi_orderly_app exclude hidden a b :
  gdi_orderly exclude hidden a = true ->
  gdi_orderly exclude false b = true ->
  gdi_orderly exclude hidden (a ++ b) = true.
Proof.
  revert hidden. induction a as [|ev a IH]; intros hidden Ha Hb.
  - simpl in *. destruct hidden; [discriminate|exact Hb].
  - destruct ev; simpl in *.
    + apply andb_true_iff in Ha as [H1 H2]. rewrite H1. simpl. auto.
    + apply andb_true_iff in Ha as [H1 H2]. rewrite H1. simpl. auto.
    + apply andb_true_iff in Ha as [H1 H2]. rewrite H1. simpl. auto.
Qed.

Lemma gdi_draw_cursor_fields icon e s :
  GDI.events (GDI.draw_cursor icon e s) = GDI.events s /\
  GDI.g_UseExcludeFromCapture (GDI.draw_cursor icon e s) =
    GDI.g_UseExcludeFromCapture s.
Proof.
  unfold GDI.draw_cursor.
  destruct (GDI.cursor_info e) as [ci|]; [|auto].
  destruct (_ =? 0); [auto|].
  assert (C : GDI.events (GDI.cache_cursor e ci s) = GDI.events s /\
              GDI.g_UseExcludeFromCapture (GDI.cache_cursor e ci s) =
                GDI.g_UseExcludeFromCapture s).
  { unfold GDI.cache_cursor. destruct (_ =? _); [auto|].
    destruct (GDI.icon_info e) as [[]|], (GDI.frame_info e) as [[]|]; auto. }
  destruct (_ && _); [|exact C]. exact C.
Qed.

(** What one call adds to the events. *)
Lemma gdi_tick_events stretched icon e s :
  let s' := GDI.CaptureAndRender stretched icon e s in
  GDI.g_UseExcludeFromCapture s' = GDI.g_UseExcludeFromCapture s /\
  GDI.events s' =
    GDI.events s ++ gdi_call_events (GDI.g_UseExcludeFromCapture s)
                      (GDI.g_pBitmapBits s').
Proof.
  unfold GDI.CaptureAndRender, gdi_call_events.
  destruct (GDI.g_UseExcludeFromCapture s) eqn:Ex.
  - set (s1 := GDI.set_bits _ s).
    destruct (gdi_draw_cursor_fields icon e s1) as [Ev Eu].
    assert (U : GDI.g_UseExcludeFromCapture (GDI.draw_cursor icon e s1) = true).
    { rewrite Eu. exact Ex. }
    rewrite U. simpl. split; [exact U|]. rewrite Ev. reflexivity.
  - set (s1 := GDI.set_bits _ (GDI.emit GDI.HideWindow s)).
    destruct (gdi_draw_cursor_fields icon e s1) as [Ev Eu].
    assert (U : GDI.g_UseExcludeFromCapture (GDI.draw_cursor icon e s1)
                = false).
    { rewrite Eu. exact Ex. }
    rewrite U. simpl. split; [exact U|]. rewrite Ev. simpl.
    rewrite <- !app_assoc. reflexivity.
Qed.

Lemma gdi_presents_app a b :
  gdi_presents (a ++ b) = (gdi_presents a + gdi_presents b)%nat.
Proof.
  unfold gdi_presents. rewrite List.filter_app, length_app. reflexivity.
Qed.

Lemma gdi_call_events_orderly exclude b :
  gdi_orderly exclude false (gdi_call_events exclude b) = true /\
  gdi_presents (gdi_call_events exclude b) = 1%nat.
Proof. destruct exclude; split; reflexivity. Qed.

(** X9. The window of [main_gdi.cpp] across any number of calls of
    [CaptureAndRender]: the capture mode never changes, and the events are
    exactly, call after call, the presentation of a frame when the window
    is excluded from capture, and otherwise hiding the window, showing it
    again and then presenting the frame.  So a window that is not excluded
    is hidden and shown once in every call, an excluded one never; every
    call presents exactly once, after the window is shown again, and what
    it presents is the bitmap it leaves behind. *)
Theorem window_hidden_only_while_capturing
    (stretched : (Z -> Z -> Z) -> Z -> Z -> Z)
    (icon : Z -> (Z -> Z) -> Z -> Z -> Z -> Z -> Z)
    (inputs : list GDI.Tick) (s : GDI.State) :
  (forall e,
     let s' := GDI.CaptureAndRender stretched icon e s in
     GDI.events s' =
       GDI.events s ++
       (if GDI.g_UseExcludeFromCapture s
        then [GDI.Present (GDI.g_pBitmapBits s')]
        else [GDI.HideWindow; GDI.ShowWindow;
              GDI.Present (GDI.g_pBitmapBits s')])) /\
  GDI.g_UseExcludeFromCapture (GDI.ticks stretched icon inputs s) =
    GDI.g_UseExcludeFromCapture s /\
  exists frames,
    length frames = length inputs /\
    last frames =
      match inputs with
      | [] => None
      | _ => Some (GDI.g_pBitmapBits (GDI.ticks stretched icon inputs s))
      end /\
    GDI.events (GDI.ticks stretched icon inputs s) =
      GDI.events s ++
      concat (map (gdi_call_events (GDI.g_UseExcludeFromCapture s)) frames) /\
    gdi_orderly (GDI.g_UseExcludeFromCapture s) false
      (concat (map (gdi_call_events (GDI.g_UseExcludeFromCapture s)) frames))
      = true /\
    gdi_presents
      (concat (map (gdi_call_events (GDI.g_UseExcludeFromCapture s)) frames))
      = length inputs.
Proof.
  split.
  { intros e s'. exact (proj2 (gdi_tick_events stretched icon e s)). }
  revert s. induction inputs as [|e rest IH]; intros s.
  - split; [reflexivity|]. exists []. simpl. rewrite app_nil_r. auto.
  - cbn [GDI.ticks].
    destruct (gdi_tick_events stretched icon e s) as (U1 & E1).
    destruct (IH (GDI.CaptureAndRender stretched icon e s))
      as (U2 & fs & L2 & La & E2 & O2 & P2).
    split; [congruence|].
    exists (GDI.g_pBitmapBits (GDI.CaptureAndRender stretched icon e s) :: fs).
    rewrite U1 in E2, O2, P2.
    split; [simpl; congruence|]. split.
    + destruct rest as [|e2 rest2].
      * destruct fs; [reflexivity|discriminate].
      * destruct fs as [|f fs']; [discriminate|]. exact La.
    + cbn [map concat]. split; [|split].
      * rewrite E2, E1, <- app_assoc. reflexivity.
      * apply gdi_orderly_app;
          [apply gdi_call_events_orderly|exact O2].
      * rewrite gdi_presents_app, P2.
        rewrite (proj2 (gdi_call_events_orderly _ _)). reflexivity.
Qed.

Lemma gdi_draw_cursor_cache_ext icon e s1 s2 :
  gdi_cache s1 = gdi_cache s2 ->
  gdi_cache (GDI.draw_cursor icon e s1) = gdi_cache (GDI.draw_cursor icon e s2).
Proof.
  unfold gdi_cache. intros [= E1 E2 E3 E4 E5].
  unfold GDI.draw_cursor.
  destruct (GDI.cursor_info e) as [ci|]; [|congruence].
  destruct (_ =? 0); [congruence|].
  assert (C : gdi_cache (GDI.cache_cursor e ci s1) =
              gdi_cache (GDI.cache_cursor e ci s2)).
  { unfold gdi_cache, GDI.cache_cursor. rewrite E1.
    destruct (_ =? _); [congruence|].
    destruct (GDI.icon_info e) as [[]|], (GDI.frame_info e) as [[]|];
      simpl; congruence. }
  unfold gdi_cache in C.
  destruct (_ && _); simpl; exact C.
Qed.

Lemma gdi_tick_cache stretched icon e s :
  gdi_cache (GDI.CaptureAndRender stretched icon e s) =
  gdi_cache (GDI.draw_cursor icon e s).
Proof.
  unfold GDI.CaptureAndRender.
  match goal with
  | |- gdi_cache (GDI.emit _ (if _ then ?a else GDI.emit _ ?a)) = _ =>
      transitivity (gdi_cache a)
  end.
  - destruct (GDI.g_UseExcludeFromCapture _); reflexivity.
  - apply gdi_draw_cursor_cache_ext.
    destruct (GDI.g_UseExcludeFromCapture s); reflexivity.
Qed.

Lemma gdi_draw_cursor_last icon e ci s :
  GDI.cursor_info e = Some ci ->
  Z.land (GDI.flags ci) GDI.CURSOR_SHOWING <> 0 ->
  GDI.g_lastCursor (GDI.draw_cursor icon e s) = GDI.hCursor ci.
Proof.
  intros Hc Hs. unfold GDI.draw_cursor. rewrite Hc.
  destruct (Z.eqb_spec (Z.land (GDI.flags ci) GDI.CURSOR_SHOWING) 0);
    [contradiction|].
  assert (C : GDI.g_lastCursor (GDI.cache_cursor e ci s) = GDI.hCursor ci).
  { unfold GDI.cache_cursor.
    destruct (Z.eqb_spec (GDI.hCursor ci) (GDI.g_lastCursor s)) as [->|];
      [reflexivity|].
    destruct (GDI.icon_info e) as [[]|], (GDI.frame_info e) as [[]|];
      reflexivity. }
  destruct (_ && _); exact C.
Qed.

Lemma gdi_draw_cursor_same icon e s :
  match GDI.cursor_info e with
  | Some ci => GDI.hCursor ci = GDI.g_lastCursor s
  | None => True
  end ->
  gdi_cache (GDI.draw_cursor icon e s) = gdi_cache s.
Proof.
  intros H. unfold GDI.draw_cursor.
  destruct (GDI.cursor_info e) as [ci|]; [|reflexivity].
  destruct (_ =? 0); [reflexivity|].
  unfold GDI.cache_cursor. rewrite H, Z.eqb_refl.
  destruct (_ && _); reflexivity.
Qed.

(** X10. The cursor cache of [main_gdi.cpp]: a call that finds a visible
    cursor records its handle, and a following call that finds the same
    handle (or no cursor) leaves the cached hotspot and animation data as
    they are; [GetIconInfo] and [GetCursorFrameInfo] are not consulted
    again, whatever they would return now. *)
Theorem same_cursor_keeps_cache
    (stretched : (Z -> Z -> Z) -> Z -> Z -> Z)
    (icon : Z -> (Z -> Z) -> Z -> Z -> Z -> Z -> Z)
    (e1 e2 : GDI.Tick) (ci : GDI.CURSORINFO) (s : GDI.State) :
  GDI.cursor_info e1 = Some ci ->
  Z.land (GDI.flags ci) GDI.CURSOR_SHOWING <> 0 ->
  match GDI.cursor_info e2 with
  | Some ci2 => GDI.hCursor ci2 = GDI.hCursor ci
  | None => True
  end ->
  let s1 := GDI.CaptureAndRender stretched icon e1 s in
  GDI.g_lastCursor s1 = GDI.hCursor ci /\
  gdi_cache (GDI.CaptureAndRender stretched icon e2 s1) = gdi_cache s1.
Proof.
  intros Hc Hs H2 s1.
  assert (L : GDI.g_lastCursor s1 = GDI.hCursor ci).
  { assert (C : GDI.g_lastCursor s1 =
                GDI.g_lastCursor (GDI.draw_cursor icon e1 s))
      by exact (f_equal (fun p => fst (fst (fst (fst p))))
                  (gdi_tick_cache stretched icon e1 s)).
    rewrite C. exact (gdi_draw_cursor_last icon e1 ci s Hc Hs). }
  split; [exact L|].
  rewrite gdi_tick_cache. apply gdi_draw_cursor_same.
  destruct (GDI.cursor_info e2); [|exact I]. congruence.
Qed.

Lemma same_cursor_keeps_cache_witness :
  let s1 := GDI.CaptureAndRender (fun scr x y => scr x y)
              (fun _ _ _ _ _ _ => 16777215) (arrow_tick 100 50) gdi_idle in
  GDI.g_lastCursor s1 = 65539 /\
  gdi_cache
    (GDI.CaptureAndRender (fun scr x y => scr x y)
       (fun _ _ _ _ _ _ => 16777215)
       {| GDI.screen := fun _ _ => 0;
          GDI.cursor_info := Some (arrow_at 7 7);
          GDI.icon_info := Some (3, 4);
          GDI.frame_info := Some (5, 6); GDI.anim_frame := 0 |} s1)
  = gdi_cache s1.
Proof.
  apply (same_cursor_keeps_cache (fun scr x y => scr x y)
           (fun _ _ _ _ _ _ => 16777215) (arrow_tick 100 50)
           {| GDI.screen := fun _ _ => 0;
              GDI.cursor_info := Some (arrow_at 7 7);
              GDI.icon_info := Some (3, 4);
              GDI.frame_info := Some (5, 6); GDI.anim_frame := 0 |}
           (arrow_at 100 50) gdi_idle).
  - reflexivity.
  - vm_compute. discriminate.
  - reflexivity.
Defined.

(** X11. The frame of an animated cursor: the divisor [frameTime] is never
    zero, also when [g_cursorFrameRate * 1000] wraps around to less than 60
    in [DWORD] arithmetic, and the step passed to [GetCursorFrameInfo] is a
    step of the cursor: it lies below [g_cursorFrameCount]. *)
Theorem animation_step_in_range (tickCount rate count : Z) :
  1 < count ->
  1 <= GDI.frameTime rate /\
  0 <= GDI.animStep tickCount rate count < count.
Proof.
  intros Hc.
  assert (F : 1 <= GDI.frameTime rate).
  { unfold GDI.frameTime, wrap32.
    pose proof (Z.mod_pos_bound (rate * 1000) (2 ^ 32) ltac:(lia)) as Hm.
    pose proof (Z.div_pos ((rate * 1000) mod 2 ^ 32) 60 ltac:(lia)
                  ltac:(lia)) as Hd.
    destruct (Z.eqb_spec ((rate * 1000) mod 2 ^ 32 / 60) 0); lia. }
  split; [exact F|].
  unfold GDI.animStep. apply Z.mod_pos_bound. lia.
Qed.

Lemma animation_step_in_range_witness :
  1 <= GDI.frameTime 536870912 /\
  0 <= GDI.animStep 1000 536870912 8 < 8.
Proof.
  apply (animation_step_in_range 1000 536870912 8); lia.
Defined.

(** The wrap-around case: the rate [2 ^ 29] makes the product a multiple of
    [2 ^ 32], and the divisor falls back to 60. *)
Example frame_time_fallback : GDI.frameTime 536870912 = 60.
Proof. reflexivity. Qed.

(** ** The composite texture of [main.cpp] *)

Lemma cell_replicate_0 n j : cell (replicate n 0) j = 0.
Proof.
  unfold cell, rd. destruct (j <? 0); [reflexivity|].
  destruct (replicate n 0 !! Z.to_nat j) as [v|] eqn:E; [|reflexivity].
  apply lookup_replicate in E as [-> _]. reflexivity.
Qed.

Section BlackLoops.

Context (w h : Z) (Hw : 0 <= w) (Hh : 0 < h) (Hsz : 4 * w * h < 2 ^ 32).

Lemma black_offset y x :
  0 <= y < h -> 0 <= x < w ->
  wrap32 (wrap32 (y * (w * 4) + x * 4) + 3) = (y * w + x) * 4 + 3.
Proof using Hw Hh Hsz.
  intros Hy Hx. rewrite (wrap32_small (y * (w * 4) + x * 4)) by nia.
  rewrite wrap32_small by nia. lia.
Qed.

Lemma black_loops_spec :
  exists px,
    Dupl.blackPixels w h = Some px /\
    Z.of_nat (length px) = 4 * w * h /\
    forall x y, 0 <= x < w -> 0 <= y < h ->
      pixel_at px w x y = (0, 0, 0, 255).
Proof using Hw Hh Hsz.
  unfold Dupl.blackPixels.
  rewrite (wrap32_small (w * 4)) by nia.
  rewrite (wrap32_small (w * 4 * h)) by nia.
  set (init := replicate (Z.to_nat (w * 4 * h)) 0).
  assert (Li : Z.of_nat (length init) = 4 * w * h).
  { unfold init. rewrite length_replicate. nia. }
  assert (F : forall y x s s' j,
             Dupl.black_pixel (w * 4) y x s = Some s' ->
             ~ (j = wrap32 (wrap32 (y * (w * 4) + x * 4) + 3)) ->
             cell s' j = cell s j).
  { intros y x s s' j E Hj. unfold Dupl.black_pixel in E.
    apply wr_Some in E as (_ & _ & _ & Fr). apply Fr. exact Hj. }
  assert (A : forall y x y' x' j,
             0 <= y < h -> 0 <= x < w -> 0 <= y' < h -> 0 <= x' < w ->
             j = wrap32 (wrap32 (y * (w * 4) + x * 4) + 3) ->
             j = wrap32 (wrap32 (y' * (w * 4) + x' * 4) + 3) ->
             y = y' /\ x = x').
  { intros y x y' x' j Hy Hx Hy' Hx' E E'.
    rewrite black_offset in E by assumption.
    rewrite black_offset in E' by assumption.
    apply (pixel_index_inj w); [exact Hx|exact Hx'|lia]. }
  destruct (nested_total w h (Dupl.black_pixel (w * 4))
              (fun b => Z.of_nat (length b) = 4 * w * h) init)
    as (px & E & Lp); [|exact Li|].
  { intros y x t Hy Hx Ht. unfold Dupl.black_pixel.
    rewrite black_offset by assumption.
    destruct (wr_in_range t ((y * w + x) * 4 + 3) 255) as [t' Et]; [nia|].
    exists t'. split; [exact Et|].
    apply wr_Some in Et as (L & _). lia. }
  exists px. split; [exact E|]. split; [exact Lp|].
  intros x y Hx Hy.
  assert (Z0 : forall c, 0 <= c < 3 -> cell px ((y * w + x) * 4 + c) = 0).
  { intros c Hc.
    rewrite (nested_frame cell w h (Dupl.black_pixel (w * 4))
               (fun y x j => j = wrap32 (wrap32 (y * (w * 4) + x * 4) + 3))
               F init px _ E); [apply cell_replicate_0|].
    intros y' x' Hy' Hx' Hj. rewrite black_offset in Hj by assumption. lia. }
  destruct (nested_value cell w h (Dupl.black_pixel (w * 4))
              (fun y x j => j = wrap32 (wrap32 (y * (w * 4) + x * 4) + 3))
              F A init px y x E Hy Hx) as (t1 & t2 & Eb & V & _).
  unfold pixel_at.
  replace ((y * w + x) * 4) with ((y * w + x) * 4 + 0) at 1 by lia.
  rewrite !Z0 by lia.
  rewrite (V ((y * w + x) * 4 + 3)) by (symmetry; apply black_offset; assumption).
  unfold Dupl.black_pixel in Eb. rewrite black_offset in Eb by assumption.
  apply wr_Some in Eb as (_ & _ & -> & _). reflexivity.
Qed.

End BlackLoops.

(** The composite texture as [InitD3D] creates it. *)
Lemma initial_composite_black :
  exists t,
    Dupl.initial_composite = Some t /\
    desc_Width t = Dupl.OUTPUT_WIDTH /\ desc_Height t = Dupl.OUTPUT_HEIGHT /\
    RowPitch t = 4 * Dupl.OUTPUT_WIDTH /\
    forall x y, 0 <= x < Dupl.OUTPUT_WIDTH -> 0 <= y < Dupl.OUTPUT_HEIGHT ->
      texel4 (texels t) (RowPitch t) x y = (0, 0, 0, 255).
Proof.
  unfold Dupl.initial_composite.
  destruct (black_loops_spec Dupl.OUTPUT_WIDTH Dupl.OUTPUT_HEIGHT)
    as (px & -> & L & P);
    [unfold Dupl.OUTPUT_WIDTH; lia|unfold Dupl.OUTPUT_HEIGHT; lia|
     unfold Dupl.OUTPUT_WIDTH, Dupl.OUTPUT_HEIGHT; lia|].
  simpl. eexists. split; [reflexivity|]. cbn [desc_Width desc_Height RowPitch].
  split; [reflexivity|]. split; [reflexivity|]. split; [reflexivity|].
  intros x y Hx Hy. rewrite <- (P x y Hx Hy).
  unfold texel4, pixel_at. cbn [texels].
  replace (y * wrap32 (Dupl.OUTPUT_WIDTH * 4) + 4 * x)
    with ((y * Dupl.OUTPUT_WIDTH + x) * 4);
    [reflexivity|].
  rewrite wrap32_small by (unfold Dupl.OUTPUT_WIDTH; lia). lia.
Qed.

(** X12. The initial data of the composite texture in [InitD3D] of
    [main.cpp]: for a [w] by [h] image whose size fits a [UINT], the
    allocation, the [memset] and the two alpha loops stay inside the array
    and leave every pixel at bytes 0, 0, 0, 255 (opaque black); with the
    constants of the program the texture is 1920 by 1080 with a row pitch of
    7680 bytes and every texel opaque black. *)
Theorem composite_starts_opaque_black :
  (forall w h, 0 <= w -> 0 < h -> 4 * w * h < 2 ^ 32 ->
     exists px,
       Dupl.blackPixels w h = Some px /\
       Z.of_nat (length px) = 4 * w * h /\
       forall x y, 0 <= x < w -> 0 <= y < h ->
         pixel_at px w x y = (0, 0, 0, 255)) /\
  exists t,
    Dupl.initial_composite = Some t /\
    desc_Width t = 1920 /\ desc_Height t = 1080 /\ RowPitch t = 7680 /\
    forall x y, 0 <= x < 1920 -> 0 <= y < 1080 ->
      texel4 (texels t) 7680 x y = (0, 0, 0, 255).
Proof.
  split; [exact black_loops_spec|].
  destruct initial_composite_black as (t & E & W & H & P & B).
  exists t. split; [exact E|]. split; [exact W|]. split; [exact H|].
  split; [exact P|]. intros x y Hx Hy. rewrite <- (B x y Hx Hy).
  rewrite P. reflexivity.
Qed.

Lemma composite_starts_opaque_black_witness :
  exists px,
    Dupl.blackPixels 2 1 = Some px /\
    Z.of_nat (length px) = 4 * 2 * 1 /\
    forall x y, 0 <= x < 2 -> 0 <= y < 1 ->
      pixel_at px 2 x y = (0, 0, 0, 255).
Proof.
  apply (proj1 composite_starts_opaque_black 2 1); lia.
Defined.

(** The loops on a 2 by 1 image, by evaluation. *)
Example black_2x1 :
  Dupl.blackPixels 2 1 = Some [0; 0; 0; 255; 0; 0; 0; 255].
Proof. vm_compute. reflexivity. Qed.

Lemma dupl_frame_keeps a s :
  desc_Width (Dupl.g_CompositeTexture (Dupl.RenderFrame a s)) =
    desc_Width (Dupl.g_CompositeTexture s) /\
  desc_Height (Dupl.g_CompositeTexture (Dupl.RenderFrame a s)) =
    desc_Height (Dupl.g_CompositeTexture s) /\
  RowPitch (Dupl.g_CompositeTexture (Dupl.RenderFrame a s)) =
    RowPitch (Dupl.g_CompositeTexture s) /\
  forall j,
    match locate (Dupl.g_CompositeTexture s) j with
    | Some (x, y, _) => Dupl.RENDER_WIDTH <= x \/ Dupl.RENDER_HEIGHT <= y
    | None => True
    end ->
    texels (Dupl.g_CompositeTexture (Dupl.RenderFrame a s)) j =
    texels (Dupl.g_CompositeTexture s) j.
Proof.
  destruct a as [| |[d|]]; simpl; repeat split; try reflexivity.
  intros j Hj. destruct (locate _ j) as [[[x y] c]|]; [|reflexivity].
  destruct (Z.ltb_spec x Dupl.RENDER_WIDTH); [|reflexivity].
  destruct (Z.ltb_spec y Dupl.RENDER_HEIGHT); [|reflexivity]. lia.
Qed.

Lemma dupl_frames_pad inputs s X Y :
  desc_Width (Dupl.g_CompositeTexture s) = Dupl.OUTPUT_WIDTH ->
  desc_Height (Dupl.g_CompositeTexture s) = Dupl.OUTPUT_HEIGHT ->
  4 * Dupl.OUTPUT_WIDTH <= RowPitch (Dupl.g_CompositeTexture s) ->
  Dupl.RENDER_WIDTH <= X < Dupl.OUTPUT_WIDTH -> 0 <= Y < Dupl.OUTPUT_HEIGHT ->
  texel4 (texels (Dupl.g_CompositeTexture (Dupl.frames inputs s)))
    (RowPitch (Dupl.g_CompositeTexture s)) X Y =
  texel4 (texels (Dupl.g_CompositeTexture s))
    (RowPitch (Dupl.g_CompositeTexture s)) X Y.
Proof.
  revert s. induction inputs as [|a rest IH]; intros s HW HH HP HX HY.
  - reflexivity.
  - cbn [Dupl.frames].
    destruct (dupl_frame_keeps a s) as (W & H & P & F).
    rewrite <- P at 1. rewrite IH by congruence. rewrite P.
    unfold texel4.
    assert (U : forall c, 0 <= c < 4 ->
              texels (Dupl.g_CompositeTexture (Dupl.RenderFrame a s))
                (Y * RowPitch (Dupl.g_CompositeTexture s) + 4 * X + c) =
              texels (Dupl.g_CompositeTexture s)
                (Y * RowPitch (Dupl.g_CompositeTexture s) + 4 * X + c)).
    { intros c Hc. apply F.
      unfold Dupl.RENDER_WIDTH, Dupl.OUTPUT_WIDTH, Dupl.OUTPUT_HEIGHT in *.
      rewrite locate_texel by lia. left. lia. }
    pose proof (U 0 ltac:(lia)) as U0. rewrite Z.add_0_r in U0.
    rewrite U0, !U by lia. reflexivity.
Qed.

(** X13. [main.cpp] never writes the pad region: starting from the
    composite texture that [InitD3D] creates, after any sequence of calls
    of [RenderFrame] (frames of any content, timeouts, failures) every
    texel of the composite texture in columns 1440 to 1919 is still opaque
    black. *)
Theorem composite_pad_stays_black :
  exists t,
    Dupl.initial_composite = Some t /\
    forall inputs bb evs X Y,
      Dupl.RENDER_WIDTH <= X < Dupl.OUTPUT_WIDTH ->
      0 <= Y < Dupl.OUTPUT_HEIGHT ->
      texel4
        (texels
           (Dupl.g_CompositeTexture
              (Dupl.frames inputs
                 {| Dupl.g_CompositeTexture := t; Dupl.g_BackBuffer := bb;
                    Dupl.events := evs |})))
        (RowPitch t) X Y = (0, 0, 0, 255).
Proof.
  destruct initial_composite_black as (t & E & W & H & P & B).
  exists t. split; [exact E|].
  intros inputs bb evs X Y HX HY.
  pose proof (dupl_frames_pad inputs
                {| Dupl.g_CompositeTexture := t; Dupl.g_BackBuffer := bb;
                   Dupl.events := evs |} X Y) as K.
  cbn [Dupl.g_CompositeTexture] in K. rewrite K; try assumption.
  - apply B; unfold Dupl.RENDER_WIDTH, Dupl.OUTPUT_WIDTH in *; lia.
  - rewrite P. lia.
Qed.

Lemma composite_pad_stays_black_witness :
  exists t,
    Dupl.initial_composite = Some t /\
    texel4
      (texels
         (Dupl.g_CompositeTexture
            (Dupl.frames
               [Dupl.Acquired (Some split_frame); Dupl.WAIT_TIMEOUT;
                Dupl.Acquired None; Dupl.Failed]
               {| Dupl.g_CompositeTexture := t; Dupl.g_BackBuffer := canvas0;
                  Dupl.events := [] |})))
      (RowPitch t) 1440 0 = (0, 0, 0, 255).
Proof.
  destruct composite_pad_stays_black as (t & E & P).
  exists t. split; [exact E|].
  apply P; unfold Dupl.RENDER_WIDTH, Dupl.OUTPUT_WIDTH, Dupl.OUTPUT_HEIGHT; lia.
Defined.

(** X14. One call of [RenderFrame] in [main.cpp]: the frame is released
    exactly when one was acquired, also when [QueryInterface] fails; the
    composite texture changes only when a desktop image was obtained; the
    call presents exactly once, last, and what it presents is the back
    buffer holding a copy of the composite texture. *)
Theorem render_frame_protocol (a : Dupl.Acquire) (s : Dupl.State) :
  let s' := Dupl.RenderFrame a s in
  Dupl.events s' =
    Dupl.events s
    ++ match a with
       | Dupl.Acquired _ => [Dupl.FrameRelease]
       | _ => []
       end
    ++ [Dupl.Present (Dupl.g_BackBuffer s')] /\
  match a with
  | Dupl.Acquired (Some _) => True
  | _ => Dupl.g_CompositeTexture s' = Dupl.g_CompositeTexture s
  end /\
  forall x y c,
    0 <= x < desc_Width (Dupl.g_BackBuffer s) ->
    0 <= y < desc_Height (Dupl.g_BackBuffer s) -> 0 <= c < 4 ->
    4 * desc_Width (Dupl.g_BackBuffer s) <= RowPitch (Dupl.g_BackBuffer s) ->
    Dupl.texel (Dupl.g_BackBuffer s') x y c =
    Dupl.texel (Dupl.g_CompositeTexture s') x y c.
Proof.
  intros s'. unfold s'. split; [|split].
  - destruct a as [| |d]; simpl; [reflexivity|reflexivity|].
    rewrite <- app_assoc. reflexivity.
  - destruct a as [| |[d|]]; simpl; auto.
  - intros x y c Hx Hy Hc Hp.
    destruct a as [| |d]; simpl; apply copy_resource_texel; assumption.
Qed.

Lemma render_frame_protocol_witness :
  let s' := Dupl.RenderFrame (Dupl.Acquired None) dupl_boot in
  Dupl.events s' =
    Dupl.events dupl_boot ++ [Dupl.FrameRelease]
    ++ [Dupl.Present (Dupl.g_BackBuffer s')] /\
  Dupl.g_CompositeTexture s' = Dupl.g_CompositeTexture dupl_boot /\
  Dupl.texel (Dupl.g_BackBuffer s') 1919 1079 3 =
  Dupl.texel (Dupl.g_CompositeTexture s') 1919 1079 3.
Proof.
  destruct (render_frame_protocol (Dupl.Acquired None) dupl_boot)
    as (E & C & T).
  split; [exact E|]. split; [exact C|].
  apply T; simpl; lia.
Defined.

(** ** The shell windows *)

(** X15. Hiding and restoring the shell: [ShowWindowsShell] shows again
    exactly the windows that [HideWindowsShell] hid (those of the taskbar
    and the Start button that were found), in the same order, and forgets
    their handles, so that a second [ShowWindowsShell] does nothing. *)
Theorem shell_is_restored (f : Shell.Found) (s : Shell.State) :
  let s1 := Shell.HideWindowsShell f s in
  let s2 := Shell.ShowWindowsShell s1 in
  exists hidden,
    Forall (fun h => h <> 0) hidden /\
    Shell.events s1 =
      Shell.events s
      ++ map (fun h => Shell.ShowWindow h Shell.SW_HIDE) hidden /\
    Shell.events s2 =
      Shell.events s1
      ++ map (fun h => Shell.ShowWindow h Shell.SW_SHOW) hidden /\
    Shell.g_ShellHidden s1 = true /\ Shell.g_ShellHidden s2 = false /\
    Shell.ShowWindowsShell s2 = s2.
Proof.
  intros s1 s2.
  exists (List.filter (fun h => negb (h =? 0))
            [Shell.tray f;
             if Shell.start f =? 0 then Shell.start_ex f else Shell.start f]).
  unfold s2, s1, Shell.ShowWindowsShell, Shell.HideWindowsShell, Shell.show.
  cbn [Shell.g_hTaskbar Shell.g_hStartButton Shell.events
       Shell.g_ShellHidden List.filter].
  set (hStart := if Shell.start f =? 0 then Shell.start_ex f
                 else Shell.start f).
  destruct (Z.eqb_spec (Shell.tray f) 0) as [T|T];
    destruct (Z.eqb_spec hStart 0) as [B|B]; simpl;
    rewrite ?app_nil_r, <- ?app_assoc; simpl;
    (split; [repeat constructor; assumption|]); repeat split.
Qed.

(** ** DPI awareness *)

(** X16. [EnableDPIAwareness] on every combination of what it can find:
    [shcore.dll] is freed exactly once on every path on which it was
    loaded, [SetProcessDpiAwareness] is called only while it is loaded, and
    once one of the setters has succeeded no further setter is called and
    no library is loaded. *)
Theorem dpi_bootstrap_is_orderly (env : DPI.Env) :
  dpi_orderly false false (DPI.EnableDPIAwareness env) = true.
Proof.
  destruct env as [u c l a p].
  destruct u, c as [[]|], l, a as [[]|], p; reflexivity.
Qed.

(** ** Pacing in counter ticks *)

(** With a frequency and a number of elapsed ticks that are exact in
    [double], [elapsedMs] is the exact quotient rounded once. *)
Lemma elapsedMs_exact f l c :
  0 < f < 2 ^ 53 -> 0 <= c - l -> 1000 * (c - l) < 2 ^ 53 ->
  Pacer.elapsedMs f l c =
    Pacer.Finite (Pacer.RN (1000 * (c - l) # Z.to_pos f)).
Proof.
  intros Hf Hd Hm. unfold Pacer.elapsedMs, Pacer.of_int64.
  assert (Ei : Pacer.to_int64 (c - l) = c - l).
  { unfold Pacer.to_int64. rewrite Z.mod_small by lia.
    destruct (Z.ltb_spec (c - l) (2 ^ 63)); lia. }
  rewrite Ei, (RN_integer (c - l)) by lia.
  rewrite (RN_comp (inject_Z (c - l) * 1000) (inject_Z (1000 * (c - l)))).
  2:{ rewrite inject_Z_mult. ring. }
  rewrite (RN_integer (1000 * (c - l))), (RN_integer f) by lia.
  destruct (Qeq_bool (inject_Z f) 0) eqn:Ez.
  { apply Qeq_bool_eq in Ez. unfold Qeq in Ez. simpl in Ez. lia. }
  f_equal. apply RN_comp.
  unfold Qdiv, Qinv, Qeq, inject_Z, Qmult. cbn [Qnum Qden].
  destruct f as [|p|p]; try lia. cbn [Qnum Qden Z.to_pos]. lia.
Qed.

(** X17. The pacing step in terms of the performance counter, for a
    frequency [f] below [2 ^ 53] and elapsed ticks [d] with
    [1000 * d < 2 ^ 53] (the conversions and the product are then exact):
    with [remaining = 16 - 1000 * d / f] as an exact quotient, the thread
    sleeps only when [remaining] is positive, and then for [remaining]
    rounded down to whole milliseconds or one millisecond more; it skips
    the sleep only when [remaining] is below one millisecond. *)
Theorem sleep_in_counter_ticks (frequency lastTime currentTime : Z) :
  0 < frequency < 2 ^ 53 ->
  0 <= currentTime - lastTime ->
  1000 * (currentTime - lastTime) < 2 ^ 53 ->
  let remaining :=
    (inject_Z 16
     - (1000 * (currentTime - lastTime) # Z.to_pos frequency))%Q in
  match Pacer.pace (Pacer.elapsedMs frequency lastTime currentTime) with
  | Some ms =>
      (0 < remaining)%Q /\ Qfloor remaining <= ms <= Qfloor remaining + 1
  | None => (remaining < 1)%Q
  end.
Proof.
  intros Hf Hd Hm remaining.
  rewrite elapsedMs_exact by assumption.
  set (q := 1000 * (currentTime - lastTime) # Z.to_pos frequency) in *.
  assert (Hq0 : (0 <= q)%Q) by (unfold q, Qle; simpl; lia).
  assert (Hq53 : (q < inject_Z (2 ^ 53))%Q).
  { unfold q, Qlt. cbn [Qnum Qden inject_Z]. nia. }
  destruct (RN_bounds q Hq0 Hq53) as [Blo Bhi].
  set (e := Pacer.RN q) in *.
  assert (Hfq : 0 <= Qfloor q).
  { change 0 with (Qfloor 0). apply Qfloor_resp_le. exact Hq0. }
  assert (Hcf : Qceiling q <= Qfloor q + 1).
  { rewrite <- (Qceiling_Z (Qfloor q + 1)). apply Qceiling_resp_le.
    apply Qlt_le_weak. apply Qlt_floor. }
  assert (Hrem : Qfloor remaining = 16 - Qceiling q) by apply Qfloor_minus.
  destruct (Qlt_le_dec e (inject_Z 16)) as [Hlt|Hge].
  - assert (He0 : (0 <= e)%Q).
    { eapply Qle_trans; [|exact Blo]. change 0%Q with (inject_Z 0).
      rewrite <- Zle_Qle. exact Hfq. }
    destruct (pace_remaining e He0 Hlt) as (ms & -> & _ & B1 & B2).
    rewrite Qfloor_minus in B1. rewrite Qceiling_minus in B2.
    assert (Hce : Qceiling e <= Qceiling q).
    { rewrite <- (Qceiling_Z (Qceiling q)). apply Qceiling_resp_le. exact Bhi. }
    assert (Hfe : Qfloor q <= Qfloor e).
    { rewrite <- (Qfloor_Z (Qfloor q)). apply Qfloor_resp_le. exact Blo. }
    assert (Hf16 : Qfloor q < 16).
    { rewrite Zlt_Qlt. eapply Qle_lt_trans; [exact Blo|exact Hlt]. }
    split; [|lia].
    unfold remaining. apply (proj1 (Qlt_minus_iff q (inject_Z 16))).
    apply Qlt_le_trans with (inject_Z (Qfloor q + 1)); [apply Qlt_floor|].
    rewrite <- Zle_Qle. lia.
  - rewrite pace_late by exact Hge.
    assert (Hc16 : 16 <= Qceiling q).
    { rewrite Zle_Qle. eapply Qle_trans; [exact Hge|exact Bhi]. }
    pose proof (Qceiling_lt q) as Hcl.
    assert (H15 : (inject_Z 15 < q)%Q).
    { eapply Qle_lt_trans; [|exact Hcl]. rewrite <- Zle_Qle. lia. }
    clear - H15. subst remaining. subst q.
    unfold Qlt, Qminus, Qplus, Qopp in *. cbn [Qnum Qden inject_Z] in *.
    lia.
Qed.

Lemma sleep_in_counter_ticks_witness :
  let remaining := (inject_Z 16 - (1000 * (55000 - 0) # Z.to_pos 10000000))%Q in
  match Pacer.pace (Pacer.elapsedMs 10000000 0 55000) with
  | Some ms =>
      (0 < remaining)%Q /\ Qfloor remaining <= ms <= Qfloor remaining + 1
  | None => (remaining < 1)%Q
  end.
Proof.
  apply (sleep_in_counter_ticks 10000000 0 55000); lia.
Defined.

(** ** The scaling pass *)

(** X18. The scaling pass of [main_dxgi.cpp] on the 1920 by 1080 render
    target: the comparison of the interpolated texture coordinate with
    [0.75] at the pixel centres puts the split exactly at column
    [RENDER_WIDTH]; every texel left of it holds what the sampler returns
    for it and every texel from it on is opaque black, whatever the render
    target held before. *)
Theorem scaling_pass_splits_at_render_width
    (sample : (Z -> Z) -> Z -> Z -> Z -> Z) (src : Z -> Z) (bb : Texture)
    (X Y c : Z) :
  output_sized bb -> canvas_wf bb ->
  0 <= X < DXGI.OUTPUT_WIDTH -> 0 <= Y < DXGI.OUTPUT_HEIGHT -> 0 <= c < 4 ->
  texels (DXGI.rendered sample src bb) (Y * RowPitch bb + 4 * X + c) =
    if X <? DXGI.RENDER_WIDTH then sample src X Y c
    else if c =? 3 then 255 else 0.
Proof.
  intros [EW EH] (HW & HH & Hp & Hsz) HX HY Hc.
  unfold DXGI.RENDER_WIDTH, DXGI.OUTPUT_WIDTH, DXGI.OUTPUT_HEIGHT in *.
  rewrite (rendered_located sample src bb _ X Y c)
    by (apply locate_texel; lia).
  unfold DXGI.PS, DXGI.OUTPUT_WIDTH.
  destruct (Z.leb_spec (4 * (2 * X + 1)) (3 * (2 * 1920)));
    destruct (Z.ltb_spec X 1440); try lia; reflexivity.
Qed.

Lemma scaling_pass_splits_at_render_width_witness :
  texels (DXGI.rendered nearest (fun _ => 7) canvas0)
    (5 * RowPitch canvas0 + 4 * 1439 + 0) =
    if 1439 <? DXGI.RENDER_WIDTH then nearest (fun _ => 7) 1439 5 0
    else if 0 =? 3 then 255 else 0.
Proof.
  apply (scaling_pass_splits_at_render_width nearest (fun _ => 7) canvas0
           1439 5 0).
  - split; reflexivity.
  - unfold canvas_wf. simpl. lia.
  - unfold DXGI.OUTPUT_WIDTH. lia.
  - unfold DXGI.OUTPUT_HEIGHT. lia.
  - lia.
Defined.
